(** * Tic-tac-toe backend: shallow embedding and verification

    The development follows [main.go] (the variable-size server: minimax on
    the 3x3 board, a rule-ordered heuristic on the other sizes) and the older
    fixed-size server, whose win checker enumerates the eight triples.

    Conventions of the embedding:
    - a Go [[]string] board is a [list string]; a Go [int] index is a [Z];
    - indexing outside the slice makes the Go runtime panic; the embedding
      returns [Panic];
    - code that writes the board in place threads the board explicitly:
      a function that mutates returns the board it leaves behind;
    - recursion that is not structural takes fuel and reports [OutOfFuel]
      when it is exhausted, so a statement [... = Ok r] says that the code
      does return. *)

From stdpp Require Import base list strings relations.
From Stdlib Require Import ZArith Lia Sorted.

Local Open Scope Z_scope.

(** ** Results of fallible code *)

Inductive Res (A : Type) : Type :=
| Ok (a : A)
| Panic
| OutOfFuel.
Arguments Ok {A} a.
Arguments Panic {A}.
Arguments OutOfFuel {A}.

Definition rbind {A B : Type} (x : Res A) (f : A -> Res B) : Res B :=
  match x with
  | Ok a => f a
  | Panic => Panic
  | OutOfFuel => OutOfFuel
  end.

Notation "'let*' x ':=' c 'in' k" := (rbind c (fun x => k))
  (at level 10, x pattern, c at level 100, k at level 200).

(** Go's short-circuit [&&] and [||] over operands that may panic: the right
    operand is a branch of the match, so it is evaluated only when Go
    evaluates it. *)
Notation "x '&&&' y" :=
  (match x with Ok true => y | Ok false => Ok false | Panic => Panic | OutOfFuel => OutOfFuel end)
  (at level 40, left associativity, only parsing).
Notation "x '|||' y" :=
  (match x with Ok true => Ok true | Ok false => y | Panic => Panic | OutOfFuel => OutOfFuel end)
  (at level 50, left associativity, only parsing).

(** ** Machine integers

    Go's [int] is a 64-bit two's-complement integer on the platforms the
    server targets; arithmetic wraps around. *)

Definition minInt64 : Z := Eval cbv in - 2 ^ 63.
Definition maxInt64 : Z := Eval cbv in 2 ^ 63 - 1.

Definition wrap64 (z : Z) : Z := (z + 2 ^ 63) mod 2 ^ 64 - 2 ^ 63.

Definition mul64 (x y : Z) : Z := wrap64 (x * y).
Definition add64 (x y : Z) : Z := wrap64 (x + y).
Definition sub64 (x y : Z) : Z := wrap64 (x - y).
Definition neg64 (x : Z) : Z := wrap64 (- x).

(** ** Data model *)

Abbreviation Board := (list string) (only parsing).

Definition PLAYER_X : string := "X".
Definition AI_O : string := "O".
Definition EMPTY : string := "".

Record GameState := mkGameState {
  gsBoard : Board;
  gsBoardSize : Z;
  gsWinner : string
}.

(** [board[i]] as an expression. *)
Definition index (b : Board) (i : Z) : Res string :=
  if i <? 0 then Panic
  else
    match b !! Z.to_nat i with
    | Some s => Ok s
    | None => Panic
    end.

(** [board[i] = v] as a statement. *)
Definition store (b : Board) (i : Z) (v : string) : Res Board :=
  if i <? 0 then Panic
  else
    match b !! Z.to_nat i with
    | Some _ => Ok (<[Z.to_nat i := v]> b)
    | None => Panic
    end.

(** [board[i] == p] and [board[i] != p]. *)
Definition cellIs (b : Board) (i : Z) (p : string) : Res bool :=
  let* s := index b i in Ok (String.eqb s p).

(** ** The 3x3 win checker of the minimax ([minimaxWinChecker]) *)

Definition minimaxWinChecker (b : Board) (p : string) : Res bool :=
  (cellIs b 0 p &&& cellIs b 1 p &&& cellIs b 2 p) |||
  (cellIs b 3 p &&& cellIs b 4 p &&& cellIs b 5 p) |||
  (cellIs b 6 p &&& cellIs b 7 p &&& cellIs b 8 p) |||
  (cellIs b 0 p &&& cellIs b 3 p &&& cellIs b 6 p) |||
  (cellIs b 1 p &&& cellIs b 4 p &&& cellIs b 7 p) |||
  (cellIs b 2 p &&& cellIs b 5 p &&& cellIs b 8 p) |||
  (cellIs b 0 p &&& cellIs b 4 p &&& cellIs b 8 p) |||
  (cellIs b 2 p &&& cellIs b 4 p &&& cellIs b 6 p).

(** ** [isBoardFull] *)

Fixpoint isBoardFull (board : Board) : bool :=
  match board with
  | [] => true
  | cell :: rest => if String.eqb cell EMPTY then false else isBoardFull rest
  end.

(** ** The N x N win checker ([checkWinner] of the variable-size server)

    [allFrom k i f] is the loop [for j := i; j < i + k; j++] that clears the
    [match] flag and breaks at the first [j] whose test fails; [anyFrom] is
    the outer loop that returns [true] at the first line that matched. A loop
    [for r := 0; r < n; r++] runs [Z.to_nat n] times, that is not at all when
    [n <= 0]. *)

Fixpoint allFrom (k : nat) (i : Z) (f : Z -> Res bool) : Res bool :=
  match k with
  | O => Ok true
  | S k' => f i &&& allFrom k' (i + 1) f
  end.

Fixpoint anyFrom (k : nat) (i : Z) (f : Z -> Res bool) : Res bool :=
  match k with
  | O => Ok false
  | S k' => f i ||| anyFrom k' (i + 1) f
  end.

Definition checkWinner (board : Board) (player : string) (n : Z) : Res bool :=
  let cnt := Z.to_nat n in
  (* rows *)
  anyFrom cnt 0 (fun r => allFrom cnt 0 (fun c => cellIs board (add64 (mul64 r n) c) player)) |||
  (* columns *)
  anyFrom cnt 0 (fun c => allFrom cnt 0 (fun r => cellIs board (add64 (mul64 r n) c) player)) |||
  (* diagonal, top-left to bottom-right *)
  allFrom cnt 0 (fun i => cellIs board (add64 (mul64 i n) i) player) |||
  (* diagonal, top-right to bottom-left *)
  allFrom cnt 0 (fun i => cellIs board (add64 (mul64 i n) (sub64 (sub64 n 1) i)) player).

(** ** The win checker of the fixed-size server: a loop over eight triples *)

Module Fixed.

Definition winConditions : list (Z * Z * Z) :=
  [ (0, 1, 2); (3, 4, 5); (6, 7, 8);
    (0, 3, 6); (1, 4, 7); (2, 5, 8);
    (0, 4, 8); (2, 4, 6) ].

Fixpoint anyCondition (board : Board) (player : string) (conds : list (Z * Z * Z)) : Res bool :=
  match conds with
  | [] => Ok false
  | (c0, c1, c2) :: rest =>
      (cellIs board c0 player &&& cellIs board c1 player &&& cellIs board c2 player) |||
      anyCondition board player rest
  end.

Definition checkWinner (board : Board) (player : string) : Res bool :=
  anyCondition board player winConditions.

Fixpoint isBoardFull (board : Board) : bool :=
  match board with
  | [] => true
  | cell :: rest => if String.eqb cell "" then false else isBoardFull rest
  end.

End Fixed.

(** ** [getEmptySpots] *)

Fixpoint emptySpotsFrom (i : Z) (board : Board) : list Z :=
  match board with
  | [] => []
  | cell :: rest =>
      if String.eqb cell EMPTY then i :: emptySpotsFrom (i + 1) rest
      else emptySpotsFrom (i + 1) rest
  end.

Definition getEmptySpots (board : Board) : list Z := emptySpotsFrom 0 board.

(** ** The heuristic selector ([findBestMoveHeuristic])

    The process-wide random source is passed in: [shuffle] is the order
    [rand.Shuffle] leaves the corners in, [intn k] is [rand.Intn(k)]. *)

Record Rand := mkRand {
  shuffle : list Z -> list Z;
  intn : Z -> Z
}.

Definition RandOk (rnd : Rand) : Prop :=
  (forall l, shuffle rnd l ≡ₚ l) /\ (forall k, 0 < k -> 0 <= intn rnd k < k).

(** Stages 1 and 2 are the same loop, run with the AI mark and then with the
    human mark: copy the board, write the mark at [move], test the copy. *)
Fixpoint firstCompleting (board : Board) (mark : string) (n : Z) (spots : list Z)
  : Res (option Z) :=
  match spots with
  | [] => Ok None
  | move :: rest =>
      let* boardCopy := store board move mark in
      let* won := checkWinner boardCopy mark n in
      if won then Ok (Some move) else firstCompleting board mark n rest
  end.

Fixpoint firstEmptyCorner (board : Board) (corners : list Z) : Res (option Z) :=
  match corners with
  | [] => Ok None
  | corner :: rest =>
      let* e := cellIs board corner EMPTY in
      if e then Ok (Some corner) else firstEmptyCorner board rest
  end.

(** [emptySpots[k]]. *)
Definition spotAt (spots : list Z) (k : Z) : Res Z :=
  if k <? 0 then Panic
  else
    match spots !! Z.to_nat k with
    | Some m => Ok m
    | None => Panic
    end.

(** Stages 3 to 5: the centre, the corners in shuffled order, a random free
    cell. *)
Definition centerCornerRandom (rnd : Rand) (board : Board) (n : Z) (emptySpots : list Z)
  : Res Z :=
  let centerIdx := Z.quot (mul64 n n) 2 in
  let* centerFree := cellIs board centerIdx EMPTY in
  if centerFree then Ok centerIdx else
  let corners := shuffle rnd [0; sub64 n 1; mul64 n (sub64 n 1); sub64 (mul64 n n) 1] in
  let* corner := firstEmptyCorner board corners in
  match corner with
  | Some c => Ok c
  | None => spotAt emptySpots (intn rnd (Z.of_nat (length emptySpots)))
  end.

Definition findBestMoveHeuristic (rnd : Rand) (board : Board) (n : Z) : Res Z :=
  let emptySpots := getEmptySpots board in
  if bool_decide (length emptySpots = 0%nat) then Ok (-1) else
  let* win := firstCompleting board AI_O n emptySpots in
  match win with
  | Some move => Ok move
  | None =>
    let* block := firstCompleting board PLAYER_X n emptySpots in
    match block with
    | Some move => Ok move
    | None => centerCornerRandom rnd board n emptySpots
    end
  end.

(** ** The exhaustive selector ([minimax], [findBestMoveMinimax])

    [intOfInf] is the value of the Go expression [int(math.Inf(1))]. The
    language leaves the conversion of a float that the integer type cannot
    represent implementation-dependent, so the value is a parameter of the
    model: it is [minInt64] where the conversion is the x86-64 truncating
    instruction, and [maxInt64] where the conversion saturates. *)

Definition goMax (a b : Z) : Z := if a >? b then a else b.
Definition goMin (a b : Z) : Z := if a <? b then a else b.

Section Minimax.

Variable intOfInf : Z.

(** The loop of [minimax]:
    [for i; i < 9; i++ { if board[i] == EMPTY { board[i] = mark;
       best = pick(best, rec(board)); board[i] = EMPTY } }],
    with [k] iterations left. The recursive call receives the board with the
    mark on it and hands back the board it leaves. *)
Fixpoint searchLoop (rec : Board -> Res (Z * Board)) (mark : string) (pick : Z -> Z -> Z)
    (k : nat) (i : Z) (best : Z) (board : Board) : Res (Z * Board) :=
  match k with
  | O => Ok (best, board)
  | S k' =>
      let* e := cellIs board i EMPTY in
      if e then
        let* board1 := store board i mark in
        let* (v, board2) := rec board1 in
        let* board3 := store board2 i EMPTY in
        searchLoop rec mark pick k' (i + 1) (pick best v) board3
      else searchLoop rec mark pick k' (i + 1) best board
  end.

(** [depth] is at most 9 in every call that starts at depth 0, so [depth + 1],
    [10 - depth] and [depth - 10] are exact. *)
Fixpoint minimax (fuel : nat) (board : Board) (depth : Z) (isMaximizing : bool)
  : Res (Z * Board) :=
  match fuel with
  | O => OutOfFuel
  | S fuel' =>
      let* aiWon := minimaxWinChecker board AI_O in
      if aiWon then Ok (10 - depth, board) else
      let* humanWon := minimaxWinChecker board PLAYER_X in
      if humanWon then Ok (depth - 10, board) else
      if isBoardFull board then Ok (0, board) else
      if isMaximizing then
        searchLoop (fun b => minimax fuel' b (depth + 1) false) AI_O goMax
                   9 0 (neg64 intOfInf) board
      else
        searchLoop (fun b => minimax fuel' b (depth + 1) true) PLAYER_X goMin
                   9 0 intOfInf board
  end.

(** The loop of [findBestMoveMinimax], with [k] iterations left. *)
Fixpoint rootLoop (fuel : nat) (k : nat) (i : Z) (bestVal bestMove : Z) (board : Board)
  : Res (Z * Board) :=
  match k with
  | O => Ok (bestMove, board)
  | S k' =>
      let* e := cellIs board i EMPTY in
      if e then
        let* board1 := store board i AI_O in
        let* (moveVal, board2) := minimax fuel board1 0 false in
        let* board3 := store board2 i EMPTY in
        if moveVal >? bestVal then rootLoop fuel k' (i + 1) moveVal i board3
        else rootLoop fuel k' (i + 1) bestVal bestMove board3
      else rootLoop fuel k' (i + 1) bestVal bestMove board
  end.

Definition findBestMoveMinimax (fuel : nat) (board : Board) : Res (Z * Board) :=
  rootLoop fuel 9 0 (neg64 intOfInf) (-1) board.

(** ** [aiMove] and the game logic of [playHandler] *)

Definition aiMove (fuel : nat) (rnd : Rand) (state : GameState) : Res GameState :=
  let* (bestMove, board) :=
    if gsBoardSize state =? 3 then findBestMoveMinimax fuel (gsBoard state)
    else
      let* m := findBestMoveHeuristic rnd (gsBoard state) (gsBoardSize state) in
      Ok (m, gsBoard state) in
  if bestMove =? -1 then Ok (mkGameState board (gsBoardSize state) (gsWinner state))
  else
    let* e := cellIs board bestMove EMPTY in
    if e then
      let* board' := store board bestMove AI_O in
      Ok (mkGameState board' (gsBoardSize state) (gsWinner state))
    else Ok (mkGameState board (gsBoardSize state) (gsWinner state)).

(** What the handler answers to a POST whose body decoded into [currentState]:
    a 400 response, or the state it encodes. *)
Inductive Response : Type :=
| BadRequest
| Encoded (st : GameState).

Definition setWinner (st : GameState) (w : string) : GameState :=
  mkGameState (gsBoard st) (gsBoardSize st) w.

Definition sizeMismatch (currentState : GameState) : bool :=
  (gsBoardSize currentState =? 0) ||
  negb (Z.of_nat (length (gsBoard currentState))
        =? mul64 (gsBoardSize currentState) (gsBoardSize currentState)).

Definition gameLogic (fuel : nat) (rnd : Rand) (currentState : GameState) : Res GameState :=
  let* humanWon := checkWinner (gsBoard currentState) PLAYER_X (gsBoardSize currentState) in
  if humanWon then Ok (setWinner currentState PLAYER_X)
  else if isBoardFull (gsBoard currentState) then Ok (setWinner currentState "draw")
  else
    let* moved := aiMove fuel rnd currentState in
    let* aiWon := checkWinner (gsBoard moved) AI_O (gsBoardSize moved) in
    if aiWon then Ok (setWinner moved AI_O)
    else if isBoardFull (gsBoard moved) then Ok (setWinner moved "draw")
    else Ok moved.

Definition playHandler (fuel : nat) (rnd : Rand) (currentState : GameState) : Res Response :=
  if sizeMismatch currentState then Ok BadRequest
  else
    let* st := gameLogic fuel rnd currentState in
    Ok (Encoded st).

End Minimax.


(** ** Pure readings of the board, used to state and prove the properties *)

(** Cell [j] holds [p]; [false] outside the board. *)
Definition marked (b : Board) (j : nat) (p : string) : bool :=
  match b !! j with
  | Some s => String.eqb s p
  | None => false
  end.

(** One of the eight triples of a 3x3 board is all [p]. *)
Definition hasLine3 (b : Board) (p : string) : bool :=
  (marked b 0 p && marked b 1 p && marked b 2 p) ||
  (marked b 3 p && marked b 4 p && marked b 5 p) ||
  (marked b 6 p && marked b 7 p && marked b 8 p) ||
  (marked b 0 p && marked b 3 p && marked b 6 p) ||
  (marked b 1 p && marked b 4 p && marked b 7 p) ||
  (marked b 2 p && marked b 5 p && marked b 8 p) ||
  (marked b 0 p && marked b 4 p && marked b 8 p) ||
  (marked b 2 p && marked b 4 p && marked b 6 p).

(** Number of empty cells. *)
Fixpoint emptyCount (b : Board) : nat :=
  match b with
  | [] => 0
  | cell :: rest => if String.eqb cell EMPTY then S (emptyCount rest) else emptyCount rest
  end.

(** ** Pure reading of the search

    [value] is the score [minimax] computes, as a function of the board
    alone: the loop over the nine cells becomes a fold over [seq 0 9], and
    the board is not threaded. [minimax_value] below proves that [minimax]
    returns exactly this score and hands the board back unchanged. *)

Definition foldCells (cv : nat -> Z) (pick : Z -> Z -> Z) (b : Board)
    (js : list nat) (best : Z) : Z :=
  fold_left (fun acc j => if marked b j EMPTY then pick acc (cv j) else acc) js best.

Definition rootStep (cv : nat -> Z) (b : Board) (st : Z * Z) (j : nat) : Z * Z :=
  if marked b j EMPTY then
    if cv j >? fst st then (cv j, Z.of_nat j) else st
  else st.

Definition rootFold (cv : nat -> Z) (b : Board) (js : list nat) (st : Z * Z) : Z * Z :=
  fold_left (rootStep cv b) js st.

Section Value.

Variable intOfInf : Z.

Fixpoint value (fuel : nat) (b : Board) (depth : Z) (isMaximizing : bool) : Z :=
  match fuel with
  | O => 0
  | S fuel' =>
      if hasLine3 b AI_O then 10 - depth
      else if hasLine3 b PLAYER_X then depth - 10
      else if isBoardFull b then 0
      else if isMaximizing then
        foldCells (fun j => value fuel' (<[j := AI_O]> b) (depth + 1) false) goMax
                  b (seq 0 9) (neg64 intOfInf)
      else
        foldCells (fun j => value fuel' (<[j := PLAYER_X]> b) (depth + 1) true) goMin
                  b (seq 0 9) intOfInf
  end.

End Value.

(** ** The game, for the statements about play

    [emptyAt b j]: cell [j] is free. [wins b p]: the search's own checker
    finds a line of [p]. [HumanForces b]: with the human to move on [b], the
    human completes a line whatever the AI answers. [AlreadyLost b]: with the
    AI to move on [b], every move leaves a board on which the AI has no line
    and the human forces one. *)

Definition emptyAt (b : Board) (j : nat) : Prop := b !! j = Some EMPTY.

Definition wins (b : Board) (p : string) : Prop := minimaxWinChecker b p = Ok true.

Inductive HumanForces : Board -> Prop :=
| HF_now (b : Board) (i : nat) :
    emptyAt b i ->
    wins (<[i := PLAYER_X]> b) PLAYER_X ->
    HumanForces b
| HF_later (b : Board) (i : nat) :
    emptyAt b i ->
    isBoardFull (<[i := PLAYER_X]> b) = false ->
    (forall j, emptyAt (<[i := PLAYER_X]> b) j ->
               ~ wins (<[j := AI_O]> (<[i := PLAYER_X]> b)) AI_O) ->
    (forall j, emptyAt (<[i := PLAYER_X]> b) j ->
               HumanForces (<[j := AI_O]> (<[i := PLAYER_X]> b))) ->
    HumanForces b.

Definition AlreadyLost (b : Board) : Prop :=
  forall j, emptyAt b j ->
            ~ wins (<[j := AI_O]> b) AI_O /\ HumanForces (<[j := AI_O]> b).

(** One round of play from a board [b] the AI has just moved on: the game is
    still on, the human marks a free cell without completing a line or
    filling the board, and the selector answers. *)
Inductive Round (intOfInf : Z) (fuel : nat) (b : Board) : Board -> Prop :=
| Round_intro (i m : nat) :
    minimaxWinChecker b AI_O = Ok false ->
    emptyAt b i ->
    minimaxWinChecker (<[i := PLAYER_X]> b) PLAYER_X = Ok false ->
    isBoardFull (<[i := PLAYER_X]> b) = false ->
    findBestMoveMinimax intOfInf fuel (<[i := PLAYER_X]> b)
      = Ok (Z.of_nat m, <[i := PLAYER_X]> b) ->
    Round intOfInf fuel b (<[m := AI_O]> (<[i := PLAYER_X]> b)).

(** ** Where the conversion of infinity is a large positive integer *)

Definition saturates (intOfInf : Z) : Prop := 10 < intOfInf <= maxInt64.


(** The score the root loop compares for cell [j]. *)
Definition score (intOfInf : Z) (fuel : nat) (b : Board) (j : nat) : Z :=
  value intOfInf fuel (<[j := AI_O]> b) 0 false.


(** What the claim promises of the selector on [b]: it returns a free cell,
    and in every play that follows, where the human plays any free cell and
    the selector answers, no move of the human completes a line, and the
    selector has an answer whenever the game goes on. *)
Definition NeverLoses (intOfInf : Z) (fuel : nat) (b : Board) : Prop :=
  exists m,
    findBestMoveMinimax intOfInf fuel b = Ok (Z.of_nat m, b) /\ emptyAt b m /\
    forall b', rtc (Round intOfInf fuel) (<[m := AI_O]> b) b' ->
      minimaxWinChecker b' PLAYER_X = Ok false /\
      (minimaxWinChecker b' AI_O = Ok false ->
       forall i, emptyAt b' i ->
         minimaxWinChecker (<[i := PLAYER_X]> b') PLAYER_X = Ok false /\
         (isBoardFull (<[i := PLAYER_X]> b') = false ->
          exists m', findBestMoveMinimax intOfInf fuel (<[i := PLAYER_X]> b')
                     = Ok (Z.of_nat m', <[i := PLAYER_X]> b') /\
                     emptyAt (<[i := PLAYER_X]> b') m')).


(** The invariant of the play: a 3x3 board, no line of the human, and the AI
    has won or the human cannot force a line. *)
Definition Safe (b : Board) : Prop :=
  length b = 9%nat /\ hasLine3 b PLAYER_X = false /\
  (hasLine3 b AI_O = true \/ ~ HumanForces b).


(** ** The N x N checker and the heuristic stages as pure functions *)

Fixpoint allN (k i : nat) (f : nat -> bool) : bool :=
  match k with
  | O => true
  | S k' => f i && allN k' (S i) f
  end.


Fixpoint anyN (k i : nat) (f : nat -> bool) : bool :=
  match k with
  | O => false
  | S k' => f i || anyN k' (S i) f
  end.


(** Some row, some column or one of the two diagonals of the [n] x [n] board
    is all [p]. With [n = 0] the diagonals are empty, hence all [p]. *)
Definition hasLine (b : Board) (p : string) (n : nat) : bool :=
  anyN n 0 (fun r => allN n 0 (fun c => marked b (r * n + c) p)) ||
  anyN n 0 (fun c => allN n 0 (fun r => marked b (r * n + c) p)) ||
  allN n 0 (fun i => marked b (i * n + i) p) ||
  allN n 0 (fun i => marked b (i * n + (n - 1 - i)) p).


(** The first [j] in [i, i + k) with [f j]. *)
Fixpoint findFrom (k i : nat) (f : nat -> bool) : option nat :=
  match k with
  | O => None
  | S k' => if f i then Some i else findFrom k' (S i) f
  end.


(** What one iteration of stages 1 and 2 tests at cell [j]. *)
Definition completesb (b : Board) (mark : string) (N : nat) (j : nat) : bool :=
  marked b j EMPTY && hasLine (<[j := mark]> b) mark N.


(** [completes b mark n j]: cell [j] is free and writing [mark] there gives
    [mark] a line, by the N-scan checker. *)
Definition completes (b : Board) (mark : string) (n : Z) (j : nat) : Prop :=
  emptyAt b j /\ checkWinner (<[j := mark]> b) mark n = Ok true.


(** ** The fixed-size server: [aiMove] and the game logic of [playHandler]

    [aiMove] receives a pointer to the board and writes the board in place.
    Each loop below hands back the board it leaves, together with a flag
    that says whether [aiMove] has executed a [return]. The handler of this
    server does not look at the length of the board. *)

Module FixedServer.

Record GameState := mkGameState {
  gsBoard : Board;
  gsWinner : string
}.

(** Stage 1:
    [for i := 0; i < 9; i++ { if board[i] == "" { board[i] = "O";
       if checkWinner(board, "O") { return }; board[i] = "" } }]. *)
Fixpoint winLoop (k : nat) (i : Z) (board : Board) : Res (bool * Board) :=
  match k with
  | O => Ok (false, board)
  | S k' =>
      let* e := cellIs board i "" in
      if e then
        let* board1 := store board i "O" in
        let* won := Fixed.checkWinner board1 "O" in
        if won then Ok (true, board1)
        else
          let* board2 := store board1 i "" in
          winLoop k' (i + 1) board2
      else winLoop k' (i + 1) board
  end.

(** Stage 2: the same loop with "X"; the cell that would complete a line of
    the human is overwritten with "O". *)
Fixpoint blockLoop (k : nat) (i : Z) (board : Board) : Res (bool * Board) :=
  match k with
  | O => Ok (false, board)
  | S k' =>
      let* e := cellIs board i "" in
      if e then
        let* board1 := store board i "X" in
        let* won := Fixed.checkWinner board1 "X" in
        if won then
          let* board2 := store board1 i "O" in
          Ok (true, board2)
        else
          let* board2 := store board1 i "" in
          blockLoop k' (i + 1) board2
      else blockLoop k' (i + 1) board
  end.

(** Stage 4: the first free corner, in the shuffled order. *)
Fixpoint cornerLoop (corners : list Z) (board : Board) : Res (bool * Board) :=
  match corners with
  | [] => Ok (false, board)
  | corner :: rest =>
      let* e := cellIs board corner "" in
      if e then
        let* board1 := store board corner "O" in
        Ok (true, board1)
      else cornerLoop rest board
  end.

(** Stage 5: the first free cell. *)
Fixpoint anyLoop (k : nat) (i : Z) (board : Board) : Res Board :=
  match k with
  | O => Ok board
  | S k' =>
      let* e := cellIs board i "" in
      if e then store board i "O"
      else anyLoop k' (i + 1) board
  end.

Definition aiMove (rnd : Rand) (board : Board) : Res Board :=
  let* (returned, board1) := winLoop 9 0 board in
  if returned then Ok board1 else
  let* (returned, board2) := blockLoop 9 0 board1 in
  if returned then Ok board2 else
  let* centerFree := cellIs board2 4 "" in
  if centerFree then store board2 4 "O" else
  let corners := shuffle rnd [0; 2; 6; 8] in
  let* (returned, board3) := cornerLoop corners board2 in
  if returned then Ok board3 else
  anyLoop 9 0 board3.

(** The game logic of the handler, from the decoded state to the state it
    encodes. *)
Definition playHandler (rnd : Rand) (currentState : GameState) : Res GameState :=
  let board := gsBoard currentState in
  let* humanWon := Fixed.checkWinner board "X" in
  if humanWon then Ok (mkGameState board "X")
  else if Fixed.isBoardFull board then Ok (mkGameState board "draw")
  else
    let* board' := aiMove rnd board in
    let* aiWon := Fixed.checkWinner board' "O" in
    if aiWon then Ok (mkGameState board' "O")
    else if Fixed.isBoardFull board' then Ok (mkGameState board' "draw")
    else Ok (mkGameState board' (gsWinner currentState)).

End FixedServer.

(** ** Pure readings for the fixed-size server and the checkers *)

(** Cell [j] is free and [mark] written there has one of the eight triples. *)
Definition completes3 (b : Board) (mark : string) (j : nat) : bool :=
  marked b j "" && hasLine3 (<[j := mark]> b) mark.

(** The first free cell among [cs], in the order of [cs]. *)
Fixpoint firstFree (b : Board) (cs : list Z) : option nat :=
  match cs with
  | [] => None
  | c :: rest => if marked b (Z.to_nat c) "" then Some (Z.to_nat c) else firstFree b rest
  end.

(** The cell the fixed-size [aiMove] writes "O" into, if any: a winning
    cell, else a blocking cell, else the centre, else a corner, else the
    first free cell. *)
Definition fixedChoice (rnd : Rand) (b : Board) : option nat :=
  match findFrom 9 0 (completes3 b "O") with
  | Some m => Some m
  | None =>
    match findFrom 9 0 (completes3 b "X") with
    | Some m => Some m
    | None =>
      if marked b 4 "" then Some 4%nat
      else
        match firstFree b (shuffle rnd [0; 2; 6; 8]) with
        | Some m => Some m
        | None => findFrom 9 0 (fun j => marked b j "")
        end
    end
  end.

(** Within the first nine cells, cell [j] is free and [mark] written there
    has a line by the eight-triple checker. *)
Definition completesFixed (b : Board) (mark : string) (j : nat) : Prop :=
  (j < 9)%nat /\ emptyAt b j /\ Fixed.checkWinner (<[j := mark]> b) mark = Ok true.

(** What the fixed-size handler answers on a board of at least nine cells,
    as a function of the board, the winner field of the request and the
    random source. *)
Definition fixedOutcome (rnd : Rand) (b : Board) (w : string) : FixedServer.GameState :=
  if hasLine3 b "X" then FixedServer.mkGameState b "X"
  else if isBoardFull b then FixedServer.mkGameState b "draw"
  else
    let b' := match fixedChoice rnd b with Some m => <[m := "O"]> b | None => b end in
    if hasLine3 b' "O" then FixedServer.mkGameState b' "O"
    else if isBoardFull b' then FixedServer.mkGameState b' "draw"
    else FixedServer.mkGameState b' w.

(** With the human to move on [b], the human brings the fixed-size server
    to report the winner "X", whatever the random source of each request:
    the human marks a free cell and posts the board with no winner; the
    server answers "X", or answers with no winner and a board from which
    the human goes on. *)
Inductive HumanBeats : Board -> Prop :=
| HumanBeats_intro (b : Board) (i : nat) :
    emptyAt b i ->
    (forall rnd, RandOk rnd ->
       exists st',
         FixedServer.playHandler rnd (FixedServer.mkGameState (<[i := PLAYER_X]> b) "")
           = Ok st' /\
         (FixedServer.gsWinner st' = "X" \/ FixedServer.gsWinner st' = "")) ->
    (forall rnd st', RandOk rnd ->
       FixedServer.playHandler rnd (FixedServer.mkGameState (<[i := PLAYER_X]> b) "")
         = Ok st' ->
       FixedServer.gsWinner st' = "" ->
       HumanBeats (FixedServer.gsBoard st')) ->
    HumanBeats b.

(** Some row, some column or one of the two diagonals of the [N] x [N]
    board holds [p] in every cell. *)
Definition Line (b : Board) (p : string) (N : nat) : Prop :=
  (exists r, (r < N)%nat /\ forall c, (c < N)%nat -> b !! (r * N + c)%nat = Some p) \/
  (exists c, (c < N)%nat /\ forall r, (r < N)%nat -> b !! (r * N + c)%nat = Some p) \/
  (forall i, (i < N)%nat -> b !! (i * N + i)%nat = Some p) \/
  (forall i, (i < N)%nat -> b !! (i * N + (N - 1 - i))%nat = Some p).

(** The board with every [p] replaced by [q]. *)
Definition relabel (p q : string) (b : Board) : Board :=
  (fun s => if String.eqb s p then q else s) <$> b.

(* ================================================================= *)
(** * Basic facts *)

(** Small literals of [Z.to_nat], which [simpl] leaves alone. *)
Ltac to_nat_lits :=
  change (Z.to_nat 0) with 0%nat; change (Z.to_nat 1) with 1%nat;
  change (Z.to_nat 2) with 2%nat; change (Z.to_nat 3) with 3%nat;
  change (Z.to_nat 4) with 4%nat; change (Z.to_nat 5) with 5%nat;
  change (Z.to_nat 6) with 6%nat; change (Z.to_nat 7) with 7%nat;
  change (Z.to_nat 8) with 8%nat.

(** The 512 ways nine cells can hold or not hold [p]. *)
Ltac by_cells b p :=
  destruct (marked b 0 p), (marked b 1 p), (marked b 2 p), (marked b 3 p),
    (marked b 4 p), (marked b 5 p), (marked b 6 p), (marked b 7 p),
    (marked b 8 p); reflexivity.

(** Membership in a list given by its elements. *)
Ltac in_list :=
  simpl; first [apply list_elem_of_here | apply list_elem_of_further; in_list].

(** Run [tac] for each of the nine cells [j = 0 .. 8]; [j >= 9] is left. *)
Ltac each_cell j tac := do 9 (destruct j as [|j]; [tac|]).

Lemma wrap64_small z : minInt64 <= z <= maxInt64 -> wrap64 z = z.
Proof.
  unfold wrap64, minInt64, maxInt64. intros H.
  rewrite Z.mod_small; lia.
Qed.

Lemma wrap64_range z : minInt64 <= wrap64 z <= maxInt64.
Proof.
  unfold wrap64, minInt64, maxInt64.
  pose proof (Z.mod_pos_bound (z + 2 ^ 63) (2 ^ 64) ltac:(lia)). lia.
Qed.

Lemma index_nat (b : Board) (j : nat) :
  index b (Z.of_nat j) = match b !! j with Some s => Ok s | None => Panic end.
Proof.
  unfold index. destruct (Z.ltb_spec (Z.of_nat j) 0); [lia|].
  by rewrite Nat2Z.id.
Qed.

Lemma store_nat (b : Board) (j : nat) (v : string) :
  store b (Z.of_nat j) v =
  match b !! j with Some _ => Ok (<[j := v]> b) | None => Panic end.
Proof.
  unfold store. destruct (Z.ltb_spec (Z.of_nat j) 0); [lia|].
  by rewrite Nat2Z.id.
Qed.

Lemma cellIs_nat (b : Board) (j : nat) (p : string) :
  cellIs b (Z.of_nat j) p =
  match b !! j with Some s => Ok (String.eqb s p) | None => Panic end.
Proof. unfold cellIs. rewrite index_nat. by destruct (b !! j). Qed.

Lemma cellIs_marked (b : Board) (i : Z) (p : string) :
  0 <= i < Z.of_nat (length b) -> cellIs b i p = Ok (marked b (Z.to_nat i) p).
Proof.
  intros Hi. unfold cellIs, index, marked.
  destruct (Z.ltb_spec i 0); [lia|].
  destruct (lookup_lt_is_Some_2 b (Z.to_nat i)) as [s Hs]; [lia|].
  by rewrite Hs.
Qed.

Lemma minimaxWinChecker_hasLine3 (b : Board) (p : string) :
  length b = 9%nat -> minimaxWinChecker b p = Ok (hasLine3 b p).
Proof.
  intros Hlen. unfold minimaxWinChecker, hasLine3.
  rewrite !cellIs_marked by lia.
  to_nat_lits. by_cells b p.
Qed.

(** ** Empty cells *)

Lemma marked_Some (b : Board) (j : nat) (s p : string) :
  b !! j = Some s -> marked b j p = String.eqb s p.
Proof. unfold marked. by intros ->. Qed.

Lemma marked_empty_iff (b : Board) (j : nat) :
  marked b j EMPTY = true <-> emptyAt b j.
Proof.
  unfold marked, emptyAt. destruct (b !! j) as [s|]; [|done].
  rewrite String.eqb_eq. split; [by intros ->|by intros [= ->]].
Qed.

Lemma isBoardFull_false_iff (b : Board) :
  isBoardFull b = false <-> exists j, emptyAt b j.
Proof.
  unfold emptyAt. induction b as [|c b IH]; simpl.
  - split; [done|]. by intros [j Hj].
  - destruct (String.eqb_spec c EMPTY) as [->|Hc].
    + split; [|done]. intros _. by exists 0%nat.
    + rewrite IH. split.
      * intros [j Hj]. by exists (S j).
      * intros [[|j] Hj]; simpl in Hj; [by inversion Hj|by exists j].
Qed.

Lemma isBoardFull_true_iff (b : Board) :
  isBoardFull b = true <-> forall j, ~ emptyAt b j.
Proof.
  destruct (isBoardFull b) eqn:E.
  - split; [|done]. intros _ j Hj.
    assert (isBoardFull b = false) by (apply isBoardFull_false_iff; eauto).
    congruence.
  - apply isBoardFull_false_iff in E as [j Hj].
    split; [done|]. intros H. by destruct (H j).
Qed.

Lemma emptyCount_zero_iff (b : Board) :
  emptyCount b = 0%nat <-> isBoardFull b = true.
Proof.
  induction b as [|c b IH]; simpl; [done|].
  destruct (String.eqb c EMPTY); [done|apply IH].
Qed.

Lemma emptyCount_le_length (b : Board) : (emptyCount b <= length b)%nat.
Proof.
  induction b as [|c b IH]; simpl; [lia|].
  destruct (String.eqb c EMPTY); lia.
Qed.

Lemma emptyCount_insert (b : Board) (j : nat) (q : string) :
  emptyAt b j -> String.eqb q EMPTY = false ->
  S (emptyCount (<[j := q]> b)) = emptyCount b.
Proof.
  unfold emptyAt. revert j. induction b as [|c b IH]; intros j Hj Hq; [done|].
  destruct j as [|j]; simpl in *.
  - injection Hj as ->. by rewrite Hq.
  - destruct (String.eqb c EMPTY); rewrite <- (IH j Hj Hq); done.
Qed.

(** ** Lines and single-cell updates *)

Lemma marked_insert_eq (b : Board) (j : nat) (q p : string) :
  (j < length b)%nat -> marked (<[j := q]> b) j p = String.eqb q p.
Proof. intros Hj. unfold marked. by rewrite list_lookup_insert_eq. Qed.

Lemma marked_insert_ne (b : Board) (i j : nat) (q p : string) :
  i <> j -> marked (<[i := q]> b) j p = marked b j p.
Proof. intros Hij. unfold marked. by rewrite list_lookup_insert_ne. Qed.

(** Writing [q] over a cell that did not hold [p] cannot complete or break a
    line of [p], when [q] is not [p] either. *)
Lemma marked_insert_other (b : Board) (i j : nat) (q p : string) :
  marked b i p = false -> String.eqb q p = false ->
  marked (<[i := q]> b) j p = marked b j p.
Proof.
  intros Hi Hq. destruct (decide (i = j)) as [->|Hij].
  - rewrite Hi. unfold marked in *.
    destruct (b !! j) as [s|] eqn:E.
    + rewrite list_lookup_insert_eq; [done|]. by eapply lookup_lt_Some.
    + rewrite list_insert_ge; [by rewrite E|]. by apply lookup_ge_None.
  - by apply marked_insert_ne.
Qed.

Lemma hasLine3_insert_other (b : Board) (i : nat) (q p : string) :
  marked b i p = false -> String.eqb q p = false ->
  hasLine3 (<[i := q]> b) p = hasLine3 b p.
Proof.
  intros Hi Hq. unfold hasLine3.
  by rewrite !(marked_insert_other b i _ q p Hi Hq).
Qed.

Lemma emptyAt_not_marked (b : Board) (i : nat) (p : string) :
  emptyAt b i -> String.eqb EMPTY p = false -> marked b i p = false.
Proof. unfold emptyAt, marked. by intros ->. Qed.

(** ** The loops of the search are folds, and the board comes back *)

Lemma store_empty_back (b : Board) (j : nat) (mark : string) :
  emptyAt b j -> store (<[j := mark]> b) (Z.of_nat j) EMPTY = Ok b.
Proof.
  intros Hj. rewrite store_nat.
  rewrite list_lookup_insert_eq by (by eapply lookup_lt_Some).
  by rewrite list_insert_insert_eq, list_insert_id.
Qed.

Lemma searchLoop_spec (rec : Board -> Res (Z * Board)) (mark : string)
    (pick : Z -> Z -> Z) (cv : nat -> Z) (b : Board) (k i : nat) (best : Z) :
  (i + k <= length b)%nat ->
  (forall j, (i <= j < i + k)%nat -> emptyAt b j ->
             rec (<[j := mark]> b) = Ok (cv j, <[j := mark]> b)) ->
  searchLoop rec mark pick k (Z.of_nat i) best b
  = Ok (foldCells cv pick b (seq i k) best, b).
Proof.
  revert i best. induction k as [|k IH]; intros i best Hlen Hrec; [done|].
  simpl searchLoop. rewrite cellIs_nat.
  destruct (lookup_lt_is_Some_2 b i) as [s Hs]; [lia|]. rewrite Hs.
  unfold rbind at 1. unfold foldCells. simpl seq. simpl fold_left.
  rewrite (marked_Some _ _ _ _ Hs).
  replace (Z.of_nat i + 1) with (Z.of_nat (S i)) by lia.
  destruct (String.eqb_spec s EMPTY) as [->|Hne].
  - rewrite store_nat, Hs. unfold rbind at 1.
    rewrite (Hrec i) by (done || lia). unfold rbind at 1.
    rewrite store_empty_back by done. unfold rbind at 1.
    apply IH; [lia|]. intros j Hj. apply Hrec. lia.
  - apply IH; [lia|]. intros j Hj. apply Hrec. lia.
Qed.

Lemma minimax_S (intOfInf : Z) (fuel : nat) (board : Board) (depth : Z)
    (isMaximizing : bool) :
  minimax intOfInf (S fuel) board depth isMaximizing =
  (let* aiWon := minimaxWinChecker board AI_O in
   if aiWon then Ok (10 - depth, board) else
   let* humanWon := minimaxWinChecker board PLAYER_X in
   if humanWon then Ok (depth - 10, board) else
   if isBoardFull board then Ok (0, board) else
   if isMaximizing then
     searchLoop (fun b => minimax intOfInf fuel b (depth + 1) false) AI_O goMax
                9 0 (neg64 intOfInf) board
   else
     searchLoop (fun b => minimax intOfInf fuel b (depth + 1) true) PLAYER_X goMin
                9 0 intOfInf board).
Proof. reflexivity. Qed.

Lemma value_S (intOfInf : Z) (fuel : nat) (b : Board) (depth : Z)
    (isMaximizing : bool) :
  value intOfInf (S fuel) b depth isMaximizing =
  if hasLine3 b AI_O then 10 - depth
  else if hasLine3 b PLAYER_X then depth - 10
  else if isBoardFull b then 0
  else if isMaximizing then
    foldCells (fun j => value intOfInf fuel (<[j := AI_O]> b) (depth + 1) false) goMax
              b (seq 0 9) (neg64 intOfInf)
  else
    foldCells (fun j => value intOfInf fuel (<[j := PLAYER_X]> b) (depth + 1) true) goMin
              b (seq 0 9) intOfInf.
Proof. reflexivity. Qed.

Lemma minimax_value (intOfInf : Z) (fuel : nat) (b : Board) (depth : Z)
    (isMaximizing : bool) :
  length b = 9%nat -> (emptyCount b < fuel)%nat ->
  minimax intOfInf fuel b depth isMaximizing
  = Ok (value intOfInf fuel b depth isMaximizing, b).
Proof.
  revert b depth isMaximizing.
  induction fuel as [|fuel IH]; intros b depth isMax Hlen Hfuel; [lia|].
  rewrite minimax_S, value_S.
  rewrite !minimaxWinChecker_hasLine3 by done. unfold rbind.
  destruct (hasLine3 b AI_O); [done|].
  destruct (hasLine3 b PLAYER_X); [done|].
  destruct (isBoardFull b); [done|].
  destruct isMax.
  - change 0 with (Z.of_nat 0) at 1. apply searchLoop_spec; [lia|].
    intros j _ Hj. apply IH; [by rewrite length_insert|].
    pose proof (emptyCount_insert b j AI_O Hj eq_refl). lia.
  - change 0 with (Z.of_nat 0) at 1. apply searchLoop_spec; [lia|].
    intros j _ Hj. apply IH; [by rewrite length_insert|].
    pose proof (emptyCount_insert b j PLAYER_X Hj eq_refl). lia.
Qed.

Lemma rootFold_cons (cv : nat -> Z) (b : Board) (j : nat) (js : list nat) (st : Z * Z) :
  rootFold cv b (j :: js) st = rootFold cv b js (rootStep cv b st j).
Proof. reflexivity. Qed.

Lemma rootLoop_spec (intOfInf : Z) (fuel : nat) (b : Board) (k i : nat)
    (bestVal bestMove : Z) :
  length b = 9%nat -> (emptyCount b <= fuel)%nat -> (i + k <= 9)%nat ->
  rootLoop intOfInf fuel k (Z.of_nat i) bestVal bestMove b
  = Ok (snd (rootFold (fun j => value intOfInf fuel (<[j := AI_O]> b) 0 false) b
                      (seq i k) (bestVal, bestMove)), b).
Proof.
  intros Hlen Hfuel. revert i bestVal bestMove.
  induction k as [|k IH]; intros i bestVal bestMove Hik; [done|].
  simpl rootLoop. rewrite cellIs_nat.
  destruct (lookup_lt_is_Some_2 b i) as [s Hs]; [lia|]. rewrite Hs.
  unfold rbind at 1. simpl seq. rewrite rootFold_cons.
  unfold rootStep at 1. rewrite (marked_Some _ _ _ _ Hs).
  replace (Z.of_nat i + 1) with (Z.of_nat (S i)) by lia.
  destruct (String.eqb_spec s EMPTY) as [->|Hne].
  - rewrite store_nat, Hs. unfold rbind at 1.
    rewrite minimax_value; [|by rewrite length_insert|].
    2:{ pose proof (emptyCount_insert b i AI_O Hs eq_refl). lia. }
    unfold rbind at 1. rewrite store_empty_back by done. unfold rbind at 1.
    simpl fst.
    destruct (_ >? bestVal); apply IH; lia.
  - apply IH; lia.
Qed.

(** ** Folds of [max] and [min] over the free cells *)

Lemma goMax_max (a b : Z) : goMax a b = Z.max a b.
Proof. unfold goMax. destruct (Z.gtb_spec a b); lia. Qed.

Lemma goMin_min (a b : Z) : goMin a b = Z.min a b.
Proof. unfold goMin. destruct (Z.ltb_spec a b); lia. Qed.

Lemma foldCells_cons (cv : nat -> Z) (pick : Z -> Z -> Z) (b : Board)
    (j : nat) (js : list nat) (best : Z) :
  foldCells cv pick b (j :: js) best
  = foldCells cv pick b js (if marked b j EMPTY then pick best (cv j) else best).
Proof. reflexivity. Qed.

Lemma foldCells_max_lt (cv : nat -> Z) (b : Board) (js : list nat) (best t : Z) :
  foldCells cv goMax b js best < t <->
  best < t /\ forall j, j ∈ js -> emptyAt b j -> cv j < t.
Proof.
  revert best. induction js as [|j js IH]; intros best.
  - simpl. split; [|tauto]. intros H. split; [done|]. intros j Hj. by inversion Hj.
  - rewrite foldCells_cons, IH. setoid_rewrite elem_of_cons.
    destruct (marked b j EMPTY) eqn:E.
    + apply marked_empty_iff in E. rewrite goMax_max. split.
      * intros [H1 H2]. split; [lia|]. intros j' [->|Hj'] He; [lia|eauto].
      * intros [H1 H2]. split; [|eauto]. specialize (H2 j (or_introl eq_refl) E). lia.
    + assert (~ emptyAt b j) by (rewrite <- marked_empty_iff; congruence).
      split.
      * intros [H1 H2]. split; [done|]. intros j' [->|Hj'] He; [done|eauto].
      * intros [H1 H2]. split; [done|eauto].
Qed.

Lemma foldCells_max_le (cv : nat -> Z) (b : Board) (js : list nat) (best t : Z) :
  foldCells cv goMax b js best <= t <->
  best <= t /\ forall j, j ∈ js -> emptyAt b j -> cv j <= t.
Proof.
  pose proof (foldCells_max_lt cv b js best (t + 1)) as H.
  split.
  - intros Hle. destruct H as [H _]. destruct H as [H1 H2]; [lia|].
    split; [lia|]. intros j Hj He. specialize (H2 j Hj He). lia.
  - intros [H1 H2]. destruct H as [_ H]. cut (foldCells cv goMax b js best < t + 1); [lia|].
    apply H. split; [lia|]. intros j Hj He. specialize (H2 j Hj He). lia.
Qed.

Lemma foldCells_min_lt (cv : nat -> Z) (b : Board) (js : list nat) (best t : Z) :
  foldCells cv goMin b js best < t <->
  best < t \/ exists j, j ∈ js /\ emptyAt b j /\ cv j < t.
Proof.
  revert best. induction js as [|j js IH]; intros best.
  - simpl. split; [tauto|]. intros [H|(j & Hj & _)]; [done|by inversion Hj].
  - rewrite foldCells_cons, IH. setoid_rewrite elem_of_cons.
    destruct (marked b j EMPTY) eqn:E.
    + apply marked_empty_iff in E. rewrite goMin_min. split.
      * intros [H|(j' & Hj' & He & Hlt)]; [|right; eauto].
        destruct (Z.lt_ge_cases best t); [by left|].
        right. exists j. split; [by left|]. split; [done|lia].
      * intros [H|(j' & [->|Hj'] & He & Hlt)]; [left; lia|left; lia|right; eauto].
    + assert (~ emptyAt b j) by (rewrite <- marked_empty_iff; congruence).
      split.
      * intros [H1|(j' & Hj' & He & Hlt)]; [by left|right; eauto].
      * intros [H1|(j' & [->|Hj'] & He & Hlt)]; [by left|done|right; eauto].
Qed.

Lemma foldCells_min_ge (cv : nat -> Z) (b : Board) (js : list nat) (best t : Z) :
  t <= foldCells cv goMin b js best <->
  t <= best /\ forall j, j ∈ js -> emptyAt b j -> t <= cv j.
Proof.
  pose proof (foldCells_min_lt cv b js best t) as H. split.
  - intros Hge. split.
    + destruct (Z.lt_ge_cases best t); [|done]. destruct H as [_ H].
      specialize (H (or_introl ltac:(done))). lia.
    + intros j Hj He. destruct (Z.lt_ge_cases (cv j) t); [|lia]. destruct H as [_ H].
      assert (foldCells cv goMin b js best < t) by (apply H; right; eauto). lia.
  - intros [H1 H2]. destruct (Z.lt_ge_cases (foldCells cv goMin b js best) t) as [Hlt|]; [|lia].
    apply H in Hlt as [Hlt|(j & Hj & He & Hlt)]; [lia|].
    specialize (H2 j Hj He). lia.
Qed.

Lemma foldCells_max_ge_child (cv : nat -> Z) (b : Board) (js : list nat) (best : Z) (j : nat) :
  j ∈ js -> emptyAt b j -> cv j <= foldCells cv goMax b js best.
Proof.
  intros Hj He.
  destruct (Z.lt_ge_cases (foldCells cv goMax b js best) (cv j)) as [Hlt|]; [|lia].
  apply foldCells_max_lt in Hlt as [_ Hlt]. specialize (Hlt j Hj He). lia.
Qed.

Lemma foldCells_min_le_child (cv : nat -> Z) (b : Board) (js : list nat) (best : Z) (j : nat) :
  j ∈ js -> emptyAt b j -> foldCells cv goMin b js best <= cv j.
Proof.
  intros Hj He.
  pose proof (foldCells_min_ge cv b js best (foldCells cv goMin b js best)) as [H _].
  destruct H as [_ H]; [lia|]. by apply H.
Qed.

Lemma emptyAt_lt (b : Board) (j : nat) : emptyAt b j -> (j < length b)%nat.
Proof. intros Hj. by eapply lookup_lt_Some. Qed.

Lemma emptyAt_in_seq9 (b : Board) (j : nat) :
  length b = 9%nat -> emptyAt b j -> j ∈ seq 0 9.
Proof. intros Hlen Hj. apply emptyAt_lt in Hj. apply elem_of_seq. lia. Qed.

(** ** Where the conversion of infinity is a large positive integer *)

Lemma neg64_saturates (intOfInf : Z) :
  saturates intOfInf -> neg64 intOfInf = - intOfInf.
Proof.
  unfold saturates, neg64, maxInt64. intros H.
  apply wrap64_small. unfold minInt64, maxInt64. lia.
Qed.

Lemma value_range (intOfInf : Z) (fuel : nat) (b : Board) (depth : Z) (isMaximizing : bool) :
  saturates intOfInf -> length b = 9%nat -> 0 <= depth ->
  depth + Z.of_nat (emptyCount b) <= 9 -> (emptyCount b < fuel)%nat ->
  depth - 10 <= value intOfInf fuel b depth isMaximizing <= 10 - depth.
Proof.
  intros Hinf. pose proof Hinf as Hinf'. unfold saturates in Hinf'.
  revert b depth isMaximizing.
  induction fuel as [|fuel IH]; intros b depth isMax Hlen Hd Hdepth Hfuel; [lia|].
  rewrite value_S.
  destruct (hasLine3 b AI_O); [lia|].
  destruct (hasLine3 b PLAYER_X); [lia|].
  destruct (isBoardFull b) eqn:Hfull; [lia|].
  apply isBoardFull_false_iff in Hfull as [j0 Hj0].
  assert (Hchild : forall j mark m, emptyAt b j -> String.eqb mark EMPTY = false ->
            depth + 1 - 10 <= value intOfInf fuel (<[j := mark]> b) (depth + 1) m
            <= 10 - (depth + 1)).
  { intros j mark m Hj Hmark. pose proof (emptyCount_insert b j mark Hj Hmark).
    apply IH; [by rewrite length_insert|lia..]. }
  destruct isMax.
  - split.
    + pose proof (foldCells_max_ge_child
        (fun j => value intOfInf fuel (<[j := AI_O]> b) (depth + 1) false)
        b (seq 0 9) (neg64 intOfInf) j0 (emptyAt_in_seq9 _ _ Hlen Hj0) Hj0) as H.
      cbv beta in H. specialize (Hchild j0 AI_O false Hj0 eq_refl). lia.
    + apply foldCells_max_le. rewrite neg64_saturates by done. split; [lia|].
      intros j _ Hj. specialize (Hchild j AI_O false Hj eq_refl). lia.
  - split.
    + apply foldCells_min_ge. split; [lia|].
      intros j _ Hj. specialize (Hchild j PLAYER_X true Hj eq_refl). lia.
    + pose proof (foldCells_min_le_child
        (fun j => value intOfInf fuel (<[j := PLAYER_X]> b) (depth + 1) true)
        b (seq 0 9) intOfInf j0 (emptyAt_in_seq9 _ _ Hlen Hj0) Hj0) as H.
      cbv beta in H. specialize (Hchild j0 PLAYER_X true Hj0 eq_refl). lia.
Qed.

(** ** The root loop keeps the first maximum *)

Lemma rootFold_seq (cv : nat -> Z) (b : Board) (k i : nat) (v0 m0 : Z) :
  (rootFold cv b (seq i k) (v0, m0) = (v0, m0) /\
   forall j, (i <= j < i + k)%nat -> emptyAt b j -> cv j <= v0)
  \/
  (exists j, (i <= j < i + k)%nat /\ emptyAt b j /\
     rootFold cv b (seq i k) (v0, m0) = (cv j, Z.of_nat j) /\
     v0 < cv j /\
     (forall j', (i <= j' < i + k)%nat -> emptyAt b j' -> cv j' <= cv j) /\
     (forall j', (i <= j' < j)%nat -> emptyAt b j' -> cv j' < cv j)).
Proof.
  revert i v0 m0. induction k as [|k IH]; intros i v0 m0.
  { left. split; [done|]. intros j Hj. lia. }
  simpl seq. rewrite rootFold_cons. unfold rootStep. simpl fst.
  destruct (marked b i EMPTY) eqn:Ei.
  - apply marked_empty_iff in Ei.
    destruct (Z.gtb_spec (cv i) v0) as [Hgt|Hle].
    + right.
      destruct (IH (S i) (cv i) (Z.of_nat i))
        as [[Hr Hall]|(j & Hj & He & Hr & Hlt & Hall & Hfirst)].
      * exists i. rewrite Hr.
        split; [lia|]. split; [done|]. split; [done|]. split; [lia|]. split.
        -- intros j' Hj' He'. destruct (decide (j' = i)) as [->|]; [lia|].
           apply Hall; [lia|done].
        -- intros j' Hj'. lia.
      * exists j. rewrite Hr.
        split; [lia|]. split; [done|]. split; [done|]. split; [lia|]. split.
        -- intros j' Hj' He'. destruct (decide (j' = i)) as [->|]; [lia|].
           apply Hall; [lia|done].
        -- intros j' Hj' He'. destruct (decide (j' = i)) as [->|]; [lia|].
           apply Hfirst; [lia|done].
    + destruct (IH (S i) v0 m0)
        as [[Hr Hall]|(j & Hj & He & Hr & Hlt & Hall & Hfirst)].
      * left. split; [done|]. intros j' Hj' He'.
        destruct (decide (j' = i)) as [->|]; [lia|]. apply Hall; [lia|done].
      * right. exists j. rewrite Hr.
        split; [lia|]. split; [done|]. split; [done|]. split; [lia|]. split.
        -- intros j' Hj' He'. destruct (decide (j' = i)) as [->|]; [lia|].
           apply Hall; [lia|done].
        -- intros j' Hj' He'. destruct (decide (j' = i)) as [->|]; [lia|].
           apply Hfirst; [lia|done].
  - assert (Hne : ~ emptyAt b i) by (rewrite <- marked_empty_iff; congruence).
    destruct (IH (S i) v0 m0)
      as [[Hr Hall]|(j & Hj & He & Hr & Hlt & Hall & Hfirst)].
    + left. split; [done|]. intros j' Hj' He'.
      destruct (decide (j' = i)) as [->|]; [done|]. apply Hall; [lia|done].
    + right. exists j. rewrite Hr.
      split; [lia|]. split; [done|]. split; [done|]. split; [lia|]. split.
      * intros j' Hj' He'. destruct (decide (j' = i)) as [->|]; [done|].
        apply Hall; [lia|done].
      * intros j' Hj' He'. destruct (decide (j' = i)) as [->|]; [done|].
        apply Hfirst; [lia|done].
Qed.

Lemma score_minimax (intOfInf : Z) (fuel : nat) (b : Board) (j : nat) :
  length b = 9%nat -> (10 <= fuel)%nat -> emptyAt b j ->
  minimax intOfInf fuel (<[j := AI_O]> b) 0 false
  = Ok (score intOfInf fuel b j, <[j := AI_O]> b).
Proof.
  intros Hlen Hfuel Hj. apply minimax_value; [by rewrite length_insert|].
  pose proof (emptyCount_insert b j AI_O Hj eq_refl).
  pose proof (emptyCount_le_length b). lia.
Qed.

(** For every value of the conversion: the selector returns, the board is the
    one it was given, and the move is [-1] or a free cell. *)
Lemma findBestMoveMinimax_total (intOfInf : Z) (fuel : nat) (b : Board) :
  length b = 9%nat -> (10 <= fuel)%nat ->
  exists m, findBestMoveMinimax intOfInf fuel b = Ok (m, b) /\
            (m = -1 \/ exists j, m = Z.of_nat j /\ emptyAt b j).
Proof.
  intros Hlen Hfuel. unfold findBestMoveMinimax.
  change 0 with (Z.of_nat 0) at 1.
  rewrite rootLoop_spec; [|done| |lia].
  2:{ pose proof (emptyCount_le_length b). lia. }
  destruct (rootFold_seq (fun j => value intOfInf fuel (<[j := AI_O]> b) 0 false)
              b 9 0 (neg64 intOfInf) (-1))
    as [[Hr _]|(j & Hj & He & Hr & _)]; rewrite Hr; simpl snd.
  - exists (-1). split; [done|by left].
  - exists (Z.of_nat j). split; [done|]. right. by exists j.
Qed.

(** Where the conversion saturates: the selector returns the first free cell
    of maximal score. *)
Lemma findBestMoveMinimax_argmax (intOfInf : Z) (fuel : nat) (b : Board) :
  saturates intOfInf -> length b = 9%nat -> (10 <= fuel)%nat ->
  isBoardFull b = false ->
  exists m, findBestMoveMinimax intOfInf fuel b = Ok (Z.of_nat m, b) /\
            emptyAt b m /\
            (forall j, emptyAt b j -> score intOfInf fuel b j <= score intOfInf fuel b m) /\
            (forall j, (j < m)%nat -> emptyAt b j ->
                       score intOfInf fuel b j < score intOfInf fuel b m).
Proof.
  intros Hinf Hlen Hfuel Hfull. unfold findBestMoveMinimax.
  change 0 with (Z.of_nat 0) at 1.
  pose proof (emptyCount_le_length b) as Hec.
  rewrite rootLoop_spec; [|done|lia|lia].
  fold (score intOfInf fuel b).
  destruct (rootFold_seq (score intOfInf fuel b) b 9 0 (neg64 intOfInf) (-1))
    as [[_ Hall]|(j & Hj & He & Hr & _ & Hall & Hfirst)].
  - exfalso. apply isBoardFull_false_iff in Hfull as [j Hj].
    pose proof (emptyAt_lt _ _ Hj). specialize (Hall j ltac:(lia) Hj).
    rewrite neg64_saturates in Hall by done.
    pose proof (emptyCount_insert b j AI_O Hj eq_refl).
    pose proof (value_range intOfInf fuel (<[j := AI_O]> b) 0 false Hinf
                  ltac:(by rewrite length_insert) ltac:(lia) ltac:(lia) ltac:(lia)).
    unfold score, saturates in *. lia.
  - exists j. rewrite Hr. simpl snd. repeat split; [done| |].
    + intros j' Hj'. pose proof (emptyAt_lt _ _ Hj'). apply Hall; [lia|done].
    + intros j' Hlt Hj'. apply Hfirst; [lia|done].
Qed.

(** ** The sign of the score is the outcome of the game *)

Lemma wins_hasLine3 (b : Board) (p : string) :
  length b = 9%nat -> wins b p <-> hasLine3 b p = true.
Proof.
  intros Hlen. unfold wins. rewrite minimaxWinChecker_hasLine3 by done.
  split; [by intros [= ->]|by intros ->].
Qed.

Lemma not_wins_hasLine3 (b : Board) (p : string) :
  length b = 9%nat -> ~ wins b p <-> hasLine3 b p = false.
Proof.
  intros Hlen. rewrite wins_hasLine3 by done. by destruct (hasLine3 b p).
Qed.

Lemma hasLine3_insert_empty (b : Board) (j : nat) (q p : string) :
  emptyAt b j -> String.eqb EMPTY p = false -> String.eqb q p = false ->
  hasLine3 (<[j := q]> b) p = hasLine3 b p.
Proof.
  intros Hj Hp Hq. apply hasLine3_insert_other; [|done].
  by apply emptyAt_not_marked.
Qed.

Lemma value_sign (intOfInf : Z) (fuel : nat) :
  saturates intOfInf ->
  forall (b : Board) (depth : Z),
    length b = 9%nat -> 0 <= depth ->
    depth + Z.of_nat (emptyCount b) <= 9 -> (emptyCount b < fuel)%nat ->
    (hasLine3 b PLAYER_X = false ->
       (value intOfInf fuel b depth false < 0 <->
        hasLine3 b AI_O = false /\ HumanForces b))
    /\
    (hasLine3 b AI_O = false ->
       (value intOfInf fuel b depth true < 0 <->
        hasLine3 b PLAYER_X = true \/
        (isBoardFull b = false /\
         forall j, emptyAt b j ->
           hasLine3 (<[j := AI_O]> b) AI_O = false /\ HumanForces (<[j := AI_O]> b)))).
Proof.
  intros Hinf. pose proof Hinf as Hinf'. unfold saturates in Hinf'.
  induction fuel as [|fuel IH]; intros b depth Hlen Hd Hdepth Hfuel; [lia|].
  assert (Hkid : forall j mark, emptyAt b j -> String.eqb mark EMPTY = false ->
            length (<[j := mark]> b) = 9%nat /\ 0 <= depth + 1 /\
            depth + 1 + Z.of_nat (emptyCount (<[j := mark]> b)) <= 9 /\
            (emptyCount (<[j := mark]> b) < fuel)%nat).
  { intros j mark Hj Hmark. pose proof (emptyCount_insert b j mark Hj Hmark).
    rewrite length_insert. lia. }
  split.
  - (* the human to move *)
    intros HX. rewrite value_S, HX.
    destruct (hasLine3 b AI_O) eqn:HO.
    { split; [lia|]. by intros [? _]. }
    destruct (isBoardFull b) eqn:Hfull.
    { split; [lia|]. intros [_ HF].
      pose proof (proj1 (isBoardFull_true_iff b) Hfull) as Hnone.
      inversion HF; subst; by destruct (Hnone i). }
    rewrite foldCells_min_lt. split.
    + intros [?|(j & _ & Hj & Hlt)]; [lia|]. split; [done|].
      destruct (Hkid j PLAYER_X Hj eq_refl) as (K1 & K2 & K3 & K4).
      destruct (IH _ _ K1 K2 K3 K4) as [_ IHmax].
      apply IHmax in Hlt; [|by rewrite hasLine3_insert_empty].
      destruct Hlt as [Hwin|[Hnf Hall]].
      * eapply HF_now; [done|]. by apply wins_hasLine3.
      * eapply HF_later; [done|done| |].
        -- intros j' Hj'. apply not_wins_hasLine3; [by rewrite !length_insert|].
           by apply Hall.
        -- intros j' Hj'. by apply Hall.
    + intros [_ HF]. right. inversion HF as [b0 i Hi Hwin|b0 i Hi Hnf Hnw Hall]; subst.
      * exists i. split; [by apply (emptyAt_in_seq9 b)|]. split; [done|].
        destruct (Hkid i PLAYER_X Hi eq_refl) as (K1 & K2 & K3 & K4).
        destruct (IH _ _ K1 K2 K3 K4) as [_ IHmax].
        apply IHmax; [by rewrite hasLine3_insert_empty|].
        left. by apply wins_hasLine3.
      * exists i. split; [by apply (emptyAt_in_seq9 b)|]. split; [done|].
        destruct (Hkid i PLAYER_X Hi eq_refl) as (K1 & K2 & K3 & K4).
        destruct (IH _ _ K1 K2 K3 K4) as [_ IHmax].
        apply IHmax; [by rewrite hasLine3_insert_empty|].
        right. split; [done|]. intros j Hj. split; [|by apply Hall].
        apply not_wins_hasLine3; [by rewrite !length_insert|]. by apply Hnw.
  - (* the AI to move *)
    intros HO. rewrite value_S, HO.
    destruct (hasLine3 b PLAYER_X) eqn:HX.
    { split; [by left|lia]. }
    destruct (isBoardFull b) eqn:Hfull.
    { split; [lia|]. by intros [?|[? _]]. }
    rewrite foldCells_max_lt, neg64_saturates by done. split.
    + intros [_ Hall]. right. split; [done|]. intros j Hj.
      destruct (Hkid j AI_O Hj eq_refl) as (K1 & K2 & K3 & K4).
      destruct (IH _ _ K1 K2 K3 K4) as [IHmin _].
      apply IHmin; [by rewrite hasLine3_insert_empty|].
      apply Hall; [by apply (emptyAt_in_seq9 b)|done].
    + intros [?|[_ Hall]]; [done|]. split; [lia|]. intros j _ Hj.
      destruct (Hkid j AI_O Hj eq_refl) as (K1 & K2 & K3 & K4).
      destruct (IH _ _ K1 K2 K3 K4) as [IHmin _].
      apply IHmin; [by rewrite hasLine3_insert_empty|]. by apply Hall.
Qed.

(** ** The selector never loses a game that is not lost already *)

Lemma selector_safe (intOfInf : Z) (fuel : nat) (b : Board) :
  saturates intOfInf -> (10 <= fuel)%nat -> length b = 9%nat ->
  isBoardFull b = false -> hasLine3 b PLAYER_X = false -> ~ AlreadyLost b ->
  exists m, findBestMoveMinimax intOfInf fuel b = Ok (Z.of_nat m, b) /\
            emptyAt b m /\ Safe (<[m := AI_O]> b).
Proof.
  intros Hinf Hfuel Hlen Hfull HX Hlost.
  destruct (findBestMoveMinimax_argmax intOfInf fuel b Hinf Hlen Hfuel Hfull)
    as (m & Hsel & Hm & Hmax & _).
  exists m. split; [done|]. split; [done|].
  assert (Hsign : forall j, emptyAt b j ->
            (score intOfInf fuel b j < 0 <->
             hasLine3 (<[j := AI_O]> b) AI_O = false /\ HumanForces (<[j := AI_O]> b))).
  { intros j Hj. pose proof (emptyCount_insert b j AI_O Hj eq_refl).
    pose proof (emptyCount_le_length b).
    apply (value_sign intOfInf fuel Hinf (<[j := AI_O]> b) 0);
      [by rewrite length_insert|lia|lia|lia|by rewrite hasLine3_insert_empty]. }
  split; [by rewrite length_insert|]. split; [by rewrite hasLine3_insert_empty|].
  destruct (Z.lt_ge_cases (score intOfInf fuel b m) 0) as [Hneg|Hpos].
  - exfalso. apply Hlost. intros j Hj.
    destruct (proj1 (Hsign j Hj)) as [H1 H2]; [specialize (Hmax j Hj); lia|].
    split; [|done]. apply not_wins_hasLine3; [by rewrite length_insert|done].
  - destruct (hasLine3 (<[m := AI_O]> b) AI_O) eqn:HO; [by left|right].
    intros HF. assert (score intOfInf fuel b m < 0); [|lia].
    by apply Hsign.
Qed.

Lemma Safe_human_move (b : Board) (i : nat) :
  Safe b -> hasLine3 b AI_O = false -> emptyAt b i ->
  hasLine3 (<[i := PLAYER_X]> b) PLAYER_X = false /\
  (isBoardFull (<[i := PLAYER_X]> b) = false -> ~ AlreadyLost (<[i := PLAYER_X]> b)).
Proof.
  intros (Hlen & HX & [HO|HF]) HO' Hi; [congruence|]. split.
  - destruct (hasLine3 (<[i := PLAYER_X]> b) PLAYER_X) eqn:E; [|done].
    exfalso. apply HF. eapply HF_now; [done|].
    apply wins_hasLine3; [by rewrite length_insert|done].
  - intros Hfull Hlost. apply HF. eapply HF_later; [done|done| |].
    + intros j Hj. by apply Hlost.
    + intros j Hj. by apply Hlost.
Qed.

Lemma Safe_round (intOfInf : Z) (fuel : nat) (b b' : Board) :
  saturates intOfInf -> (10 <= fuel)%nat ->
  Safe b -> Round intOfInf fuel b b' -> Safe b'.
Proof.
  intros Hinf Hfuel HS HR. pose proof HS as (Hlen & _ & _).
  destruct HR as [i m HO Hi HX Hfull Hsel].
  rewrite minimaxWinChecker_hasLine3 in HO by done. injection HO as HO.
  destruct (Safe_human_move b i HS HO Hi) as [HX' Hlost].
  destruct (selector_safe intOfInf fuel (<[i := PLAYER_X]> b) Hinf Hfuel
              ltac:(by rewrite length_insert) Hfull HX' (Hlost Hfull))
    as (m' & Hsel' & _ & Hsafe).
  rewrite Hsel in Hsel'. injection Hsel' as Hmm. apply Nat2Z.inj in Hmm. by subst.
Qed.

Lemma Safe_rtc (intOfInf : Z) (fuel : nat) (b b' : Board) :
  saturates intOfInf -> (10 <= fuel)%nat ->
  Safe b -> rtc (Round intOfInf fuel) b b' -> Safe b'.
Proof.
  intros Hinf Hfuel HS Hrtc. induction Hrtc as [|b b1 b2 HR _ IH]; [done|].
  apply IH. by eapply Safe_round.
Qed.

Lemma never_loses_if_not_lost (intOfInf : Z) (fuel : nat) (b : Board) :
  saturates intOfInf -> (10 <= fuel)%nat ->
  length b = 9%nat -> isBoardFull b = false ->
  minimaxWinChecker b PLAYER_X = Ok false ->
  ~ AlreadyLost b ->
  NeverLoses intOfInf fuel b.
Proof.
  intros Hinf Hfuel Hlen Hfull HX Hlost.
  rewrite minimaxWinChecker_hasLine3 in HX by done. injection HX as HX.
  destruct (selector_safe intOfInf fuel b Hinf Hfuel Hlen Hfull HX Hlost)
    as (m & Hsel & Hm & Hsafe).
  exists m. split; [done|]. split; [done|]. intros b' Hplay.
  pose proof (Safe_rtc intOfInf fuel _ _ Hinf Hfuel Hsafe Hplay) as HS.
  pose proof HS as (Hlen' & HX' & _).
  split; [by rewrite minimaxWinChecker_hasLine3, HX'|].
  intros HO i Hi.
  rewrite minimaxWinChecker_hasLine3 in HO by done. injection HO as HO.
  destruct (Safe_human_move b' i HS HO Hi) as [HXi Hnl].
  split; [by rewrite minimaxWinChecker_hasLine3, HXi by (by rewrite length_insert)|].
  intros Hfull'.
  destruct (selector_safe intOfInf fuel (<[i := PLAYER_X]> b') Hinf Hfuel
              ltac:(by rewrite length_insert) Hfull' HXi (Hnl Hfull'))
    as (m' & Hsel' & Hm' & _).
  by exists m'.
Qed.

(** C1 (as amended). On a 3x3 board with a free cell and no line of the
    human, from which the AI is not already lost, and where the conversion
    of infinity saturates, the move [findBestMoveMinimax] returns never leads
    to a loss: whatever free cells the human plays afterwards, with the
    selector answering each time, the human never completes a line, and the
    selector always has an answer. *)
Theorem selector_never_loses (intOfInf : Z) (fuel : nat) (b : Board) :
  saturates intOfInf -> (10 <= fuel)%nat ->
  length b = 9%nat -> isBoardFull b = false ->
  minimaxWinChecker b PLAYER_X = Ok false ->
  ~ AlreadyLost b ->
  NeverLoses intOfInf fuel b.
Proof. apply never_loses_if_not_lost. Qed.

(** The AI can win at once on this board, so it is not lost. *)
Lemma selector_never_loses_witness :
  NeverLoses maxInt64 10 ["O"; "O"; ""; "X"; "X"; ""; ""; ""; ""].
Proof.
  apply selector_never_loses.
  - unfold saturates. vm_compute. split; [reflexivity|discriminate].
  - lia.
  - reflexivity.
  - reflexivity.
  - vm_compute. reflexivity.
  - intros Hlost. destruct (Hlost 2%nat eq_refl) as [Hnw _].
    apply Hnw. vm_compute. reflexivity.
Defined.

(** C1 (as stated) fails. The board has a free cell and no line of either
    mark, but the human threatens cells 5 and 6: the selector (with a
    saturating conversion) answers at cell 2, and the human completes the
    middle row at cell 5. *)
Lemma selector_loses_lost_position :
  let b := ["X"; "O"; ""; "X"; "X"; ""; ""; ""; "O"] in
  length b = 9%nat /\ isBoardFull b = false /\
  minimaxWinChecker b PLAYER_X = Ok false /\
  minimaxWinChecker b AI_O = Ok false /\
  ~ NeverLoses maxInt64 10 b.
Proof.
  cbv zeta. split; [reflexivity|]. split; [reflexivity|].
  split; [vm_compute; reflexivity|]. split; [vm_compute; reflexivity|].
  intros (m & Hsel & _ & Hplay).
  assert (E : findBestMoveMinimax maxInt64 10 ["X"; "O"; ""; "X"; "X"; ""; ""; ""; "O"]
              = Ok (2, ["X"; "O"; ""; "X"; "X"; ""; ""; ""; "O"]))
    by (vm_compute; reflexivity).
  rewrite E in Hsel. injection Hsel as Hm.
  assert (m = 2%nat) as -> by lia.
  destruct (Hplay _ (rtc_refl _ _)) as [_ H].
  destruct (H ltac:(vm_compute; reflexivity) 5%nat eq_refl) as [Hno _].
  assert (Hyes : minimaxWinChecker
                   (<[5%nat := PLAYER_X]> (<[2%nat := AI_O]> ["X"; "O"; ""; "X"; "X"; ""; ""; ""; "O"]))
                   PLAYER_X = Ok true) by (vm_compute; reflexivity).
  rewrite Hyes in Hno. discriminate.
Qed.

(** The opening position is not lost, so the AI moving first never loses. *)
Lemma empty_board_not_lost :
  ~ AlreadyLost [""; ""; ""; ""; ""; ""; ""; ""; ""].
Proof.
  intros Hlost. destruct (Hlost 0%nat eq_refl) as [_ HF].
  assert (Hs : saturates maxInt64) by (unfold saturates; vm_compute; split; [reflexivity|discriminate]).
  pose proof (value_sign maxInt64 10 Hs (<[0%nat := AI_O]> [""; ""; ""; ""; ""; ""; ""; ""; ""]) 0
                eq_refl ltac:(lia) ltac:(vm_compute; discriminate) ltac:(vm_compute; lia))
    as [Hmin _].
  destruct (Hmin eq_refl) as [_ Hback].
  assert (Hneg : value maxInt64 10 (<[0%nat := AI_O]> [""; ""; ""; ""; ""; ""; ""; ""; ""]) 0 false < 0)
    by (apply Hback; split; [reflexivity|done]).
  assert (E : value maxInt64 10 (<[0%nat := AI_O]> [""; ""; ""; ""; ""; ""; ""; ""; ""]) 0 false = 0)
    by (vm_compute; reflexivity).
  rewrite E in Hneg. lia.
Qed.

(** ** The score does not depend on the fuel or on which large value the
    conversion of infinity yields *)

Lemma foldCells_ext (cv cv' : nat -> Z) (pick : Z -> Z -> Z) (b : Board)
    (js : list nat) (best : Z) :
  (forall j, j ∈ js -> emptyAt b j -> cv j = cv' j) ->
  foldCells cv pick b js best = foldCells cv' pick b js best.
Proof.
  revert best. induction js as [|j js IH]; intros best Hext; [done|].
  rewrite !foldCells_cons. destruct (marked b j EMPTY) eqn:E.
  - rewrite (Hext j); [|by left|by apply marked_empty_iff].
    apply IH. intros j' Hj'. apply Hext. by right.
  - apply IH. intros j' Hj'. apply Hext. by right.
Qed.

Lemma foldCells_min_init (cv : nat -> Z) (b : Board) (js : list nat)
    (best best' : Z) (j0 : nat) :
  j0 ∈ js -> emptyAt b j0 -> cv j0 <= best -> cv j0 <= best' ->
  foldCells cv goMin b js best = foldCells cv goMin b js best'.
Proof.
  intros Hj0 He H1 H2.
  pose proof (foldCells_min_le_child cv b js best j0 Hj0 He).
  pose proof (foldCells_min_le_child cv b js best' j0 Hj0 He).
  apply Z.le_antisymm; apply foldCells_min_ge; (split; [lia|]);
    intros j Hj Hej; by apply foldCells_min_le_child.
Qed.

Lemma foldCells_max_init (cv : nat -> Z) (b : Board) (js : list nat)
    (best best' : Z) (j0 : nat) :
  j0 ∈ js -> emptyAt b j0 -> best <= cv j0 -> best' <= cv j0 ->
  foldCells cv goMax b js best = foldCells cv goMax b js best'.
Proof.
  intros Hj0 He H1 H2.
  pose proof (foldCells_max_ge_child cv b js best j0 Hj0 He).
  pose proof (foldCells_max_ge_child cv b js best' j0 Hj0 He).
  apply Z.le_antisymm; apply foldCells_max_le; (split; [lia|]);
    intros j Hj Hej; by apply foldCells_max_ge_child.
Qed.

Lemma value_stable (intOfInf intOfInf' : Z) (fuel fuel' : nat) (b : Board)
    (depth : Z) (isMaximizing : bool) :
  saturates intOfInf -> saturates intOfInf' ->
  length b = 9%nat -> 0 <= depth -> depth + Z.of_nat (emptyCount b) <= 9 ->
  (emptyCount b < fuel)%nat -> (emptyCount b < fuel')%nat ->
  value intOfInf fuel b depth isMaximizing = value intOfInf' fuel' b depth isMaximizing.
Proof.
  intros Hinf Hinf'. pose proof Hinf as Hi. pose proof Hinf' as Hi'.
  unfold saturates in Hi, Hi'.
  revert fuel' b depth isMaximizing.
  induction fuel as [|fuel IH]; intros fuel' b depth isMax Hlen Hd Hdepth Hf Hf'; [lia|].
  destruct fuel' as [|fuel']; [lia|]. rewrite !value_S.
  destruct (hasLine3 b AI_O); [done|].
  destruct (hasLine3 b PLAYER_X); [done|].
  destruct (isBoardFull b) eqn:Hfull; [done|].
  apply isBoardFull_false_iff in Hfull as [j0 Hj0].
  pose proof (emptyAt_in_seq9 b j0 Hlen Hj0) as Hin.
  assert (Hkid : forall j mark, emptyAt b j -> String.eqb mark EMPTY = false ->
            length (<[j := mark]> b) = 9%nat /\ 0 <= depth + 1 /\
            depth + 1 + Z.of_nat (emptyCount (<[j := mark]> b)) <= 9 /\
            (emptyCount (<[j := mark]> b) < fuel)%nat /\
            (emptyCount (<[j := mark]> b) < fuel')%nat).
  { intros j mark Hj Hmark. pose proof (emptyCount_insert b j mark Hj Hmark).
    rewrite length_insert. lia. }
  destruct isMax.
  - destruct (Hkid j0 AI_O Hj0 eq_refl) as (K1 & K2 & K3 & K4 & K5).
    pose proof (value_range intOfInf' fuel' _ _ false Hinf' K1 K2 K3 K5).
    rewrite (foldCells_ext _ (fun j => value intOfInf' fuel' (<[j := AI_O]> b) (depth + 1) false)).
    + apply (foldCells_max_init _ _ _ _ _ j0); [done|done|..];
        rewrite neg64_saturates by done; lia.
    + intros j _ Hj. destruct (Hkid j AI_O Hj eq_refl) as (J1 & J2 & J3 & J4 & J5).
      by apply IH.
  - destruct (Hkid j0 PLAYER_X Hj0 eq_refl) as (K1 & K2 & K3 & K4 & K5).
    pose proof (value_range intOfInf' fuel' _ _ true Hinf' K1 K2 K3 K5).
    rewrite (foldCells_ext _ (fun j => value intOfInf' fuel' (<[j := PLAYER_X]> b) (depth + 1) true)).
    + apply (foldCells_min_init _ _ _ _ _ j0); [done|done|..]; lia.
    + intros j _ Hj. destruct (Hkid j PLAYER_X Hj eq_refl) as (J1 & J2 & J3 & J4 & J5).
      by apply IH.
Qed.

Lemma score_stable (intOfInf intOfInf' : Z) (fuel fuel' : nat) (b : Board) (j : nat) :
  saturates intOfInf -> saturates intOfInf' ->
  length b = 9%nat -> (10 <= fuel)%nat -> (10 <= fuel')%nat -> emptyAt b j ->
  score intOfInf fuel b j = score intOfInf' fuel' b j.
Proof.
  intros Hinf Hinf' Hlen Hf Hf' Hj.
  pose proof (emptyCount_insert b j AI_O Hj eq_refl).
  pose proof (emptyCount_le_length b).
  unfold score. apply value_stable; [done|done|by rewrite length_insert|lia..].
Qed.

Lemma findBestMoveMinimax_stable (intOfInf intOfInf' : Z) (fuel fuel' : nat) (b : Board) :
  saturates intOfInf -> saturates intOfInf' ->
  length b = 9%nat -> (10 <= fuel)%nat -> (10 <= fuel')%nat ->
  findBestMoveMinimax intOfInf fuel b = findBestMoveMinimax intOfInf' fuel' b.
Proof.
  intros Hinf Hinf' Hlen Hf Hf'.
  destruct (isBoardFull b) eqn:Hfull.
  - pose proof (proj1 (isBoardFull_true_iff b) Hfull) as Hnone.
    destruct (findBestMoveMinimax_total intOfInf fuel b Hlen Hf) as (m & -> & [->|(j & _ & Hj)]);
      [|by destruct (Hnone j)].
    destruct (findBestMoveMinimax_total intOfInf' fuel' b Hlen Hf') as (m' & -> & [->|(j & _ & Hj)]);
      [done|by destruct (Hnone j)].
  - destruct (findBestMoveMinimax_argmax intOfInf fuel b Hinf Hlen Hf Hfull)
      as (m & -> & Hm & Hmax & Hfirst).
    destruct (findBestMoveMinimax_argmax intOfInf' fuel' b Hinf' Hlen Hf' Hfull)
      as (m' & -> & Hm' & Hmax' & Hfirst').
    assert (Heq : forall j, emptyAt b j -> score intOfInf fuel b j = score intOfInf' fuel' b j)
      by (intros j Hj; by apply score_stable).
    destruct (Nat.lt_trichotomy m m') as [Hlt|[->|Hgt]]; [|done|].
    + specialize (Hfirst' m Hlt Hm). specialize (Hmax m' Hm').
      rewrite (Heq m Hm), (Heq m' Hm') in Hmax. lia.
    + specialize (Hfirst m' Hgt Hm'). specialize (Hmax' m Hm).
      rewrite (Heq m Hm), (Heq m' Hm') in Hfirst. lia.
Qed.

(** ** The N x N checker as a pure predicate *)

Lemma allFrom_spec (f : Z -> Res bool) (g : nat -> bool) (k i : nat) :
  (forall j, (i <= j < i + k)%nat -> f (Z.of_nat j) = Ok (g j)) ->
  allFrom k (Z.of_nat i) f = Ok (allN k i g).
Proof.
  revert i. induction k as [|k IH]; intros i Hf; [done|].
  simpl. rewrite (Hf i) by lia.
  replace (Z.of_nat i + 1) with (Z.of_nat (S i)) by lia.
  rewrite IH by (intros j Hj; apply Hf; lia).
  by destruct (g i).
Qed.

Lemma anyFrom_spec (f : Z -> Res bool) (g : nat -> bool) (k i : nat) :
  (forall j, (i <= j < i + k)%nat -> f (Z.of_nat j) = Ok (g j)) ->
  anyFrom k (Z.of_nat i) f = Ok (anyN k i g).
Proof.
  revert i. induction k as [|k IH]; intros i Hf; [done|].
  simpl. rewrite (Hf i) by lia.
  replace (Z.of_nat i + 1) with (Z.of_nat (S i)) by lia.
  rewrite IH by (intros j Hj; apply Hf; lia).
  by destruct (g i).
Qed.

Lemma allN_ext (f g : nat -> bool) (k i : nat) :
  (forall j, (i <= j < i + k)%nat -> f j = g j) -> allN k i f = allN k i g.
Proof.
  revert i. induction k as [|k IH]; intros i H; [done|].
  simpl. rewrite (H i) by lia. f_equal. apply IH. intros j Hj. apply H. lia.
Qed.

Lemma allN_mono (f g : nat -> bool) (k i : nat) :
  (forall j, f j = true -> g j = true) -> allN k i f = true -> allN k i g = true.
Proof.
  intros H. revert i. induction k as [|k IH]; intros i; [done|].
  simpl. rewrite !andb_true_iff. intros [H1 H2]. split; [by apply H|by apply IH].
Qed.

Lemma anyN_mono (f g : nat -> bool) (k i : nat) :
  (forall j, f j = true -> g j = true) -> anyN k i f = true -> anyN k i g = true.
Proof.
  intros H. revert i. induction k as [|k IH]; intros i; [done|].
  simpl. rewrite !orb_true_iff. intros [H1|H2]; [left; by apply H|right; by apply IH].
Qed.

Lemma hasLine_mono (b b' : Board) (p : string) (n : nat) :
  (forall j, marked b j p = true -> marked b' j p = true) ->
  hasLine b p n = true -> hasLine b' p n = true.
Proof.
  intros H. unfold hasLine. rewrite !orb_true_iff.
  intros [[[H1|H1]|H1]|H1].
  - left; left; left. revert H1. apply anyN_mono. intros r. apply allN_mono. intros c. apply H.
  - left; left; right. revert H1. apply anyN_mono. intros c. apply allN_mono. intros r. apply H.
  - left; right. revert H1. apply allN_mono. intros i. apply H.
  - right. revert H1. apply allN_mono. intros i. apply H.
Qed.

Lemma marked_insert_same (b : Board) (i j : nat) (p : string) :
  marked b j p = true -> marked (<[i := p]> b) j p = true.
Proof.
  intros Hj. destruct (decide (i = j)) as [->|Hij].
  - rewrite marked_insert_eq; [apply String.eqb_refl|].
    unfold marked in Hj. destruct (b !! j) eqn:E; [|done]. by eapply lookup_lt_Some.
  - by rewrite marked_insert_ne.
Qed.

Lemma hasLine_insert_same (b : Board) (i : nat) (p : string) (n : nat) :
  hasLine b p n = true -> hasLine (<[i := p]> b) p n = true.
Proof. apply hasLine_mono. intros j. apply marked_insert_same. Qed.

Lemma hasLine_3 (b : Board) (p : string) : hasLine b p 3 = hasLine3 b p.
Proof.
  unfold hasLine, hasLine3. simpl.
  by_cells b p.
Qed.

Lemma cell_index (n : Z) (N r c : nat) :
  n = Z.of_nat N -> n * n <= maxInt64 -> (r < N)%nat -> (c < N)%nat ->
  add64 (mul64 (Z.of_nat r) n) (Z.of_nat c) = Z.of_nat (r * N + c) /\
  (r * N + c < N * N)%nat.
Proof.
  intros -> Hmax Hr Hc. unfold add64, mul64.
  assert (0 <= Z.of_nat r * Z.of_nat N <= maxInt64) by nia.
  assert (Z.of_nat r * Z.of_nat N + Z.of_nat c < Z.of_nat N * Z.of_nat N) by nia.
  rewrite (wrap64_small (Z.of_nat r * Z.of_nat N)) by (unfold minInt64; lia).
  rewrite wrap64_small by (unfold minInt64; lia).
  split; nia.
Qed.

Lemma checkWinner_spec (b : Board) (p : string) (n : Z) :
  Z.of_nat (length b) = n * n -> n * n <= maxInt64 ->
  checkWinner b p n = Ok (hasLine b p (Z.to_nat n)).
Proof.
  intros Hlen Hmax. unfold checkWinner, hasLine.
  destruct (Z.le_gt_cases n 0) as [Hn|Hn].
  { replace (Z.to_nat n) with 0%nat by lia. reflexivity. }
  set (N := Z.to_nat n). assert (HN : n = Z.of_nat N) by lia.
  assert (HlenN : length b = (N * N)%nat) by nia.
  assert (Hcell : forall r c, (r < N)%nat -> (c < N)%nat ->
            cellIs b (add64 (mul64 (Z.of_nat r) n) (Z.of_nat c)) p
            = Ok (marked b (r * N + c) p)).
  { intros r c Hr Hc. destruct (cell_index n N r c HN Hmax Hr Hc) as [-> Hlt].
    rewrite cellIs_marked by lia. by rewrite Nat2Z.id. }
  change 0 with (Z.of_nat 0).
  rewrite (anyFrom_spec _ (fun r => allN N 0 (fun c => marked b (r * N + c) p))).
  2:{ intros r Hr. apply allFrom_spec. intros c Hc. apply Hcell; lia. }
  rewrite (anyFrom_spec _ (fun c => allN N 0 (fun r => marked b (r * N + c) p))).
  2:{ intros c Hc. apply allFrom_spec. intros r Hr. apply Hcell; lia. }
  rewrite (allFrom_spec _ (fun i => marked b (i * N + i) p)).
  2:{ intros i Hi. apply Hcell; lia. }
  rewrite (allFrom_spec _ (fun i => marked b (i * N + (N - 1 - i)) p)).
  2:{ intros i Hi. unfold sub64.
      rewrite (wrap64_small (n - 1)) by (unfold minInt64, maxInt64 in *; nia).
      rewrite wrap64_small by (unfold minInt64, maxInt64 in *; nia).
      replace (n - 1 - Z.of_nat i) with (Z.of_nat (N - 1 - i)) by lia.
      apply Hcell; lia. }
  destruct (anyN N 0 _), (anyN N 0 _), (allN N 0 _), (allN N 0 _); reflexivity.
Qed.

(** ** The three win checkers at size 3 *)

Lemma Fixed_checkWinner_hasLine3 (b : Board) (p : string) :
  length b = 9%nat -> Fixed.checkWinner b p = Ok (hasLine3 b p).
Proof.
  intros Hlen. unfold Fixed.checkWinner, Fixed.winConditions, hasLine3.
  simpl Fixed.anyCondition. rewrite !cellIs_marked by lia.
  to_nat_lits. by_cells b p.
Qed.

Lemma checkWinner_3 (b : Board) (p : string) :
  length b = 9%nat -> checkWinner b p 3 = Ok (hasLine3 b p).
Proof.
  intros Hlen. rewrite checkWinner_spec; [|lia|by vm_compute].
  change (Z.to_nat 3) with 3%nat. by rewrite hasLine_3.
Qed.

(** C6. On a board of exactly nine cells the hardcoded checker of the
    minimax, the N-scan checker at N = 3 and the eight-triple checker of the
    fixed-size server return the same result, for every mark. *)
Theorem win_checkers_agree (b : Board) (p : string) :
  length b = 9%nat ->
  minimaxWinChecker b p = checkWinner b p 3 /\
  checkWinner b p 3 = Fixed.checkWinner b p.
Proof.
  intros Hlen.
  by rewrite minimaxWinChecker_hasLine3, checkWinner_3, Fixed_checkWinner_hasLine3.
Qed.

Lemma win_checkers_agree_witness :
  minimaxWinChecker ["X"; "O"; "X"; "O"; "X"; "O"; "X"; ""; ""] "X"
    = checkWinner ["X"; "O"; "X"; "O"; "X"; "O"; "X"; ""; ""] "X" 3 /\
  checkWinner ["X"; "O"; "X"; "O"; "X"; "O"; "X"; ""; ""] "X" 3
    = Fixed.checkWinner ["X"; "O"; "X"; "O"; "X"; "O"; "X"; ""; ""] "X".
Proof. apply win_checkers_agree. reflexivity. Defined.

(** ** [isBoardFull] *)


Lemma Fixed_isBoardFull_eq (b : Board) : Fixed.isBoardFull b = isBoardFull b.
Proof. induction b as [|c b IH]; simpl; [done|]. by rewrite IH. Qed.



(** ** The heuristic selector *)

Lemma findFrom_Some (k i : nat) (f : nat -> bool) (j : nat) :
  findFrom k i f = Some j ->
  (i <= j < i + k)%nat /\ f j = true /\ forall j', (i <= j' < j)%nat -> f j' = false.
Proof.
  revert i. induction k as [|k IH]; intros i; [done|]. simpl.
  destruct (f i) eqn:E.
  - intros [= <-]. split; [lia|]. split; [done|]. intros j' Hj'. lia.
  - intros H. apply IH in H as (H1 & H2 & H3). split; [lia|]. split; [done|].
    intros j' Hj'. destruct (decide (j' = i)) as [->|]; [done|]. apply H3. lia.
Qed.

Lemma findFrom_None (k i : nat) (f : nat -> bool) :
  findFrom k i f = None -> forall j, (i <= j < i + k)%nat -> f j = false.
Proof.
  revert i. induction k as [|k IH]; intros i; [intros _ j Hj; lia|]. simpl.
  destruct (f i) eqn:E; [done|]. intros H j Hj.
  destruct (decide (j = i)) as [->|]; [done|]. apply (IH (S i) H). lia.
Qed.

Lemma emptySpotsFrom_length (i : Z) (b : Board) :
  length (emptySpotsFrom i b) = emptyCount b.
Proof.
  revert i. induction b as [|c b IH]; intros i; simpl; [done|].
  destruct (String.eqb c EMPTY); simpl; by rewrite IH.
Qed.

Lemma emptySpotsFrom_elem (i : nat) (b : Board) (m : Z) :
  m ∈ emptySpotsFrom (Z.of_nat i) b ->
  exists j, m = Z.of_nat (i + j) /\ emptyAt b j.
Proof.
  revert i. induction b as [|c b IH]; intros i; simpl; [by intros H; inversion H|].
  replace (Z.of_nat i + 1) with (Z.of_nat (S i)) by lia.
  destruct (String.eqb_spec c EMPTY) as [->|Hc].
  - rewrite elem_of_cons. intros [->|H].
    + exists 0%nat. split; [f_equal; lia|done].
    + apply IH in H as (j & -> & Hj). exists (S j). split; [f_equal; lia|done].
  - intros H. apply IH in H as (j & -> & Hj). exists (S j). split; [f_equal; lia|done].
Qed.

Lemma getEmptySpots_elem (b : Board) (m : Z) :
  m ∈ getEmptySpots b -> exists j, m = Z.of_nat j /\ emptyAt b j.
Proof.
  unfold getEmptySpots. change 0 with (Z.of_nat 0). intros H.
  apply emptySpotsFrom_elem in H as (j & -> & Hj). by exists j.
Qed.

Lemma firstCompleting_spec (b : Board) (mark : string) (n : Z) (suffix : Board) (i : nat) :
  Z.of_nat (length b) = n * n -> n * n <= maxInt64 ->
  drop i b = suffix ->
  firstCompleting b mark n (emptySpotsFrom (Z.of_nat i) suffix)
  = Ok (Z.of_nat <$> findFrom (length suffix) i (completesb b mark (Z.to_nat n))).
Proof.
  intros Hlen Hmax. revert i. induction suffix as [|c suffix IH]; intros i Hdrop; [done|].
  assert (Hi : b !! i = Some c).
  { pose proof (lookup_drop b i 0) as H. rewrite Hdrop, Nat.add_0_r in H. done. }
  assert (Hnext : drop (S i) b = suffix).
  { rewrite (drop_S b c i Hi) in Hdrop. by injection Hdrop. }
  simpl emptySpotsFrom. simpl length. simpl findFrom.
  replace (Z.of_nat i + 1) with (Z.of_nat (S i)) by lia.
  unfold completesb at 1. rewrite (marked_Some _ _ _ _ Hi).
  destruct (String.eqb c EMPTY); simpl andb.
  - simpl firstCompleting. rewrite store_nat, Hi. unfold rbind at 1.
    rewrite checkWinner_spec by (rewrite ?length_insert; done). unfold rbind at 1.
    destruct (hasLine _ _ _); [done|]. by apply IH.
  - by apply IH.
Qed.

Lemma firstCompleting_getEmptySpots (b : Board) (mark : string) (n : Z) :
  Z.of_nat (length b) = n * n -> n * n <= maxInt64 ->
  firstCompleting b mark n (getEmptySpots b)
  = Ok (Z.of_nat <$> findFrom (length b) 0 (completesb b mark (Z.to_nat n))).
Proof.
  intros Hlen Hmax. unfold getEmptySpots. change 0 with (Z.of_nat 0).
  by apply firstCompleting_spec.
Qed.

Lemma firstEmptyCorner_spec (b : Board) (cs : list Z) :
  (forall c, c ∈ cs -> 0 <= c < Z.of_nat (length b)) ->
  (exists c, firstEmptyCorner b cs = Ok (Some c) /\ c ∈ cs /\ 0 <= c /\
             emptyAt b (Z.to_nat c))
  \/ (firstEmptyCorner b cs = Ok None /\ forall c, c ∈ cs -> ~ emptyAt b (Z.to_nat c)).
Proof.
  induction cs as [|c cs IH]; intros Hin.
  { right. split; [done|]. intros c Hc. by inversion Hc. }
  simpl. rewrite cellIs_marked by (apply Hin; by left). unfold rbind.
  destruct (marked b (Z.to_nat c) EMPTY) eqn:E.
  - left. exists c. split; [done|]. split; [by left|].
    split; [apply Hin; by left|]. by apply marked_empty_iff.
  - destruct IH as [(c' & H1 & H2 & H3 & H4)|[H1 H2]].
    + intros c' Hc'. apply Hin. by right.
    + left. exists c'. split; [done|]. split; [by right|]. done.
    + right. split; [done|]. intros c' [->|Hc']%elem_of_cons; [|by apply H2].
      rewrite <- marked_empty_iff. congruence.
Qed.

Lemma spotAt_getEmptySpots (b : Board) (k : Z) :
  0 <= k < Z.of_nat (length (getEmptySpots b)) ->
  exists j, spotAt (getEmptySpots b) k = Ok (Z.of_nat j) /\ emptyAt b j.
Proof.
  intros Hk. unfold spotAt. destruct (Z.ltb_spec k 0); [lia|].
  destruct (lookup_lt_is_Some_2 (getEmptySpots b) (Z.to_nat k)) as [m Hm]; [lia|].
  rewrite Hm. apply list_elem_of_lookup_2, getEmptySpots_elem in Hm as (j & -> & Hj).
  by exists j.
Qed.

(** The corners of an [n] x [n] board, as the code computes them. *)
Lemma corners_exact (n : Z) :
  1 <= n -> n * n <= maxInt64 ->
  [0; sub64 n 1; mul64 n (sub64 n 1); sub64 (mul64 n n) 1]
  = [0; n - 1; n * (n - 1); n * n - 1].
Proof.
  intros Hn Hmax. unfold sub64, mul64.
  rewrite (wrap64_small (n - 1)) by (unfold minInt64, maxInt64 in *; nia).
  rewrite (wrap64_small (n * (n - 1))) by (unfold minInt64, maxInt64 in *; nia).
  rewrite (wrap64_small (n * n)) by (unfold minInt64, maxInt64 in *; nia).
  rewrite (wrap64_small (n * n - 1)) by (unfold minInt64, maxInt64 in *; nia).
  done.
Qed.

(** Stages 3 to 5 on a board with a free cell: the centre when it is free,
    else a free corner when there is one, else some free cell. *)
Lemma centerCornerRandom_spec (rnd : Rand) (b : Board) (n : Z) :
  RandOk rnd -> Z.of_nat (length b) = n * n -> n * n <= maxInt64 -> 1 <= n ->
  isBoardFull b = false ->
  let center := Z.to_nat (n * n / 2) in
  let corners := [0; n - 1; n * (n - 1); n * n - 1] in
  exists j, centerCornerRandom rnd b n (getEmptySpots b) = Ok (Z.of_nat j) /\
            emptyAt b j /\
            (emptyAt b center -> j = center) /\
            (~ emptyAt b center ->
             Z.of_nat j ∈ corners \/ forall c, c ∈ corners -> ~ emptyAt b (Z.to_nat c)).
Proof.
  intros [Hperm Hintn] Hlen Hmax Hn Hfull center corners.
  unfold centerCornerRandom.
  assert (Hquot : Z.quot (mul64 n n) 2 = n * n / 2).
  { unfold mul64. rewrite wrap64_small by (unfold minInt64, maxInt64 in *; nia).
    apply Z.quot_div_nonneg; nia. }
  rewrite !Hquot.
  assert (0 <= n * n / 2 < n * n) by (split; [apply Z.div_pos; nia|apply Z.div_lt; nia]).
  rewrite cellIs_marked by lia. unfold rbind at 1. fold center.
  destruct (marked b center EMPTY) eqn:Ec.
  - apply marked_empty_iff in Ec. exists center.
    split; [unfold center; by rewrite Z2Nat.id by lia|].
    split; [done|]. split; [done|]. done.
  - assert (Hnc : ~ emptyAt b center) by (rewrite <- marked_empty_iff; congruence).
    rewrite corners_exact by done. fold corners.
    destruct (firstEmptyCorner_spec b (shuffle rnd corners))
      as [(c & -> & Hc & Hc0 & Hce)|[-> Hnone]].
    + intros c. rewrite (Hperm corners). unfold corners.
      rewrite !elem_of_cons, elem_of_nil. intros [->|[->|[->|[->|[]]]]]; nia.
    + unfold rbind. exists (Z.to_nat c). rewrite Z2Nat.id by done.
      split; [done|]. split; [done|]. split; [done|]. intros _. left.
      by rewrite <- (Hperm corners).
    + unfold rbind.
      destruct (spotAt_getEmptySpots b (intn rnd (Z.of_nat (length (getEmptySpots b)))))
        as (j & -> & Hj).
      { apply Hintn. unfold getEmptySpots. rewrite emptySpotsFrom_length.
        destruct (emptyCount b) eqn:E; [|lia].
        apply emptyCount_zero_iff in E. congruence. }
      exists j. split; [done|]. split; [done|]. split; [done|]. intros _. right.
      intros c Hc. apply Hnone. by rewrite (Hperm corners).
Qed.

Lemma completesb_true (b : Board) (mark : string) (n : Z) (j : nat) :
  Z.of_nat (length b) = n * n -> n * n <= maxInt64 ->
  completesb b mark (Z.to_nat n) j = true <->
  emptyAt b j /\ checkWinner (<[j := mark]> b) mark n = Ok true.
Proof.
  intros Hlen Hmax. unfold completesb.
  rewrite checkWinner_spec by (rewrite ?length_insert; done).
  rewrite andb_true_iff, marked_empty_iff.
  split; [by intros [? ->]|by intros [? [= ->]]].
Qed.

Lemma hasLine_0 (b : Board) (p : string) : hasLine b p 0 = true.
Proof. reflexivity. Qed.

Lemma getEmptySpots_length_0 (b : Board) :
  length (getEmptySpots b) = 0%nat <-> isBoardFull b = true.
Proof.
  unfold getEmptySpots. rewrite emptySpotsFrom_length. apply emptyCount_zero_iff.
Qed.

(** The heuristic always returns, with [-1] on a full board and a free cell
    otherwise. *)
Lemma findBestMoveHeuristic_total (rnd : Rand) (b : Board) (n : Z) :
  RandOk rnd -> Z.of_nat (length b) = n * n -> n * n <= maxInt64 ->
  (isBoardFull b = true /\ findBestMoveHeuristic rnd b n = Ok (-1)) \/
  (exists j, findBestMoveHeuristic rnd b n = Ok (Z.of_nat j) /\ emptyAt b j).
Proof.
  intros Hrnd Hlen Hmax. unfold findBestMoveHeuristic.
  case_bool_decide as Hspots.
  { left. split; [by apply getEmptySpots_length_0|done]. }
  right.
  assert (Hfull : isBoardFull b = false).
  { destruct (isBoardFull b) eqn:E; [|done]. by apply getEmptySpots_length_0 in E. }
  rewrite firstCompleting_getEmptySpots by done. unfold rbind at 1.
  destruct (findFrom _ _ (completesb b AI_O _)) as [j|] eqn:Hwin; simpl.
  { exists j. split; [done|]. apply findFrom_Some in Hwin as (_ & Hj & _).
    by apply completesb_true in Hj as [? _]. }
  rewrite firstCompleting_getEmptySpots by done. unfold rbind at 1.
  destruct (findFrom _ _ (completesb b PLAYER_X _)) as [j|] eqn:Hblock; simpl.
  { exists j. split; [done|]. apply findFrom_Some in Hblock as (_ & Hj & _).
    by apply completesb_true in Hj as [? _]. }
  assert (Hn : 1 <= n).
  { destruct (Z.le_gt_cases 1 n) as [|Hn0]; [done|exfalso].
    pose proof (proj1 (isBoardFull_false_iff b) Hfull) as [j Hj].
    pose proof (findFrom_None _ _ _ Hwin j ltac:(pose proof (emptyAt_lt _ _ Hj); lia)) as Hc.
    unfold completesb in Hc. replace (Z.to_nat n) with 0%nat in Hc by lia.
    rewrite hasLine_0, (proj2 (marked_empty_iff b j) Hj) in Hc. done. }
  destruct (centerCornerRandom_spec rnd b n Hrnd Hlen Hmax Hn Hfull) as (j & Hr & Hj & _).
  by exists j.
Qed.

Lemma findFrom_first (b : Board) (mark : string) (n : Z) :
  Z.of_nat (length b) = n * n -> n * n <= maxInt64 ->
  match findFrom (length b) 0 (completesb b mark (Z.to_nat n)) with
  | Some m => completes b mark n m /\ forall j, (j < m)%nat -> ~ completes b mark n j
  | None => forall j, ~ completes b mark n j
  end.
Proof.
  intros Hlen Hmax. unfold completes.
  destruct (findFrom _ _ _) as [m|] eqn:E.
  - apply findFrom_Some in E as (_ & Hm & Hfirst). split.
    + by apply completesb_true.
    + intros j Hj Hc. apply (completesb_true b mark n j Hlen Hmax) in Hc.
      rewrite Hfirst in Hc by lia. done.
  - intros j Hc. pose proof (emptyAt_lt _ _ (proj1 Hc)).
    apply (completesb_true b mark n j Hlen Hmax) in Hc.
    rewrite (findFrom_None _ _ _ E j) in Hc by lia. done.
Qed.

Lemma heuristic_priorities (rnd : Rand) (b : Board) (n : Z) :
  Z.of_nat (length b) = n * n -> n * n <= maxInt64 -> isBoardFull b = false ->
  ((exists j, completes b AI_O n j) ->
   exists m, findBestMoveHeuristic rnd b n = Ok (Z.of_nat m) /\
             completes b AI_O n m /\
             forall j, (j < m)%nat -> ~ completes b AI_O n j)
  /\
  ((forall j, ~ completes b AI_O n j) -> (exists j, completes b PLAYER_X n j) ->
   exists m, findBestMoveHeuristic rnd b n = Ok (Z.of_nat m) /\
             completes b PLAYER_X n m /\
             forall j, (j < m)%nat -> ~ completes b PLAYER_X n j)
  /\
  ((forall j, ~ completes b AI_O n j) -> (forall j, ~ completes b PLAYER_X n j) ->
   findBestMoveHeuristic rnd b n = centerCornerRandom rnd b n (getEmptySpots b)).
Proof.
  intros Hlen Hmax Hfull. unfold findBestMoveHeuristic.
  case_bool_decide as Hspots.
  { apply getEmptySpots_length_0 in Hspots. congruence. }
  rewrite !firstCompleting_getEmptySpots by done. unfold rbind.
  pose proof (findFrom_first b AI_O n Hlen Hmax) as HO.
  pose proof (findFrom_first b PLAYER_X n Hlen Hmax) as HX.
  destruct (findFrom _ _ (completesb b AI_O _)) as [mo|]; simpl.
  - destruct HO as [HO1 HO2]. split; [|split].
    + intros _. by exists mo.
    + intros Hno. by destruct (Hno mo).
    + intros Hno. by destruct (Hno mo).
  - split; [|split].
    + intros [j Hj]. by destruct (HO j).
    + intros _ [j Hj]. destruct (findFrom _ _ (completesb b PLAYER_X _)) as [mx|]; simpl.
      * destruct HX as [HX1 HX2]. by exists mx.
      * by destruct (HX j).
    + intros _ Hno. destruct (findFrom _ _ (completesb b PLAYER_X _)) as [mx|]; simpl; [|done].
      destruct HX as [HX1 _]. by destruct (Hno mx).
Qed.

(** C5. On an N x N board with a free cell: when some free cell completes a
    line for the AI, [findBestMoveHeuristic] returns the lowest such cell;
    otherwise, when some free cell would complete a line for the human, it
    returns the lowest such cell; only otherwise does it go on to the
    centre, corner and random stages. (The size need not differ from 3.) *)
Theorem heuristic_win_then_block (rnd : Rand) (b : Board) (n : Z) :
  Z.of_nat (length b) = n * n -> n * n <= maxInt64 -> isBoardFull b = false ->
  ((exists j, completes b AI_O n j) ->
   exists m, findBestMoveHeuristic rnd b n = Ok (Z.of_nat m) /\
             completes b AI_O n m /\
             forall j, (j < m)%nat -> ~ completes b AI_O n j)
  /\
  ((forall j, ~ completes b AI_O n j) -> (exists j, completes b PLAYER_X n j) ->
   exists m, findBestMoveHeuristic rnd b n = Ok (Z.of_nat m) /\
             completes b PLAYER_X n m /\
             forall j, (j < m)%nat -> ~ completes b PLAYER_X n j)
  /\
  ((forall j, ~ completes b AI_O n j) -> (forall j, ~ completes b PLAYER_X n j) ->
   findBestMoveHeuristic rnd b n = centerCornerRandom rnd b n (getEmptySpots b)).
Proof. apply heuristic_priorities. Qed.

(** A 4 x 4 board on which the AI holds three cells of the first row. *)
Lemma heuristic_win_then_block_witness :
  let b := ["O"; "O"; "O"; ""; "X"; "X"; "X"; ""; ""; ""; ""; ""; ""; ""; ""; ""] in
  ((exists j, completes b AI_O 4 j) ->
   exists m, findBestMoveHeuristic (mkRand (fun l => l) (fun _ => 0)) b 4 = Ok (Z.of_nat m) /\
             completes b AI_O 4 m /\
             forall j, (j < m)%nat -> ~ completes b AI_O 4 j)
  /\
  ((forall j, ~ completes b AI_O 4 j) -> (exists j, completes b PLAYER_X 4 j) ->
   exists m, findBestMoveHeuristic (mkRand (fun l => l) (fun _ => 0)) b 4 = Ok (Z.of_nat m) /\
             completes b PLAYER_X 4 m /\
             forall j, (j < m)%nat -> ~ completes b PLAYER_X 4 j)
  /\
  ((forall j, ~ completes b AI_O 4 j) -> (forall j, ~ completes b PLAYER_X 4 j) ->
   findBestMoveHeuristic (mkRand (fun l => l) (fun _ => 0)) b 4
   = centerCornerRandom (mkRand (fun l => l) (fun _ => 0)) b 4 (getEmptySpots b)).
Proof.
  cbv zeta. apply heuristic_win_then_block.
  - reflexivity.
  - vm_compute. discriminate.
  - reflexivity.
Defined.

(** ** [aiMove] *)

Lemma aiMove_minus_one (intOfInf : Z) (fuel : nat) (rnd : Rand) (b : Board) (n : Z) (w : string) :
  (if n =? 3 then findBestMoveMinimax intOfInf fuel b
   else let* m := findBestMoveHeuristic rnd b n in Ok (m, b)) = Ok (-1, b) ->
  aiMove intOfInf fuel rnd (mkGameState b n w) = Ok (mkGameState b n w).
Proof. intros H. unfold aiMove. simpl. rewrite H. done. Qed.

Lemma aiMove_free_cell (intOfInf : Z) (fuel : nat) (rnd : Rand) (b : Board) (n : Z)
    (w : string) (m : nat) :
  (if n =? 3 then findBestMoveMinimax intOfInf fuel b
   else let* m := findBestMoveHeuristic rnd b n in Ok (m, b)) = Ok (Z.of_nat m, b) ->
  emptyAt b m ->
  aiMove intOfInf fuel rnd (mkGameState b n w) = Ok (mkGameState (<[m := AI_O]> b) n w).
Proof.
  intros H Hm. unfold aiMove. simpl. rewrite H. unfold rbind at 1.
  destruct (Z.eqb_spec (Z.of_nat m) (-1)); [lia|].
  rewrite cellIs_nat, Hm. unfold rbind at 1. rewrite String.eqb_refl.
  by rewrite store_nat, Hm.
Qed.

Lemma aiMove_total (intOfInf : Z) (fuel : nat) (rnd : Rand) (b : Board) (n : Z) (w : string) :
  (10 <= fuel)%nat -> RandOk rnd ->
  Z.of_nat (length b) = n * n -> n * n <= maxInt64 ->
  aiMove intOfInf fuel rnd (mkGameState b n w) = Ok (mkGameState b n w) \/
  exists m, emptyAt b m /\
    aiMove intOfInf fuel rnd (mkGameState b n w) = Ok (mkGameState (<[m := AI_O]> b) n w).
Proof.
  intros Hfuel Hrnd Hlen Hmax.
  destruct (Z.eqb_spec n 3) as [->|Hn3].
  - destruct (findBestMoveMinimax_total intOfInf fuel b ltac:(lia) Hfuel)
      as (m & Hsel & [->|(j & -> & Hj)]).
    + left. by apply aiMove_minus_one.
    + right. exists j. split; [done|]. by apply aiMove_free_cell.
  - destruct (findBestMoveHeuristic_total rnd b n Hrnd Hlen Hmax) as [[_ H]|(j & H & Hj)].
    + left. apply aiMove_minus_one. destruct (Z.eqb_spec n 3); [done|]. by rewrite H.
    + right. exists j. split; [done|]. apply aiMove_free_cell; [|done].
      destruct (Z.eqb_spec n 3); [done|]. by rewrite H.
Qed.

(** C8. On a well-formed state [aiMove] returns, leaves the size and the
    winner alone, and leaves the board as it was or with one free cell turned
    into "O": every cell that held a mark keeps it, a cell that changes goes
    from "" to "O", and at most one cell changes. On the 3x3 board
    [findBestMoveMinimax] hands back the board it was given. *)
Theorem aiMove_changes_at_most_one_cell (intOfInf : Z) (fuel : nat) (rnd : Rand)
    (b : Board) (n : Z) (w : string) :
  (10 <= fuel)%nat -> RandOk rnd ->
  Z.of_nat (length b) = n * n -> n * n <= maxInt64 ->
  exists b',
    aiMove intOfInf fuel rnd (mkGameState b n w) = Ok (mkGameState b' n w) /\
    (b' = b \/ exists m, emptyAt b m /\ b' = <[m := AI_O]> b) /\
    (forall j s, b !! j = Some s -> s <> EMPTY -> b' !! j = Some s) /\
    (forall j, b' !! j <> b !! j -> b !! j = Some EMPTY /\ b' !! j = Some AI_O) /\
    (forall j j', b' !! j <> b !! j -> b' !! j' <> b !! j' -> j = j') /\
    (n = 3 -> exists m, findBestMoveMinimax intOfInf fuel b = Ok (m, b)).
Proof.
  intros Hfuel Hrnd Hlen Hmax.
  assert (Hsel : n = 3 -> exists m, findBestMoveMinimax intOfInf fuel b = Ok (m, b)).
  { intros ->. destruct (findBestMoveMinimax_total intOfInf fuel b ltac:(lia) Hfuel)
      as (m & Hm & _). by exists m. }
  destruct (aiMove_total intOfInf fuel rnd b n w Hfuel Hrnd Hlen Hmax) as [H|(m & Hm & H)].
  - exists b. split; [done|]. split; [by left|]. split; [done|].
    split; [done|]. split; [done|]. done.
  - exists (<[m := AI_O]> b). split; [done|]. split; [right; by exists m|].
    assert (Hne : forall j, <[m := AI_O]> b !! j <> b !! j -> j = m).
    { intros j Hj. destruct (decide (m = j)) as [->|]; [done|].
      by rewrite list_lookup_insert_ne in Hj. }
    split; [|split; [|split]].
    + intros j s Hj Hs. destruct (decide (m = j)) as [->|].
      * unfold emptyAt in Hm. congruence.
      * by rewrite list_lookup_insert_ne.
    + intros j Hj. apply Hne in Hj as ->. split; [done|].
      apply list_lookup_insert_eq. by eapply emptyAt_lt.
    + intros j j' Hj Hj'. apply Hne in Hj, Hj'. congruence.
    + done.
Qed.

Lemma aiMove_changes_at_most_one_cell_witness :
  exists b',
    aiMove minInt64 10 (mkRand (fun l => l) (fun _ => 0))
      (mkGameState ["X"; "X"; "O"; ""; "O"; ""; "X"; ""; ""] 3 "")
    = Ok (mkGameState b' 3 "") /\
    (b' = ["X"; "X"; "O"; ""; "O"; ""; "X"; ""; ""] \/
     exists m, emptyAt ["X"; "X"; "O"; ""; "O"; ""; "X"; ""; ""] m /\
               b' = <[m := AI_O]> ["X"; "X"; "O"; ""; "O"; ""; "X"; ""; ""]) /\
    (forall j s, ["X"; "X"; "O"; ""; "O"; ""; "X"; ""; ""] !! j = Some s ->
                 s <> EMPTY -> b' !! j = Some s) /\
    (forall j, b' !! j <> ["X"; "X"; "O"; ""; "O"; ""; "X"; ""; ""] !! j ->
               ["X"; "X"; "O"; ""; "O"; ""; "X"; ""; ""] !! j = Some EMPTY /\
               b' !! j = Some AI_O) /\
    (forall j j', b' !! j <> ["X"; "X"; "O"; ""; "O"; ""; "X"; ""; ""] !! j ->
                  b' !! j' <> ["X"; "X"; "O"; ""; "O"; ""; "X"; ""; ""] !! j' -> j = j') /\
    (3 = 3 -> exists m,
       findBestMoveMinimax minInt64 10 ["X"; "X"; "O"; ""; "O"; ""; "X"; ""; ""]
       = Ok (m, ["X"; "X"; "O"; ""; "O"; ""; "X"; ""; ""])).
Proof.
  apply aiMove_changes_at_most_one_cell.
  - lia.
  - split; [done|]. intros k Hk. simpl. lia.
  - reflexivity.
  - vm_compute. discriminate.
Defined.

(** ** The handler when the AI has already won *)

Lemma checkWinner_insert_same (b : Board) (p : string) (n : Z) (j : nat) :
  Z.of_nat (length b) = n * n -> n * n <= maxInt64 ->
  checkWinner b p n = Ok true -> checkWinner (<[j := p]> b) p n = Ok true.
Proof.
  intros Hlen Hmax. rewrite !checkWinner_spec by (rewrite ?length_insert; done).
  intros [= H]. by rewrite hasLine_insert_same.
Qed.

Lemma selector_after_ai_win (intOfInf : Z) (fuel : nat) (b : Board) :
  neg64 intOfInf < 10 -> (10 <= fuel)%nat -> length b = 9%nat ->
  hasLine3 b AI_O = true -> isBoardFull b = false ->
  exists m, emptyAt b m /\ findBestMoveMinimax intOfInf fuel b = Ok (Z.of_nat m, b).
Proof.
  intros Hinf Hfuel Hlen HO Hfull. unfold findBestMoveMinimax.
  change 0 with (Z.of_nat 0) at 1.
  pose proof (emptyCount_le_length b).
  rewrite rootLoop_spec by (done || lia).
  assert (Hten : forall j, value intOfInf fuel (<[j := AI_O]> b) 0 false = 10).
  { intros j. destruct fuel as [|fuel]; [lia|]. rewrite value_S.
    rewrite <- hasLine_3, hasLine_insert_same; [done|]. by rewrite hasLine_3. }
  destruct (rootFold_seq (fun j => value intOfInf fuel (<[j := AI_O]> b) 0 false)
              b 9 0 (neg64 intOfInf) (-1))
    as [[_ Hall]|(j & Hj & He & -> & _)].
  - exfalso. apply isBoardFull_false_iff in Hfull as [j Hj].
    pose proof (emptyAt_lt _ _ Hj).
    specialize (Hall j ltac:(lia) Hj). cbv beta in Hall. rewrite Hten in Hall. lia.
  - by exists j.
Qed.

(** C9. The handler does not look for a line of the AI before moving. On a
    well-formed board with a free cell on which "O" already has a line and
    "X" has none, it runs the selector, writes one more "O" into a free cell
    and then reports the winner "O". This holds whichever of the two values
    the conversion of infinity takes (hypothesis [neg64 intOfInf < 10]). *)
Theorem handler_moves_after_ai_win (intOfInf : Z) (fuel : nat) (rnd : Rand)
    (b : Board) (n : Z) (w : string) :
  neg64 intOfInf < 10 -> (10 <= fuel)%nat ->
  Z.of_nat (length b) = n * n -> n * n <= maxInt64 ->
  checkWinner b AI_O n = Ok true -> checkWinner b PLAYER_X n = Ok false ->
  isBoardFull b = false ->
  exists m, emptyAt b m /\
    aiMove intOfInf fuel rnd (mkGameState b n w)
      = Ok (mkGameState (<[m := AI_O]> b) n w) /\
    playHandler intOfInf fuel rnd (mkGameState b n w)
      = Ok (Encoded (mkGameState (<[m := AI_O]> b) n AI_O)).
Proof.
  intros Hinf Hfuel Hlen Hmax HO HX Hfull.
  assert (Hn : 1 <= n).
  { destruct (Z.le_gt_cases 1 n); [done|exfalso].
    rewrite checkWinner_spec in HX by done.
    replace (Z.to_nat n) with 0%nat in HX by lia. by rewrite hasLine_0 in HX. }
  assert (Hmove : exists m, emptyAt b m /\
            aiMove intOfInf fuel rnd (mkGameState b n w)
            = Ok (mkGameState (<[m := AI_O]> b) n w)).
  { destruct (Z.eqb_spec n 3) as [->|Hn3].
    - rewrite checkWinner_3 in HO by lia. injection HO as HO.
      destruct (selector_after_ai_win intOfInf fuel b Hinf Hfuel ltac:(lia) HO Hfull)
        as (m & Hm & Hsel).
      exists m. split; [done|]. by apply aiMove_free_cell.
    - destruct (heuristic_priorities rnd b n Hlen Hmax Hfull) as [Hwin _].
      destruct Hwin as (m & Hsel & [Hm _] & _).
      { apply isBoardFull_false_iff in Hfull as [j Hj]. exists j.
        split; [done|]. by apply checkWinner_insert_same. }
      exists m. split; [done|]. apply aiMove_free_cell; [|done].
      destruct (Z.eqb_spec n 3); [done|]. by rewrite Hsel. }
  destruct Hmove as (m & Hm & Hai). exists m. split; [done|]. split; [done|].
  unfold playHandler, sizeMismatch. simpl gsBoardSize. simpl gsBoard.
  destruct (Z.eqb_spec n 0); [lia|]. unfold mul64.
  rewrite wrap64_small by (unfold minInt64, maxInt64 in *; nia).
  rewrite Hlen, Z.eqb_refl. simpl. unfold gameLogic. simpl gsBoardSize. simpl gsBoard.
  rewrite HX. unfold rbind at 2. rewrite Hfull, Hai. unfold rbind at 2.
  simpl gsBoard. simpl gsBoardSize.
  rewrite (checkWinner_insert_same b AI_O n m Hlen Hmax HO). done.
Qed.

Lemma handler_moves_after_ai_win_witness :
  exists m, emptyAt ["O"; "O"; "O"; "X"; "X"; ""; "X"; ""; ""] m /\
    aiMove minInt64 10 (mkRand (fun l => l) (fun _ => 0))
      (mkGameState ["O"; "O"; "O"; "X"; "X"; ""; "X"; ""; ""] 3 "")
      = Ok (mkGameState (<[m := AI_O]> ["O"; "O"; "O"; "X"; "X"; ""; "X"; ""; ""]) 3 "") /\
    playHandler minInt64 10 (mkRand (fun l => l) (fun _ => 0))
      (mkGameState ["O"; "O"; "O"; "X"; "X"; ""; "X"; ""; ""] 3 "")
      = Ok (Encoded (mkGameState (<[m := AI_O]> ["O"; "O"; "O"; "X"; "X"; ""; "X"; ""; ""])
                                 3 AI_O)).
Proof.
  apply handler_moves_after_ai_win.
  - vm_compute. reflexivity.
  - lia.
  - reflexivity.
  - vm_compute. discriminate.
  - vm_compute. reflexivity.
  - vm_compute. reflexivity.
  - reflexivity.
Defined.

(** ** The size check of the handler *)

Lemma playHandler_unfold (intOfInf : Z) (fuel : nat) (rnd : Rand) (st : GameState) :
  playHandler intOfInf fuel rnd st =
  if sizeMismatch st then Ok BadRequest
  else let* st' := gameLogic intOfInf fuel rnd st in Ok (Encoded st').
Proof. reflexivity. Qed.

(** A size of 0 is rejected, whatever the board. *)
Lemma zero_size_rejected (intOfInf : Z) (fuel : nat) (rnd : Rand) (b : Board) (w : string) :
  playHandler intOfInf fuel rnd (mkGameState b 0 w) = Ok BadRequest.
Proof. reflexivity. Qed.

(** The game logic runs exactly when the size is not 0 and the length is the
    square of the size as the 64-bit multiplication computes it. *)
Lemma sizeMismatch_false_iff (st : GameState) :
  sizeMismatch st = false <->
  gsBoardSize st <> 0 /\
  Z.of_nat (length (gsBoard st)) = mul64 (gsBoardSize st) (gsBoardSize st).
Proof.
  unfold sizeMismatch. rewrite orb_false_iff, negb_false_iff, Z.eqb_neq, Z.eqb_eq. done.
Qed.

(** Where the square does not overflow, that is the exact square. *)
Lemma sizeMismatch_false_exact (st : GameState) :
  gsBoardSize st * gsBoardSize st <= maxInt64 ->
  sizeMismatch st = false <->
  gsBoardSize st <> 0 /\
  Z.of_nat (length (gsBoard st)) = gsBoardSize st * gsBoardSize st.
Proof.
  intros Hmax. rewrite sizeMismatch_false_iff. unfold mul64.
  rewrite wrap64_small by (unfold minInt64, maxInt64 in *; nia). done.
Qed.

Lemma checkWinner_nil_panic (p : string) (n : Z) :
  1 <= n -> checkWinner [] p n = Panic.
Proof.
  intros Hn. unfold checkWinner.
  destruct (Z.to_nat n) as [|k] eqn:E; [lia|]. reflexivity.
Qed.

(** C10 fails at size 2^32 with a board of no cells: the product wraps to 0,
    the check passes although 0 is not the square of the size, and the game
    logic runs (and panics at the first cell it reads). *)
Theorem handler_accepts_overflowing_size (intOfInf : Z) (fuel : nat) (rnd : Rand) (w : string) :
  sizeMismatch (mkGameState [] 4294967296 w) = false /\
  Z.of_nat (length (gsBoard (mkGameState [] 4294967296 w))) <> 4294967296 * 4294967296 /\
  gameLogic intOfInf fuel rnd (mkGameState [] 4294967296 w) = Panic /\
  playHandler intOfInf fuel rnd (mkGameState [] 4294967296 w) = Panic.
Proof.
  assert (Hs : sizeMismatch (mkGameState [] 4294967296 w) = false) by (vm_compute; reflexivity).
  assert (Hg : gameLogic intOfInf fuel rnd (mkGameState [] 4294967296 w) = Panic).
  { unfold gameLogic. simpl gsBoard. simpl gsBoardSize.
    rewrite checkWinner_nil_panic by lia. reflexivity. }
  split; [done|]. split; [simpl; lia|]. split; [done|].
  by rewrite playHandler_unfold, Hs, Hg.
Qed.

(** ** Where the conversion of infinity truncates to the minimum integer

    With [intOfInf = minInt64] both [int(math.Inf(1))] and its negation are
    the minimum integer. A minimizing node that is not terminal starts from
    the minimum and returns it; at the root no such score exceeds the initial
    [bestVal], so the selector keeps [bestMove = -1]. *)

Lemma neg64_minInt64 : neg64 minInt64 = minInt64.
Proof. vm_compute. reflexivity. Qed.

Lemma foldCells_max_ge_init (cv : nat -> Z) (b : Board) (js : list nat) (best : Z) :
  best <= foldCells cv goMax b js best.
Proof.
  destruct (Z.lt_ge_cases (foldCells cv goMax b js best) best) as [Hlt|]; [|lia].
  apply foldCells_max_lt in Hlt as [Hlt _]. lia.
Qed.

Lemma foldCells_min_le_init (cv : nat -> Z) (b : Board) (js : list nat) (best : Z) :
  foldCells cv goMin b js best <= best.
Proof.
  pose proof (foldCells_min_ge cv b js best (foldCells cv goMin b js best)) as [H _].
  destruct H as [H _]; [lia|done].
Qed.

Lemma value_truncating_max (fuel : nat) (b : Board) (depth : Z) :
  0 <= depth <= 10 -> minInt64 <= value minInt64 fuel b depth true.
Proof.
  intros Hd. destruct fuel as [|fuel]; [simpl; unfold minInt64; lia|].
  rewrite value_S.
  destruct (hasLine3 b AI_O); [unfold minInt64; lia|].
  destruct (hasLine3 b PLAYER_X); [unfold minInt64; lia|].
  destruct (isBoardFull b); [unfold minInt64; lia|].
  rewrite neg64_minInt64. apply foldCells_max_ge_init.
Qed.

Lemma value_truncating_min (fuel : nat) (b : Board) (depth : Z) :
  0 <= depth <= 9 ->
  hasLine3 b AI_O = false -> hasLine3 b PLAYER_X = false -> isBoardFull b = false ->
  value minInt64 (S fuel) b depth false = minInt64.
Proof.
  intros Hd HO HX Hfull. rewrite value_S, HO, HX, Hfull.
  apply Z.le_antisymm; [apply foldCells_min_le_init|].
  apply foldCells_min_ge. split; [lia|]. intros j _ _.
  apply value_truncating_max. lia.
Qed.

Lemma selector_min_sentinel (fuel : nat) (rnd : Rand) (b : Board) (w : string) :
  (10 <= fuel)%nat -> length b = 9%nat ->
  (forall j, emptyAt b j ->
     minimaxWinChecker (<[j := AI_O]> b) AI_O = Ok false /\
     minimaxWinChecker (<[j := AI_O]> b) PLAYER_X = Ok false /\
     isBoardFull (<[j := AI_O]> b) = false) ->
  findBestMoveMinimax minInt64 fuel b = Ok (-1, b) /\
  aiMove minInt64 fuel rnd (mkGameState b 3 w) = Ok (mkGameState b 3 w).
Proof.
  intros Hfuel Hlen Hopen.
  assert (Hsel : findBestMoveMinimax minInt64 fuel b = Ok (-1, b)).
  { unfold findBestMoveMinimax. change 0 with (Z.of_nat 0) at 1.
    pose proof (emptyCount_le_length b).
    rewrite rootLoop_spec by (done || lia).
    destruct (rootFold_seq (fun j => value minInt64 fuel (<[j := AI_O]> b) 0 false)
                b 9 0 (neg64 minInt64) (-1))
      as [[-> _]|(j & _ & Hj & _ & Hgt & _)]; [done|exfalso].
    destruct (Hopen j Hj) as (HO & HX & Hfull).
    rewrite minimaxWinChecker_hasLine3 in HO, HX by (by rewrite length_insert).
    injection HO as HO. injection HX as HX.
    destruct fuel as [|fuel]; [lia|].
    rewrite value_truncating_min, neg64_minInt64 in Hgt by (done || lia). lia. }
  split; [done|]. by apply aiMove_minus_one.
Qed.

(** On a 3x3 board where no move of the AI wins at once or fills the board,
    and the human has no line, the selector returns [-1] and [aiMove] leaves
    the board as it is. *)
Theorem selector_truncating (fuel : nat) (rnd : Rand) (b : Board) (w : string) :
  (10 <= fuel)%nat -> length b = 9%nat ->
  (forall j, emptyAt b j ->
     minimaxWinChecker (<[j := AI_O]> b) AI_O = Ok false /\
     minimaxWinChecker (<[j := AI_O]> b) PLAYER_X = Ok false /\
     isBoardFull (<[j := AI_O]> b) = false) ->
  findBestMoveMinimax minInt64 fuel b = Ok (-1, b) /\
  aiMove minInt64 fuel rnd (mkGameState b 3 w) = Ok (mkGameState b 3 w).
Proof. apply selector_min_sentinel. Qed.

Lemma selector_truncating_witness :
  findBestMoveMinimax minInt64 10 [""; ""; ""; ""; "X"; ""; ""; ""; ""]
    = Ok (-1, [""; ""; ""; ""; "X"; ""; ""; ""; ""]) /\
  aiMove minInt64 10 (mkRand (fun l => l) (fun _ => 0))
    (mkGameState [""; ""; ""; ""; "X"; ""; ""; ""; ""] 3 "")
    = Ok (mkGameState [""; ""; ""; ""; "X"; ""; ""; ""; ""] 3 "").
Proof.
  apply selector_truncating.
  - lia.
  - reflexivity.
  - intros j Hj. pose proof (emptyAt_lt _ _ Hj) as Hlt. simpl in Hlt.
    each_cell j ltac:(try discriminate Hj; vm_compute; auto). lia.
Defined.

(** ** The handler on a 3x3 board after the move of the AI *)

Lemma playHandler_3x3 (intOfInf : Z) (fuel : nat) (rnd : Rand) (b b' : Board) (w : string) :
  length b = 9%nat -> length b' = 9%nat ->
  hasLine3 b PLAYER_X = false -> isBoardFull b = false ->
  aiMove intOfInf fuel rnd (mkGameState b 3 w) = Ok (mkGameState b' 3 w) ->
  playHandler intOfInf fuel rnd (mkGameState b 3 w)
  = Ok (Encoded (if hasLine3 b' AI_O then mkGameState b' 3 AI_O
                 else if isBoardFull b' then mkGameState b' 3 "draw"
                 else mkGameState b' 3 w)).
Proof.
  intros Hlen Hlen' HX Hfull Hai. rewrite playHandler_unfold.
  assert (Hs : sizeMismatch (mkGameState b 3 w) = false).
  { apply sizeMismatch_false_iff. simpl. split; [done|]. rewrite Hlen. by vm_compute. }
  rewrite Hs. unfold gameLogic. simpl gsBoard. simpl gsBoardSize.
  rewrite checkWinner_3, HX by done. unfold rbind at 2. rewrite Hfull, Hai.
  unfold rbind at 2. simpl gsBoard. simpl gsBoardSize.
  rewrite checkWinner_3 by done. unfold rbind at 2.
  destruct (hasLine3 b' AI_O); [done|]. by destruct (isBoardFull b').
Qed.

(** C2, at the value the conversion has on x86-64. The human has opened in a
    corner and eight cells are free, yet the selector returns the sentinel
    [-1], [aiMove] writes nothing, and the handler answers with the board it
    received and no winner. *)
Theorem selector_returns_sentinel_with_free_cells :
  let b := ["X"; ""; ""; ""; ""; ""; ""; ""; ""] in
  isBoardFull b = false /\
  findBestMoveMinimax minInt64 10 b = Ok (-1, b) /\
  (forall rnd, aiMove minInt64 10 rnd (mkGameState b 3 "") = Ok (mkGameState b 3 "")) /\
  (forall rnd, playHandler minInt64 10 rnd (mkGameState b 3 "")
               = Ok (Encoded (mkGameState b 3 ""))).
Proof.
  cbv zeta. split; [reflexivity|].
  assert (H : forall rnd,
    findBestMoveMinimax minInt64 10 ["X"; ""; ""; ""; ""; ""; ""; ""; ""]
      = Ok (-1, ["X"; ""; ""; ""; ""; ""; ""; ""; ""]) /\
    aiMove minInt64 10 rnd (mkGameState ["X"; ""; ""; ""; ""; ""; ""; ""; ""] 3 "")
      = Ok (mkGameState ["X"; ""; ""; ""; ""; ""; ""; ""; ""] 3 "")).
  { intros rnd. apply selector_min_sentinel; [lia|reflexivity|].
    intros j Hj. pose proof (emptyAt_lt _ _ Hj) as Hlt. simpl in Hlt.
    each_cell j ltac:(try discriminate Hj; vm_compute; auto). lia. }
  split; [apply (H (mkRand (fun l => l) (fun _ => 0)))|].
  split; [intros rnd; apply H|].
  intros rnd.
  rewrite (playHandler_3x3 _ _ _ _ ["X"; ""; ""; ""; ""; ""; ""; ""; ""] "");
    [reflexivity|reflexivity|reflexivity|reflexivity|reflexivity|apply H].
Qed.

(** C3, at the value the conversion has on x86-64. On the board of the
    scenario the selector returns [-1], not 2; the handler writes no "O" and
    answers with the board it received. *)
Theorem scenario_block_not_played :
  let b := ["X"; "X"; ""; ""; ""; ""; ""; ""; ""] in
  findBestMoveMinimax minInt64 10 b = Ok (-1, b) /\
  (forall rnd, playHandler minInt64 10 rnd (mkGameState b 3 "")
               = Ok (Encoded (mkGameState b 3 ""))).
Proof.
  cbv zeta.
  assert (H : forall rnd,
    findBestMoveMinimax minInt64 10 ["X"; "X"; ""; ""; ""; ""; ""; ""; ""]
      = Ok (-1, ["X"; "X"; ""; ""; ""; ""; ""; ""; ""]) /\
    aiMove minInt64 10 rnd (mkGameState ["X"; "X"; ""; ""; ""; ""; ""; ""; ""] 3 "")
      = Ok (mkGameState ["X"; "X"; ""; ""; ""; ""; ""; ""; ""] 3 "")).
  { intros rnd. apply selector_min_sentinel; [lia|reflexivity|].
    intros j Hj. pose proof (emptyAt_lt _ _ Hj) as Hlt. simpl in Hlt.
    each_cell j ltac:(try discriminate Hj; vm_compute; auto). lia. }
  split; [apply (H (mkRand (fun l => l) (fun _ => 0)))|].
  intros rnd.
  rewrite (playHandler_3x3 _ _ _ _ ["X"; "X"; ""; ""; ""; ""; ""; ""; ""] "");
    [reflexivity|reflexivity|reflexivity|reflexivity|reflexivity|apply H].
Qed.

(** C4, at the value the conversion has on x86-64. On the board of no marks
    every cell is free and every simulated move scores the minimum integer,
    which is the initial [bestVal]; no score exceeds it and the selector
    returns [-1] instead of cell 0. *)
Theorem selector_ignores_scores :
  let b := [""; ""; ""; ""; ""; ""; ""; ""; ""] in
  findBestMoveMinimax minInt64 10 b = Ok (-1, b) /\
  (forall j, (j < 9)%nat ->
     minimax minInt64 10 (<[j := AI_O]> b) 0 false = Ok (minInt64, <[j := AI_O]> b)).
Proof.
  cbv zeta. split.
  - apply (selector_min_sentinel 10 (mkRand (fun l => l) (fun _ => 0)) _ "");
      [lia|reflexivity|].
    intros j Hj. pose proof (emptyAt_lt _ _ Hj) as Hlt. simpl in Hlt.
    each_cell j ltac:(vm_compute; auto). lia.
  - intros j Hj. rewrite minimax_value.
    + f_equal. f_equal. apply value_truncating_min; [lia|..];
        each_cell j ltac:(reflexivity); lia.
    + by rewrite length_insert.
    + each_cell j ltac:(vm_compute; lia). lia.
Qed.

(** ** The selector where the conversion saturates *)

(** The selector returns a free cell when there is one, and [aiMove] writes
    "O" there; (for every value of the conversion) it returns [-1] when the
    board is full. *)
Theorem selector_returns_free_cell (intOfInf : Z) (fuel : nat) (b : Board) :
  (10 <= fuel)%nat -> length b = 9%nat ->
  (saturates intOfInf -> isBoardFull b = false ->
   exists m, findBestMoveMinimax intOfInf fuel b = Ok (Z.of_nat m, b) /\ emptyAt b m /\
     forall rnd w, aiMove intOfInf fuel rnd (mkGameState b 3 w)
                   = Ok (mkGameState (<[m := AI_O]> b) 3 w))
  /\
  (isBoardFull b = true -> findBestMoveMinimax intOfInf fuel b = Ok (-1, b)).
Proof.
  intros Hfuel Hlen. split.
  - intros Hinf Hfull.
    destruct (findBestMoveMinimax_argmax intOfInf fuel b Hinf Hlen Hfuel Hfull)
      as (m & Hsel & Hm & _).
    exists m. split; [done|]. split; [done|]. intros rnd w. by apply aiMove_free_cell.
  - intros Hfull. pose proof (proj1 (isBoardFull_true_iff b) Hfull) as Hnone.
    destruct (findBestMoveMinimax_total intOfInf fuel b Hlen Hfuel)
      as (m & -> & [->|(j & _ & Hj)]); [done|by destruct (Hnone j)].
Qed.

Lemma selector_returns_free_cell_witness :
  (saturates maxInt64 -> isBoardFull ["X"; "X"; ""; ""; ""; ""; ""; ""; ""] = false ->
   exists m, findBestMoveMinimax maxInt64 10 ["X"; "X"; ""; ""; ""; ""; ""; ""; ""]
             = Ok (Z.of_nat m, ["X"; "X"; ""; ""; ""; ""; ""; ""; ""]) /\
     emptyAt ["X"; "X"; ""; ""; ""; ""; ""; ""; ""] m /\
     forall rnd w, aiMove maxInt64 10 rnd (mkGameState ["X"; "X"; ""; ""; ""; ""; ""; ""; ""] 3 w)
                   = Ok (mkGameState (<[m := AI_O]> ["X"; "X"; ""; ""; ""; ""; ""; ""; ""]) 3 w))
  /\
  (isBoardFull ["X"; "X"; ""; ""; ""; ""; ""; ""; ""] = true ->
   findBestMoveMinimax maxInt64 10 ["X"; "X"; ""; ""; ""; ""; ""; ""; ""]
   = Ok (-1, ["X"; "X"; ""; ""; ""; ""; ""; ""; ""])).
Proof. apply selector_returns_free_cell; [lia|reflexivity]. Defined.

(** The selector returns the free cell of maximal score, the lowest one when
    several reach the maximum; the score of a cell is what [minimax] returns
    for the board with "O" written there, the human to move, at depth 0. *)
Theorem selector_first_maximum (intOfInf : Z) (fuel : nat) (b : Board) :
  saturates intOfInf -> (10 <= fuel)%nat -> length b = 9%nat -> isBoardFull b = false ->
  exists (sc : nat -> Z) (m : nat),
    (forall j, emptyAt b j ->
       minimax intOfInf fuel (<[j := AI_O]> b) 0 false = Ok (sc j, <[j := AI_O]> b)) /\
    findBestMoveMinimax intOfInf fuel b = Ok (Z.of_nat m, b) /\
    emptyAt b m /\
    (forall j, emptyAt b j -> sc j <= sc m) /\
    (forall j, (j < m)%nat -> emptyAt b j -> sc j < sc m).
Proof.
  intros Hinf Hfuel Hlen Hfull.
  destruct (findBestMoveMinimax_argmax intOfInf fuel b Hinf Hlen Hfuel Hfull)
    as (m & Hsel & Hm & Hmax & Hfirst).
  exists (score intOfInf fuel b), m.
  split; [intros j Hj; by apply score_minimax|]. done.
Qed.

Lemma selector_first_maximum_witness :
  exists (sc : nat -> Z) (m : nat),
    (forall j, emptyAt ["X"; "X"; ""; ""; ""; ""; ""; ""; ""] j ->
       minimax maxInt64 10 (<[j := AI_O]> ["X"; "X"; ""; ""; ""; ""; ""; ""; ""]) 0 false
       = Ok (sc j, <[j := AI_O]> ["X"; "X"; ""; ""; ""; ""; ""; ""; ""])) /\
    findBestMoveMinimax maxInt64 10 ["X"; "X"; ""; ""; ""; ""; ""; ""; ""]
      = Ok (Z.of_nat m, ["X"; "X"; ""; ""; ""; ""; ""; ""; ""]) /\
    emptyAt ["X"; "X"; ""; ""; ""; ""; ""; ""; ""] m /\
    (forall j, emptyAt ["X"; "X"; ""; ""; ""; ""; ""; ""; ""] j -> sc j <= sc m) /\
    (forall j, (j < m)%nat -> emptyAt ["X"; "X"; ""; ""; ""; ""; ""; ""; ""] j -> sc j < sc m).
Proof.
  apply selector_first_maximum.
  - unfold saturates. vm_compute. split; [reflexivity|discriminate].
  - lia.
  - reflexivity.
  - reflexivity.
Defined.

(** The scenario of C3 where the conversion saturates: the selector returns
    2, the handler writes "O" at cell 2 and reports no winner. *)
Theorem scenario_block_played (intOfInf : Z) (fuel : nat) (rnd : Rand) :
  saturates intOfInf -> (10 <= fuel)%nat ->
  findBestMoveMinimax intOfInf fuel ["X"; "X"; ""; ""; ""; ""; ""; ""; ""]
    = Ok (2, ["X"; "X"; ""; ""; ""; ""; ""; ""; ""]) /\
  playHandler intOfInf fuel rnd (mkGameState ["X"; "X"; ""; ""; ""; ""; ""; ""; ""] 3 "")
    = Ok (Encoded (mkGameState ["X"; "X"; "O"; ""; ""; ""; ""; ""; ""] 3 "")).
Proof.
  intros Hinf Hfuel.
  assert (Hs : saturates maxInt64) by (unfold saturates; vm_compute; split; [reflexivity|discriminate]).
  assert (Hsel : findBestMoveMinimax intOfInf fuel ["X"; "X"; ""; ""; ""; ""; ""; ""; ""]
                 = Ok (2, ["X"; "X"; ""; ""; ""; ""; ""; ""; ""])).
  { rewrite (findBestMoveMinimax_stable intOfInf maxInt64 fuel 10) by (done || lia).
    vm_compute. reflexivity. }
  split; [done|].
  rewrite (playHandler_3x3 _ _ _ _ ["X"; "X"; "O"; ""; ""; ""; ""; ""; ""] "");
    [reflexivity|reflexivity|reflexivity|reflexivity|reflexivity|].
  change ["X"; "X"; "O"; ""; ""; ""; ""; ""; ""]
    with (<[2%nat := AI_O]> ["X"; "X"; ""; ""; ""; ""; ""; ""; ""]).
  by apply aiMove_free_cell.
Qed.

Lemma scenario_block_played_witness :
  findBestMoveMinimax maxInt64 10 ["X"; "X"; ""; ""; ""; ""; ""; ""; ""]
    = Ok (2, ["X"; "X"; ""; ""; ""; ""; ""; ""; ""]) /\
  playHandler maxInt64 10 (mkRand (fun l => l) (fun _ => 0))
    (mkGameState ["X"; "X"; ""; ""; ""; ""; ""; ""; ""] 3 "")
    = Ok (Encoded (mkGameState ["X"; "X"; "O"; ""; ""; ""; ""; ""; ""] 3 "")).
Proof.
  apply scenario_block_played.
  - unfold saturates. vm_compute. split; [reflexivity|discriminate].
  - lia.
Defined.

(* ================================================================= *)
(** * Further properties of the search and of the handler *)

(** ** A lost position, in terms of the scores *)

Lemma lost_iff_scores (intOfInf : Z) (fuel : nat) (b : Board) :
  saturates intOfInf -> (10 <= fuel)%nat ->
  length b = 9%nat -> hasLine3 b PLAYER_X = false ->
  AlreadyLost b <-> forall j, emptyAt b j -> score intOfInf fuel b j < 0.
Proof.
  intros Hinf Hfuel Hlen HX.
  assert (Hkid : forall j, emptyAt b j ->
            (score intOfInf fuel b j < 0 <->
             ~ wins (<[j := AI_O]> b) AI_O /\ HumanForces (<[j := AI_O]> b))).
  { intros j Hj.
    pose proof (emptyCount_insert b j AI_O Hj eq_refl) as Hcount.
    pose proof (emptyCount_le_length b) as Hle. rewrite Hlen in Hle.
    destruct (value_sign intOfInf fuel Hinf (<[j := AI_O]> b) 0) as [Hmin _];
      [by rewrite length_insert|lia|lia|lia|].
    unfold score. rewrite Hmin by (by rewrite hasLine3_insert_empty).
    by rewrite not_wins_hasLine3 by (by rewrite length_insert). }
  split.
  - intros Hlost j Hj. apply Hkid; [done|]. by apply Hlost.
  - intros Hneg j Hj. apply Hkid; [done|]. by apply Hneg.
Qed.



Lemma not_lost_by_reply (b : Board) (j : nat) :
  length b = 9%nat -> hasLine3 b PLAYER_X = false -> emptyAt b j ->
  score maxInt64 10 b j = 0 -> ~ AlreadyLost b.
Proof.
  intros Hlen HX Hj Hscore Hlost.
  assert (Hs : saturates maxInt64)
    by (unfold saturates; vm_compute; split; [reflexivity|discriminate]).
  pose proof (proj1 (lost_iff_scores maxInt64 10 b Hs ltac:(lia) Hlen HX) Hlost j Hj).
  lia.
Qed.

(** ** Games from the empty board *)

(** The AI opening the game on the empty board never loses it. *)
Theorem ai_opening_never_loses (intOfInf : Z) (fuel : nat) :
  saturates intOfInf -> (10 <= fuel)%nat ->
  NeverLoses intOfInf fuel [""; ""; ""; ""; ""; ""; ""; ""; ""].
Proof.
  intros Hinf Hfuel.
  apply never_loses_if_not_lost; [done|done|reflexivity|reflexivity|reflexivity|].
  apply empty_board_not_lost.
Qed.

Lemma ai_opening_never_loses_witness :
  NeverLoses maxInt64 10 [""; ""; ""; ""; ""; ""; ""; ""; ""].
Proof.
  apply ai_opening_never_loses.
  - unfold saturates. vm_compute. split; [reflexivity|discriminate].
  - lia.
Defined.

(** Whatever cell the human opens with, the AI answering with the selector
    never loses the game. *)
Theorem reply_to_opening_never_loses (intOfInf : Z) (fuel : nat) (i : nat) :
  saturates intOfInf -> (10 <= fuel)%nat -> (i < 9)%nat ->
  NeverLoses intOfInf fuel (<[i := PLAYER_X]> [""; ""; ""; ""; ""; ""; ""; ""; ""]).
Proof.
  intros Hinf Hfuel Hi.
  apply never_loses_if_not_lost; [done|done|by rewrite length_insert| | |].
  - each_cell i ltac:(reflexivity). lia.
  - each_cell i ltac:(reflexivity). lia.
  - destruct (decide (i = 4%nat)) as [->|Hne].
    + apply (not_lost_by_reply _ 0); [reflexivity|reflexivity|reflexivity|].
      vm_compute. reflexivity.
    + apply (not_lost_by_reply _ 4); [by rewrite length_insert| | |].
      * each_cell i ltac:(reflexivity). lia.
      * each_cell i ltac:(first [reflexivity | lia]). lia.
      * each_cell i ltac:(first [lia | vm_compute; reflexivity]). lia.
Qed.

Lemma reply_to_opening_never_loses_witness :
  NeverLoses maxInt64 10 (<[0%nat := PLAYER_X]> [""; ""; ""; ""; ""; ""; ""; ""; ""]).
Proof.
  apply reply_to_opening_never_loses.
  - unfold saturates. vm_compute. split; [reflexivity|discriminate].
  - lia.
  - lia.
Defined.

(** ** The search hands the board back *)

(** With fuel above the number of free cells, [minimax] returns: its result
    is the score [value], and the board it returns is the board it was
    given, every mark it placed being removed again. *)
Theorem minimax_returns_and_restores (intOfInf : Z) (fuel : nat) (b : Board)
    (depth : Z) (isMaximizing : bool) :
  length b = 9%nat -> (emptyCount b < fuel)%nat ->
  minimax intOfInf fuel b depth isMaximizing
  = Ok (value intOfInf fuel b depth isMaximizing, b).
Proof. apply minimax_value. Qed.

Lemma minimax_returns_and_restores_witness :
  minimax maxInt64 4 ["X"; "O"; "X"; "O"; "X"; "O"; ""; ""; ""] 0 true
  = Ok (value maxInt64 4 ["X"; "O"; "X"; "O"; "X"; "O"; ""; ""; ""] 0 true,
        ["X"; "O"; "X"; "O"; "X"; "O"; ""; ""; ""]).
Proof.
  apply minimax_returns_and_restores.
  - reflexivity.
  - vm_compute. lia.
Defined.

(** ** The handler's gates *)

Lemma handler_gates (intOfInf : Z) (fuel : nat) (rnd : Rand) (b : Board) (n : Z)
    (w : string) :
  n <> 0 -> Z.of_nat (length b) = n * n -> n * n <= maxInt64 ->
  playHandler intOfInf fuel rnd (mkGameState b n w) =
  if hasLine b PLAYER_X (Z.to_nat n) then Ok (Encoded (mkGameState b n PLAYER_X))
  else if isBoardFull b then Ok (Encoded (mkGameState b n "draw"))
  else
    let* st := (let* moved := aiMove intOfInf fuel rnd (mkGameState b n w) in
                let* aiWon := checkWinner (gsBoard moved) AI_O (gsBoardSize moved) in
                if aiWon then Ok (setWinner moved AI_O)
                else if isBoardFull (gsBoard moved) then Ok (setWinner moved "draw")
                else Ok moved) in
    Ok (Encoded st).
Proof.
  intros Hn Hlen Hmax. rewrite playHandler_unfold.
  assert (Hs : sizeMismatch (mkGameState b n w) = false)
    by (by apply sizeMismatch_false_exact).
  rewrite Hs. unfold gameLogic. simpl gsBoard. simpl gsBoardSize.
  rewrite checkWinner_spec by done. unfold rbind at 2.
  destruct (hasLine b PLAYER_X (Z.to_nat n)); [done|].
  by destruct (isBoardFull b).
Qed.

(** A board on which the human already has a line comes back unchanged with
    the winner "X": the selector is not run. *)
Theorem handler_reports_human_win (intOfInf : Z) (fuel : nat) (rnd : Rand)
    (b : Board) (n : Z) (w : string) :
  n <> 0 -> Z.of_nat (length b) = n * n -> n * n <= maxInt64 ->
  checkWinner b PLAYER_X n = Ok true ->
  playHandler intOfInf fuel rnd (mkGameState b n w)
  = Ok (Encoded (mkGameState b n PLAYER_X)).
Proof.
  intros Hn Hlen Hmax HX. rewrite handler_gates by done.
  rewrite checkWinner_spec in HX by done. injection HX as ->. done.
Qed.

Lemma handler_reports_human_win_witness :
  playHandler minInt64 10 (mkRand (fun l => l) (fun _ => 0))
    (mkGameState ["X"; "X"; "X"; "O"; "O"; ""; ""; ""; ""] 3 "")
  = Ok (Encoded (mkGameState ["X"; "X"; "X"; "O"; "O"; ""; ""; ""; ""] 3 PLAYER_X)).
Proof.
  apply handler_reports_human_win.
  - discriminate.
  - reflexivity.
  - vm_compute. discriminate.
  - reflexivity.
Defined.

(** A full board without a line of the human comes back unchanged with the
    winner "draw", for any size: the selector is not run. *)
Theorem handler_reports_draw (intOfInf : Z) (fuel : nat) (rnd : Rand)
    (b : Board) (n : Z) (w : string) :
  n <> 0 -> Z.of_nat (length b) = n * n -> n * n <= maxInt64 ->
  checkWinner b PLAYER_X n = Ok false -> isBoardFull b = true ->
  playHandler intOfInf fuel rnd (mkGameState b n w)
  = Ok (Encoded (mkGameState b n "draw")).
Proof.
  intros Hn Hlen Hmax HX Hfull. rewrite handler_gates by done.
  rewrite checkWinner_spec in HX by done. injection HX as ->. by rewrite Hfull.
Qed.

Lemma handler_reports_draw_witness :
  playHandler minInt64 10 (mkRand (fun l => l) (fun _ => 0))
    (mkGameState ["X"; "O"; "X"; "X"; "O"; "O"; "O"; "X"; "X"] 3 "")
  = Ok (Encoded (mkGameState ["X"; "O"; "X"; "X"; "O"; "O"; "O"; "X"; "X"] 3 "draw")).
Proof.
  apply handler_reports_draw.
  - discriminate.
  - reflexivity.
  - vm_compute. discriminate.
  - reflexivity.
  - reflexivity.
Defined.

(** A negative size whose square is the board's length passes the check,
    and then no loop of [checkWinner] runs, its diagonal flags stay true and
    the handler reports the winner "X" on any such board. *)
Theorem negative_size_reports_human_win (intOfInf : Z) (fuel : nat) (rnd : Rand)
    (b : Board) (n : Z) (w : string) :
  n < 0 -> Z.of_nat (length b) = n * n -> n * n <= maxInt64 ->
  playHandler intOfInf fuel rnd (mkGameState b n w)
  = Ok (Encoded (mkGameState b n PLAYER_X)).
Proof.
  intros Hn Hlen Hmax. rewrite handler_gates by (done || lia).
  replace (Z.to_nat n) with 0%nat by lia. by rewrite hasLine_0.
Qed.

Lemma negative_size_reports_human_win_witness :
  playHandler minInt64 10 (mkRand (fun l => l) (fun _ => 0))
    (mkGameState [""; ""; ""; ""; ""; ""; ""; ""; ""] (-3) "")
  = Ok (Encoded (mkGameState [""; ""; ""; ""; ""; ""; ""; ""; ""] (-3) PLAYER_X)).
Proof.
  apply negative_size_reports_human_win.
  - lia.
  - reflexivity.
  - vm_compute. discriminate.
Defined.

(** A size of 0 is rejected whatever the board, and among the sizes whose
    square fits in 64 bits the check passes exactly when the size is not 0
    and the length is its square. *)
Theorem size_check_exact (intOfInf : Z) (fuel : nat) (rnd : Rand) (st : GameState) :
  gsBoardSize st * gsBoardSize st <= maxInt64 ->
  (playHandler intOfInf fuel rnd st = Ok BadRequest <->
   gsBoardSize st = 0 \/
   Z.of_nat (length (gsBoard st)) <> gsBoardSize st * gsBoardSize st).
Proof.
  intros Hmax. rewrite playHandler_unfold.
  pose proof (sizeMismatch_false_exact st Hmax) as Hex.
  destruct (sizeMismatch st) eqn:E.
  - split; [|done]. intros _.
    destruct (decide (gsBoardSize st = 0)) as [|Hn]; [by left|]. right.
    intros Hlen. assert (true = false) by (by apply Hex). discriminate.
  - destruct (proj1 Hex eq_refl) as [Hn Hlen]. split.
    + destruct (gameLogic intOfInf fuel rnd st); discriminate.
    + intros [?|?]; done.
Qed.

Lemma size_check_exact_witness :
  playHandler minInt64 10 (mkRand (fun l => l) (fun _ => 0))
    (mkGameState ["X"; ""; ""] 3 "") = Ok BadRequest <->
  gsBoardSize (mkGameState ["X"; ""; ""] 3 "") = 0 \/
  Z.of_nat (length (gsBoard (mkGameState ["X"; ""; ""] 3 "")))
  <> gsBoardSize (mkGameState ["X"; ""; ""] 3 "") * gsBoardSize (mkGameState ["X"; ""; ""] 3 "").
Proof.
  apply size_check_exact. vm_compute. discriminate.
Defined.

(** ** The fuel does not matter, whatever the conversion yields *)

Lemma value_fuel (intOfInf : Z) (fuel fuel' : nat) (b : Board) (depth : Z)
    (isMaximizing : bool) :
  (emptyCount b < fuel)%nat -> (emptyCount b < fuel')%nat ->
  value intOfInf fuel b depth isMaximizing = value intOfInf fuel' b depth isMaximizing.
Proof.
  revert fuel' b depth isMaximizing.
  induction fuel as [|fuel IH]; intros fuel' b depth isMax Hf Hf'; [lia|].
  destruct fuel' as [|fuel']; [lia|]. rewrite !value_S.
  destruct (hasLine3 b AI_O); [done|].
  destruct (hasLine3 b PLAYER_X); [done|].
  destruct (isBoardFull b); [done|].
  destruct isMax; apply foldCells_ext; intros j _ Hj; apply IH.
  - pose proof (emptyCount_insert b j AI_O Hj eq_refl). lia.
  - pose proof (emptyCount_insert b j AI_O Hj eq_refl). lia.
  - pose proof (emptyCount_insert b j PLAYER_X Hj eq_refl). lia.
  - pose proof (emptyCount_insert b j PLAYER_X Hj eq_refl). lia.
Qed.

Lemma rootFold_ext (cv cv' : nat -> Z) (b : Board) (js : list nat) (st : Z * Z) :
  (forall j, j ∈ js -> emptyAt b j -> cv j = cv' j) ->
  rootFold cv b js st = rootFold cv' b js st.
Proof.
  revert st. induction js as [|j js IH]; intros st Hext; [done|].
  rewrite !rootFold_cons.
  assert (Hstep : rootStep cv b st j = rootStep cv' b st j).
  { unfold rootStep. destruct (marked b j EMPTY) eqn:E; [|done].
    rewrite (Hext j); [done|by left|by apply marked_empty_iff]. }
  rewrite Hstep. apply IH. intros j' Hj'. apply Hext. by right.
Qed.

Lemma findBestMoveMinimax_fuel (intOfInf : Z) (fuel fuel' : nat) (b : Board) :
  length b = 9%nat -> (10 <= fuel)%nat -> (10 <= fuel')%nat ->
  findBestMoveMinimax intOfInf fuel b = findBestMoveMinimax intOfInf fuel' b.
Proof.
  intros Hlen Hf Hf'. unfold findBestMoveMinimax.
  pose proof (emptyCount_le_length b) as Hle. rewrite Hlen in Hle.
  change (rootLoop intOfInf fuel 9 0) with (rootLoop intOfInf fuel 9 (Z.of_nat 0)).
  change (rootLoop intOfInf fuel' 9 0) with (rootLoop intOfInf fuel' 9 (Z.of_nat 0)).
  rewrite !rootLoop_spec by (done || lia).
  rewrite (rootFold_ext _ (fun j => value intOfInf fuel' (<[j := AI_O]> b) 0 false)); [done|].
  intros j _ Hj. pose proof (emptyCount_insert b j AI_O Hj eq_refl).
  apply value_fuel; lia.
Qed.

(** ** Scenarios *)

(** On the board "O","O" and seven free cells the selector returns 2 and the
    handler reports the winner "O", with either value of the conversion: the
    winning move is terminal, so its score 10 is above the initial best. *)
Theorem scenario_ai_wins (intOfInf : Z) (fuel : nat) (rnd : Rand) :
  intOfInf = minInt64 \/ saturates intOfInf -> (10 <= fuel)%nat ->
  findBestMoveMinimax intOfInf fuel ["O"; "O"; ""; ""; ""; ""; ""; ""; ""]
    = Ok (2, ["O"; "O"; ""; ""; ""; ""; ""; ""; ""]) /\
  playHandler intOfInf fuel rnd (mkGameState ["O"; "O"; ""; ""; ""; ""; ""; ""; ""] 3 "")
    = Ok (Encoded (mkGameState ["O"; "O"; "O"; ""; ""; ""; ""; ""; ""] 3 "O")).
Proof.
  intros Hinf Hfuel.
  assert (Hsel : findBestMoveMinimax intOfInf fuel ["O"; "O"; ""; ""; ""; ""; ""; ""; ""]
                 = Ok (2, ["O"; "O"; ""; ""; ""; ""; ""; ""; ""])).
  { destruct Hinf as [->|Hinf].
    - rewrite (findBestMoveMinimax_fuel minInt64 fuel 10) by (done || lia).
      vm_compute. reflexivity.
    - assert (Hs : saturates maxInt64)
        by (unfold saturates; vm_compute; split; [reflexivity|discriminate]).
      rewrite (findBestMoveMinimax_stable intOfInf maxInt64 fuel 10) by (done || lia).
      vm_compute. reflexivity. }
  split; [done|].
  rewrite (playHandler_3x3 _ _ _ _ ["O"; "O"; "O"; ""; ""; ""; ""; ""; ""] "");
    [reflexivity|reflexivity|reflexivity|reflexivity|reflexivity|].
  change ["O"; "O"; "O"; ""; ""; ""; ""; ""; ""]
    with (<[2%nat := AI_O]> ["O"; "O"; ""; ""; ""; ""; ""; ""; ""]).
  by apply aiMove_free_cell.
Qed.

Lemma scenario_ai_wins_witness :
  findBestMoveMinimax minInt64 10 ["O"; "O"; ""; ""; ""; ""; ""; ""; ""]
    = Ok (2, ["O"; "O"; ""; ""; ""; ""; ""; ""; ""]) /\
  playHandler minInt64 10 (mkRand (fun l => l) (fun _ => 0))
    (mkGameState ["O"; "O"; ""; ""; ""; ""; ""; ""; ""] 3 "")
    = Ok (Encoded (mkGameState ["O"; "O"; "O"; ""; ""; ""; ""; ""; ""] 3 "O")).
Proof.
  apply scenario_ai_wins.
  - left. reflexivity.
  - lia.
Defined.

(** On the 4x4 board of no marks the heuristic finds nothing to win or to
    block and takes the cell 16 / 2 = 8, whatever the random source; the
    handler writes "O" there and reports no winner. *)
Theorem scenario_empty_4x4 (intOfInf : Z) (fuel : nat) (rnd : Rand) :
  findBestMoveHeuristic rnd (replicate 16 EMPTY) 4 = Ok 8 /\
  playHandler intOfInf fuel rnd (mkGameState (replicate 16 EMPTY) 4 "")
    = Ok (Encoded (mkGameState (<[8%nat := AI_O]> (replicate 16 EMPTY)) 4 "")).
Proof. split; vm_compute; reflexivity. Qed.

(* ================================================================= *)
(** * The rest of the variable-size server *)

(** ** [getEmptySpots] *)

Lemma emptySpotsFrom_iff (i : nat) (b : Board) (m : Z) :
  m ∈ emptySpotsFrom (Z.of_nat i) b <->
  exists j, m = Z.of_nat (i + j) /\ emptyAt b j.
Proof.
  split; [apply emptySpotsFrom_elem|].
  revert i. induction b as [|c b IH]; intros i (j & -> & Hj); [by inversion Hj|].
  simpl. replace (Z.of_nat i + 1) with (Z.of_nat (S i)) by lia.
  destruct j as [|j].
  - unfold emptyAt in Hj. simpl in Hj. injection Hj as ->. simpl.
    replace (i + 0)%nat with i by lia. by left.
  - assert (Hin : Z.of_nat (i + S j) ∈ emptySpotsFrom (Z.of_nat (S i)) b).
    { apply IH. exists j. split; [f_equal; lia|done]. }
    destruct (String.eqb c EMPTY); [by right|done].
Qed.

Lemma emptySpotsFrom_sorted (i : nat) (b : Board) :
  StronglySorted Z.lt (emptySpotsFrom (Z.of_nat i) b).
Proof.
  revert i. induction b as [|c b IH]; intros i; simpl; [constructor|].
  replace (Z.of_nat i + 1) with (Z.of_nat (S i)) by lia.
  destruct (String.eqb c EMPTY); [|apply IH].
  constructor; [apply IH|]. apply Forall_forall. intros m Hm.
  apply emptySpotsFrom_elem in Hm as (j & -> & _). lia.
Qed.

(** [getEmptySpots] lists exactly the indices of the free cells, each once
    and in increasing order; it is empty exactly when [isBoardFull] holds. *)
Theorem getEmptySpots_exact (b : Board) :
  (forall m, m ∈ getEmptySpots b <-> exists j, m = Z.of_nat j /\ emptyAt b j) /\
  StronglySorted Z.lt (getEmptySpots b) /\
  (getEmptySpots b = [] <-> isBoardFull b = true).
Proof.
  split; [|split].
  - intros m. unfold getEmptySpots. change 0 with (Z.of_nat 0).
    by rewrite emptySpotsFrom_iff.
  - unfold getEmptySpots. change 0 with (Z.of_nat 0). apply emptySpotsFrom_sorted.
  - rewrite <- getEmptySpots_length_0. by destruct (getEmptySpots b).
Qed.

(** ** The N-scan checker and the lines of the board *)

Lemma allN_true_iff (k i : nat) (f : nat -> bool) :
  allN k i f = true <-> forall j, (i <= j < i + k)%nat -> f j = true.
Proof.
  revert i. induction k as [|k IH]; intros i; simpl.
  - split; [intros _ j Hj; lia|done].
  - rewrite andb_true_iff, IH. split.
    + intros [H1 H2] j Hj. destruct (decide (j = i)) as [->|]; [done|]. apply H2. lia.
    + intros H. split; [apply H; lia|]. intros j Hj. apply H. lia.
Qed.

Lemma anyN_true_iff (k i : nat) (f : nat -> bool) :
  anyN k i f = true <-> exists j, (i <= j < i + k)%nat /\ f j = true.
Proof.
  revert i. induction k as [|k IH]; intros i; simpl.
  - split; [done|]. intros (j & Hj & _). lia.
  - rewrite orb_true_iff, IH. split.
    + intros [H|(j & Hj & H)]; [exists i; split; [lia|done]|exists j; split; [lia|done]].
    + intros (j & Hj & H). destruct (decide (j = i)) as [->|]; [by left|].
      right. exists j. split; [lia|done].
Qed.

Lemma marked_true_iff (b : Board) (j : nat) (p : string) :
  marked b j p = true <-> b !! j = Some p.
Proof.
  unfold marked. destruct (b !! j) as [s|]; [|done].
  rewrite String.eqb_eq. split; [by intros ->|by intros [= ->]].
Qed.

Lemma hasLine_Line (b : Board) (p : string) (N : nat) :
  hasLine b p N = true <-> Line b p N.
Proof.
  unfold hasLine, Line. rewrite !orb_true_iff, !anyN_true_iff, !allN_true_iff.
  split.
  - intros [[[(r & Hr & H)|(c & Hc & H)]|H]|H].
    + left. exists r. split; [lia|]. intros c Hc. apply marked_true_iff.
      apply allN_true_iff with (j := c) in H; [done|lia].
    + right; left. exists c. split; [lia|]. intros r Hr. apply marked_true_iff.
      apply allN_true_iff with (j := r) in H; [done|lia].
    + right; right; left. intros i Hi. apply marked_true_iff. apply H. lia.
    + right; right; right. intros i Hi. apply marked_true_iff. apply H. lia.
  - intros [(r & Hr & H)|[(c & Hc & H)|[H|H]]].
    + left; left; left. exists r. split; [lia|]. apply allN_true_iff.
      intros c Hc. apply marked_true_iff. apply H. lia.
    + left; left; right. exists c. split; [lia|]. apply allN_true_iff.
      intros r Hr. apply marked_true_iff. apply H. lia.
    + left; right. intros i Hi. apply marked_true_iff. apply H. lia.
    + right. intros i Hi. apply marked_true_iff. apply H. lia.
Qed.

(** On a board of [n * n] cells [checkWinner] returns, without reading
    outside the board, and it returns [true] exactly when some row, some
    column or one of the two diagonals holds the mark in every cell. *)
Theorem checkWinner_iff_line (b : Board) (p : string) (n : Z) :
  Z.of_nat (length b) = n * n -> n * n <= maxInt64 ->
  (checkWinner b p n = Ok true \/ checkWinner b p n = Ok false) /\
  (checkWinner b p n = Ok true <-> Line b p (Z.to_nat n)).
Proof.
  intros Hlen Hmax. rewrite checkWinner_spec by done. split.
  - destruct (hasLine b p (Z.to_nat n)); [by left|by right].
  - rewrite <- hasLine_Line. split; [by intros [= ->]|by intros ->].
Qed.

Lemma checkWinner_iff_line_witness :
  (checkWinner ["X"; "O"; ""; "O"; "X"; ""; ""; ""; "X"] "X" 3 = Ok true \/
   checkWinner ["X"; "O"; ""; "O"; "X"; ""; ""; ""; "X"] "X" 3 = Ok false) /\
  (checkWinner ["X"; "O"; ""; "O"; "X"; ""; ""; ""; "X"] "X" 3 = Ok true <->
   Line ["X"; "O"; ""; "O"; "X"; ""; ""; ""; "X"] "X" (Z.to_nat 3)).
Proof.
  apply checkWinner_iff_line.
  - reflexivity.
  - vm_compute. discriminate.
Defined.

Lemma hasLine_mono2 (b b' : Board) (p q : string) (n : nat) :
  (forall j, marked b j p = true -> marked b' j q = true) ->
  hasLine b p n = true -> hasLine b' q n = true.
Proof.
  intros H. unfold hasLine. rewrite !orb_true_iff.
  intros [[[H1|H1]|H1]|H1].
  - left; left; left. revert H1. apply anyN_mono. intros r. apply allN_mono. intros c. apply H.
  - left; left; right. revert H1. apply anyN_mono. intros c. apply allN_mono. intros r. apply H.
  - left; right. revert H1. apply allN_mono. intros i. apply H.
  - right. revert H1. apply allN_mono. intros i. apply H.
Qed.

Lemma marked_relabel (p q : string) (b : Board) (j : nat) :
  marked b j p = true -> marked (relabel p q b) j q = true.
Proof.
  unfold marked, relabel. rewrite list_lookup_fmap.
  destruct (b !! j) as [s|]; [|done]. simpl. intros ->. apply String.eqb_refl.
Qed.

Lemma marked_relabel_back (p q : string) (b : Board) (j : nat) :
  q ∉ b -> marked (relabel p q b) j q = true -> marked b j p = true.
Proof.
  unfold marked, relabel. rewrite list_lookup_fmap. intros Hq.
  destruct (b !! j) as [s|] eqn:E; [|done]. simpl.
  destruct (String.eqb_spec s p) as [->|Hsp]; [done|].
  intros H. apply String.eqb_eq in H as ->.
  exfalso. apply Hq. by eapply list_elem_of_lookup_2.
Qed.

(** The checker does not depend on which mark it is asked about: replacing
    a mark by another one throughout the board keeps every line of it, and
    when the new mark was not on the board the checker answers for the new
    mark on the new board what it answered for the old mark on the old one. *)
Theorem checkWinner_relabel (b : Board) (p q : string) (n : Z) :
  Z.of_nat (length b) = n * n -> n * n <= maxInt64 ->
  (checkWinner b p n = Ok true -> checkWinner (relabel p q b) q n = Ok true) /\
  (q ∉ b -> checkWinner (relabel p q b) q n = checkWinner b p n).
Proof.
  intros Hlen Hmax.
  assert (Hlen' : Z.of_nat (length (relabel p q b)) = n * n)
    by (unfold relabel; by rewrite length_fmap).
  rewrite !checkWinner_spec by done. split.
  - intros [= H]. f_equal. revert H. apply hasLine_mono2. intros j. apply marked_relabel.
  - intros Hq. f_equal.
    destruct (hasLine b p (Z.to_nat n)) eqn:E.
    + revert E. apply hasLine_mono2. intros j. apply marked_relabel.
    + destruct (hasLine (relabel p q b) q (Z.to_nat n)) eqn:E'; [|done].
      rewrite <- E. symmetry. revert E'. apply hasLine_mono2.
      intros j. by apply marked_relabel_back.
Qed.

Lemma checkWinner_relabel_witness :
  (checkWinner ["X"; "X"; "X"; "O"; ""; "O"; ""; ""; ""] "X" 3 = Ok true ->
   checkWinner (relabel "X" "A" ["X"; "X"; "X"; "O"; ""; "O"; ""; ""; ""]) "A" 3 = Ok true) /\
  ("A" ∉ ["X"; "X"; "X"; "O"; ""; "O"; ""; ""; ""] ->
   checkWinner (relabel "X" "A" ["X"; "X"; "X"; "O"; ""; "O"; ""; ""; ""]) "A" 3
   = checkWinner ["X"; "X"; "X"; "O"; ""; "O"; ""; ""; ""] "X" 3).
Proof.
  apply checkWinner_relabel.
  - reflexivity.
  - vm_compute. discriminate.
Defined.

(** ** The heuristic selector: what it returns, and its later stages *)

(** On a board of [n * n] cells the heuristic returns, without reading
    outside the board or the list of free cells: it returns -1 exactly when
    the board is full, and the index of a free cell otherwise. *)
Theorem heuristic_returns_free_cell (rnd : Rand) (b : Board) (n : Z) :
  RandOk rnd -> Z.of_nat (length b) = n * n -> n * n <= maxInt64 ->
  exists m, findBestMoveHeuristic rnd b n = Ok m /\
            (m = -1 <-> isBoardFull b = true) /\
            (m <> -1 -> 0 <= m /\ emptyAt b (Z.to_nat m)).
Proof.
  intros Hrnd Hlen Hmax.
  destruct (findBestMoveHeuristic_total rnd b n Hrnd Hlen Hmax) as [[Hfull ->]|(j & -> & Hj)].
  - exists (-1). split; [done|]. split; [done|]. done.
  - exists (Z.of_nat j). split; [done|]. split.
    + split; [lia|]. intros Hfull. by destruct (proj1 (isBoardFull_true_iff b) Hfull j).
    + intros _. split; [lia|]. by rewrite Nat2Z.id.
Qed.

Lemma heuristic_returns_free_cell_witness :
  exists m, findBestMoveHeuristic (mkRand (fun l => l) (fun _ => 0))
              ["X"; "O"; "X"; "O"] 2 = Ok m /\
            (m = -1 <-> isBoardFull ["X"; "O"; "X"; "O"] = true) /\
            (m <> -1 -> 0 <= m /\ emptyAt ["X"; "O"; "X"; "O"] (Z.to_nat m)).
Proof.
  apply heuristic_returns_free_cell.
  - split; [done|]. intros k Hk. simpl. lia.
  - reflexivity.
  - vm_compute. discriminate.
Defined.

Lemma no_completes_by_search (b : Board) (mark : string) (n : Z) :
  Z.of_nat (length b) = n * n -> n * n <= maxInt64 ->
  findFrom (length b) 0 (completesb b mark (Z.to_nat n)) = None ->
  forall j, ~ completes b mark n j.
Proof.
  intros Hlen Hmax E. pose proof (findFrom_first b mark n Hlen Hmax) as H.
  by rewrite E in H.
Qed.

(** When no free cell completes a line for either mark, the heuristic takes
    the cell [n * n / 2] if it is free and otherwise one of the four corners
    if one of them is free; in every case a free cell. *)
Theorem heuristic_center_then_corner (rnd : Rand) (b : Board) (n : Z) :
  RandOk rnd -> Z.of_nat (length b) = n * n -> n * n <= maxInt64 -> 1 <= n ->
  isBoardFull b = false ->
  (forall j, ~ completes b AI_O n j) -> (forall j, ~ completes b PLAYER_X n j) ->
  exists j, findBestMoveHeuristic rnd b n = Ok (Z.of_nat j) /\ emptyAt b j /\
    (emptyAt b (Z.to_nat (n * n / 2)) -> j = Z.to_nat (n * n / 2)) /\
    (~ emptyAt b (Z.to_nat (n * n / 2)) ->
     (exists c, c ∈ [0; n - 1; n * (n - 1); n * n - 1] /\ emptyAt b (Z.to_nat c)) ->
     Z.of_nat j ∈ [0; n - 1; n * (n - 1); n * n - 1]).
Proof.
  intros Hrnd Hlen Hmax Hn Hfull HnoO HnoX.
  destruct (heuristic_priorities rnd b n Hlen Hmax Hfull) as (_ & _ & Hrest).
  rewrite (Hrest HnoO HnoX).
  destruct (centerCornerRandom_spec rnd b n Hrnd Hlen Hmax Hn Hfull)
    as (j & Hsel & Hj & Hcenter & Hcorner).
  exists j. split; [done|]. split; [done|]. split; [done|].
  intros Hc (c & Hc1 & Hc2). destruct (Hcorner Hc) as [H|H]; [done|].
  by destruct (H c Hc1).
Qed.

Lemma heuristic_center_then_corner_witness :
  exists j,
    findBestMoveHeuristic (mkRand (fun l => l) (fun _ => 0))
      [""; ""; ""; ""; ""; ""; ""; ""; "X"; ""; ""; ""; ""; ""; ""; ""] 4 = Ok (Z.of_nat j) /\
    emptyAt [""; ""; ""; ""; ""; ""; ""; ""; "X"; ""; ""; ""; ""; ""; ""; ""] j /\
    (emptyAt [""; ""; ""; ""; ""; ""; ""; ""; "X"; ""; ""; ""; ""; ""; ""; ""]
       (Z.to_nat (4 * 4 / 2)) -> j = Z.to_nat (4 * 4 / 2)) /\
    (~ emptyAt [""; ""; ""; ""; ""; ""; ""; ""; "X"; ""; ""; ""; ""; ""; ""; ""]
         (Z.to_nat (4 * 4 / 2)) ->
     (exists c, c ∈ [0; 4 - 1; 4 * (4 - 1); 4 * 4 - 1] /\
        emptyAt [""; ""; ""; ""; ""; ""; ""; ""; "X"; ""; ""; ""; ""; ""; ""; ""] (Z.to_nat c)) ->
     Z.of_nat j ∈ [0; 4 - 1; 4 * (4 - 1); 4 * 4 - 1]).
Proof.
  apply heuristic_center_then_corner.
  - split; [done|]. intros k Hk. simpl. lia.
  - reflexivity.
  - vm_compute. discriminate.
  - lia.
  - reflexivity.
  - apply no_completes_by_search; [reflexivity|vm_compute; discriminate|reflexivity].
  - apply no_completes_by_search; [reflexivity|vm_compute; discriminate|reflexivity].
Defined.

(** ** The handler on the requests that pass the size check *)

Lemma hasLine_insert_empty (b : Board) (m : nat) (q p : string) (N : nat) :
  emptyAt b m -> String.eqb EMPTY p = false -> String.eqb q p = false ->
  hasLine (<[m := q]> b) p N = hasLine b p N.
Proof.
  intros Hm Hp Hq.
  assert (Hmark : forall j, marked (<[m := q]> b) j p = marked b j p).
  { intros j. apply marked_insert_other; [|done]. by apply emptyAt_not_marked. }
  destruct (hasLine b p N) eqn:E.
  - revert E. apply hasLine_mono. intros j. by rewrite Hmark.
  - destruct (hasLine (<[m := q]> b) p N) eqn:E'; [|done].
    rewrite <- E. symmetry. revert E'. apply hasLine_mono. intros j. by rewrite Hmark.
Qed.

(** Every request that passes the size check, with a size whose square fits
    in 64 bits, is answered. The answered board is the request's board or
    that board with "O" in one free cell, and the size is the request's.
    The winner is "X" (the human had a line; the board is unchanged), "draw"
    (the answered board is full and the human has no line), "O" (the AI has
    a line on the answered board), or the winner field of the request,
    whatever it was (the answered board has a free cell and no line). *)
Theorem handler_outcomes (intOfInf : Z) (fuel : nat) (rnd : Rand) (b : Board)
    (n : Z) (w : string) :
  (10 <= fuel)%nat -> RandOk rnd ->
  n <> 0 -> Z.of_nat (length b) = n * n -> n * n <= maxInt64 ->
  exists b' w',
    playHandler intOfInf fuel rnd (mkGameState b n w)
      = Ok (Encoded (mkGameState b' n w')) /\
    (b' = b \/ exists m, emptyAt b m /\ b' = <[m := AI_O]> b) /\
    ((w' = PLAYER_X /\ b' = b /\ checkWinner b PLAYER_X n = Ok true) \/
     (w' = "draw" /\ isBoardFull b' = true /\ checkWinner b' PLAYER_X n = Ok false) \/
     (w' = AI_O /\ checkWinner b' AI_O n = Ok true /\ checkWinner b' PLAYER_X n = Ok false) \/
     (w' = w /\ isBoardFull b' = false /\
      checkWinner b' AI_O n = Ok false /\ checkWinner b' PLAYER_X n = Ok false)).
Proof.
  intros Hfuel Hrnd Hn Hlen Hmax. rewrite handler_gates by done.
  destruct (hasLine b PLAYER_X (Z.to_nat n)) eqn:HX.
  { exists b, PLAYER_X. split; [done|]. split; [by left|]. left.
    by rewrite checkWinner_spec, HX. }
  destruct (isBoardFull b) eqn:Hfull.
  { exists b, "draw". split; [done|]. split; [by left|]. right; left.
    by rewrite checkWinner_spec, HX. }
  assert (Hmove : exists b', aiMove intOfInf fuel rnd (mkGameState b n w)
                             = Ok (mkGameState b' n w) /\
            (b' = b \/ exists m, emptyAt b m /\ b' = <[m := AI_O]> b)).
  { destruct (aiMove_total intOfInf fuel rnd b n w Hfuel Hrnd Hlen Hmax)
      as [H|(m & Hm & H)].
    - exists b. split; [done|by left].
    - exists (<[m := AI_O]> b). split; [done|]. right. by exists m. }
  destruct Hmove as (b' & -> & Hb'). unfold rbind at 2. simpl gsBoard. simpl gsBoardSize.
  assert (Hlen' : Z.of_nat (length b') = n * n).
  { destruct Hb' as [->|(m & _ & ->)]; [done|by rewrite length_insert]. }
  assert (HX' : hasLine b' PLAYER_X (Z.to_nat n) = false).
  { destruct Hb' as [->|(m & Hm & ->)]; [done|]. by rewrite hasLine_insert_empty. }
  rewrite !checkWinner_spec by done. unfold rbind.
  destruct (hasLine b' AI_O (Z.to_nat n)) eqn:HO.
  { exists b', AI_O. split; [done|]. split; [done|]. right; right; left.
    by rewrite !checkWinner_spec, HX', HO. }
  destruct (isBoardFull b') eqn:Hfull'.
  { exists b', "draw". split; [done|]. split; [done|]. right; left.
    by rewrite checkWinner_spec, HX'. }
  exists b', w. split; [done|]. split; [done|]. right; right; right.
  by rewrite !checkWinner_spec, HX', HO.
Qed.

Lemma handler_outcomes_witness :
  exists b' w',
    playHandler minInt64 10 (mkRand (fun l => l) (fun _ => 0))
      (mkGameState ["X"; ""; ""; ""] 2 "")
      = Ok (Encoded (mkGameState b' 2 w')) /\
    (b' = ["X"; ""; ""; ""] \/
     exists m, emptyAt ["X"; ""; ""; ""] m /\ b' = <[m := AI_O]> ["X"; ""; ""; ""]) /\
    ((w' = PLAYER_X /\ b' = ["X"; ""; ""; ""] /\
      checkWinner ["X"; ""; ""; ""] PLAYER_X 2 = Ok true) \/
     (w' = "draw" /\ isBoardFull b' = true /\ checkWinner b' PLAYER_X 2 = Ok false) \/
     (w' = AI_O /\ checkWinner b' AI_O 2 = Ok true /\ checkWinner b' PLAYER_X 2 = Ok false) \/
     (w' = "" /\ isBoardFull b' = false /\
      checkWinner b' AI_O 2 = Ok false /\ checkWinner b' PLAYER_X 2 = Ok false)).
Proof.
  apply handler_outcomes.
  - lia.
  - split; [done|]. intros k Hk. simpl. lia.
  - discriminate.
  - reflexivity.
  - vm_compute. discriminate.
Defined.

(** ** Immediate wins and immediate threats in the exhaustive selector *)

Lemma score_of_win (intOfInf : Z) (fuel : nat) (b : Board) (j : nat) :
  (1 <= fuel)%nat -> hasLine3 (<[j := AI_O]> b) AI_O = true ->
  score intOfInf fuel b j = 10.
Proof.
  intros Hfuel HO. unfold score. destruct fuel as [|fuel]; [lia|].
  by rewrite value_S, HO.
Qed.

Lemma score_below_win (intOfInf : Z) (fuel : nat) (b : Board) (j : nat) :
  intOfInf = minInt64 \/ saturates intOfInf -> (10 <= fuel)%nat -> length b = 9%nat ->
  emptyAt b j -> hasLine3 (<[j := AI_O]> b) AI_O = false ->
  score intOfInf fuel b j < 10.
Proof.
  intros Hinf Hfuel Hlen Hj HO. unfold score.
  pose proof (emptyCount_insert b j AI_O Hj eq_refl) as Hcount.
  pose proof (emptyCount_le_length b) as Hle. rewrite Hlen in Hle.
  destruct fuel as [|fuel]; [lia|].
  destruct (hasLine3 (<[j := AI_O]> b) PLAYER_X) eqn:HX.
  { rewrite value_S, HO, HX. lia. }
  destruct (isBoardFull (<[j := AI_O]> b)) eqn:Hfull.
  { rewrite value_S, HO, HX, Hfull. lia. }
  destruct Hinf as [->|Hinf].
  - rewrite value_truncating_min by (done || lia). by vm_compute.
  - rewrite value_S, HO, HX, Hfull.
    apply isBoardFull_false_iff in Hfull as [i Hi].
    pose proof (emptyCount_insert _ i PLAYER_X Hi eq_refl) as Hcount'.
    pose proof (foldCells_min_le_child
                  (fun i => value intOfInf fuel (<[i := PLAYER_X]> (<[j := AI_O]> b)) (0 + 1) true)
                  (<[j := AI_O]> b) (seq 0 9) intOfInf i
                  (emptyAt_in_seq9 _ i ltac:(by rewrite length_insert) Hi) Hi) as Hchild.
    cbv beta in Hchild.
    pose proof (value_range intOfInf fuel (<[i := PLAYER_X]> (<[j := AI_O]> b)) (0 + 1) true
                  Hinf ltac:(by rewrite !length_insert) ltac:(lia) ltac:(lia) ltac:(lia)).
    lia.
Qed.

Lemma neg64_below_win (intOfInf : Z) :
  intOfInf = minInt64 \/ saturates intOfInf -> neg64 intOfInf < 10.
Proof.
  intros [->|Hinf]; [by vm_compute|].
  rewrite neg64_saturates by done. unfold saturates in Hinf. lia.
Qed.

(** When some free cell completes a line of the AI, the exhaustive selector
    returns the lowest such cell, with either value of the conversion of
    infinity: a winning move is a terminal position of score 10, above the
    initial best and above the score of every other move. *)
Theorem selector_takes_immediate_win (intOfInf : Z) (fuel : nat) (b : Board) :
  intOfInf = minInt64 \/ saturates intOfInf -> (10 <= fuel)%nat -> length b = 9%nat ->
  (exists j, emptyAt b j /\ wins (<[j := AI_O]> b) AI_O) ->
  exists m, findBestMoveMinimax intOfInf fuel b = Ok (Z.of_nat m, b) /\
            emptyAt b m /\ wins (<[m := AI_O]> b) AI_O /\
            forall j, (j < m)%nat -> emptyAt b j -> ~ wins (<[j := AI_O]> b) AI_O.
Proof.
  intros Hinf Hfuel Hlen (j0 & Hj0 & Hwin0).
  apply wins_hasLine3 in Hwin0; [|by rewrite length_insert].
  pose proof (neg64_below_win intOfInf Hinf) as Hinit.
  pose proof (emptyCount_le_length b) as Hle.
  unfold findBestMoveMinimax. change 0 with (Z.of_nat 0) at 1.
  rewrite rootLoop_spec by (done || lia).
  fold (score intOfInf fuel b).
  destruct (rootFold_seq (score intOfInf fuel b) b 9 0 (neg64 intOfInf) (-1))
    as [[_ Hall]|(m & Hm & Hme & -> & Hgt & Hmax & Hfirst)].
  - exfalso. pose proof (emptyAt_lt _ _ Hj0).
    specialize (Hall j0 ltac:(lia) Hj0).
    rewrite (score_of_win intOfInf fuel b j0) in Hall by (done || lia). lia.
  - exists m. split; [done|]. split; [done|].
    assert (Hten : score intOfInf fuel b m = 10).
    { pose proof (emptyAt_lt _ _ Hj0).
      specialize (Hmax j0 ltac:(lia) Hj0).
      rewrite (score_of_win intOfInf fuel b j0) in Hmax by (done || lia).
      destruct (hasLine3 (<[m := AI_O]> b) AI_O) eqn:HO.
      - apply score_of_win; [lia|done].
      - pose proof (score_below_win intOfInf fuel b m Hinf Hfuel Hlen Hme HO). lia. }
    split.
    + apply wins_hasLine3; [by rewrite length_insert|].
      destruct (hasLine3 (<[m := AI_O]> b) AI_O) eqn:HO; [done|].
      pose proof (score_below_win intOfInf fuel b m Hinf Hfuel Hlen Hme HO). lia.
    + intros j Hj Hje Hw. apply wins_hasLine3 in Hw; [|by rewrite length_insert].
      specialize (Hfirst j ltac:(lia) Hje).
      rewrite (score_of_win intOfInf fuel b j) in Hfirst by (done || lia). lia.
Qed.

Lemma selector_takes_immediate_win_witness :
  exists m, findBestMoveMinimax minInt64 10 ["O"; "X"; "O"; "X"; "O"; "X"; ""; "X"; ""]
            = Ok (Z.of_nat m, ["O"; "X"; "O"; "X"; "O"; "X"; ""; "X"; ""]) /\
            emptyAt ["O"; "X"; "O"; "X"; "O"; "X"; ""; "X"; ""] m /\
            wins (<[m := AI_O]> ["O"; "X"; "O"; "X"; "O"; "X"; ""; "X"; ""]) AI_O /\
            forall j, (j < m)%nat -> emptyAt ["O"; "X"; "O"; "X"; "O"; "X"; ""; "X"; ""] j ->
                      ~ wins (<[j := AI_O]> ["O"; "X"; "O"; "X"; "O"; "X"; ""; "X"; ""]) AI_O.
Proof.
  apply selector_takes_immediate_win.
  - left. reflexivity.
  - lia.
  - reflexivity.
  - exists 6%nat. split; reflexivity.
Defined.

(** Where the conversion of infinity saturates: when the AI cannot complete
    a line at once and exactly one free cell would complete a line of the
    human, the exhaustive selector returns that cell. Every other move
    scores -9 (the human wins with the next mark), the blocking move scores
    at least -8. *)
Theorem selector_blocks_single_threat (intOfInf : Z) (fuel : nat) (b : Board) (t : nat) :
  saturates intOfInf -> (10 <= fuel)%nat -> length b = 9%nat ->
  minimaxWinChecker b PLAYER_X = Ok false ->
  (forall j, emptyAt b j -> ~ wins (<[j := AI_O]> b) AI_O) ->
  emptyAt b t -> wins (<[t := PLAYER_X]> b) PLAYER_X ->
  (forall j, emptyAt b j -> j <> t -> ~ wins (<[j := PLAYER_X]> b) PLAYER_X) ->
  findBestMoveMinimax intOfInf fuel b = Ok (Z.of_nat t, b).
Proof.
  intros Hinf Hfuel Hlen HX HnoO Ht Hthreat Hone.
  pose proof Hinf as Hinf'. unfold saturates in Hinf'.
  rewrite minimaxWinChecker_hasLine3 in HX by done. injection HX as HX.
  apply wins_hasLine3 in Hthreat; [|by rewrite length_insert].
  assert (HnoO' : forall j, emptyAt b j -> hasLine3 (<[j := AI_O]> b) AI_O = false).
  { intros j Hj. apply not_wins_hasLine3; [by rewrite length_insert|by apply HnoO]. }
  assert (Hone' : forall j, emptyAt b j -> j <> t ->
                            hasLine3 (<[j := PLAYER_X]> b) PLAYER_X = false).
  { intros j Hj Hjt. apply not_wins_hasLine3; [by rewrite length_insert|by apply Hone]. }
  pose proof (emptyCount_le_length b) as Hle. rewrite Hlen in Hle.
  destruct fuel as [|[|[|fuel]]]; [lia..|].
  (* every other move scores at most -9 *)
  assert (Hother : forall j, emptyAt b j -> j <> t ->
            score intOfInf (S (S (S fuel))) b j <= -9).
  { intros j Hj Hjt. unfold score.
    assert (Htj : emptyAt (<[j := AI_O]> b) t)
      by (unfold emptyAt; by rewrite list_lookup_insert_ne).
    rewrite value_S, (HnoO' j Hj), hasLine3_insert_empty, HX by done.
    assert (Hfull : isBoardFull (<[j := AI_O]> b) = false)
      by (apply isBoardFull_false_iff; by exists t).
    rewrite Hfull.
    etrans; [apply (foldCells_min_le_child _ _ _ _ t);
             [apply (emptyAt_in_seq9 (<[j := AI_O]> b)); [by rewrite length_insert|done]|done]|].
    cbv beta. rewrite value_S.
    rewrite (hasLine3_insert_empty (<[j := AI_O]> b) t PLAYER_X AI_O) by done.
    rewrite (HnoO' j Hj).
    rewrite (list_insert_insert_ne b t j) by done.
    rewrite (hasLine3_insert_empty (<[t := PLAYER_X]> b) j AI_O PLAYER_X);
      [|unfold emptyAt; by rewrite list_lookup_insert_ne|done|done].
    rewrite Hthreat. lia. }
  (* the blocking move scores at least -8 *)
  assert (Hblock : -8 <= score intOfInf (S (S (S fuel))) b t).
  { unfold score. rewrite value_S, (HnoO' t Ht), hasLine3_insert_empty, HX by done.
    destruct (isBoardFull (<[t := AI_O]> b)) eqn:Hfull; [lia|].
    apply foldCells_min_ge. split; [lia|]. intros i _ Hi. cbv beta.
    assert (Hit : i <> t).
    { intros ->. unfold emptyAt in Hi. rewrite list_lookup_insert_eq in Hi; [done|].
      by apply emptyAt_lt in Ht. }
    assert (Hib : emptyAt b i) by (unfold emptyAt in *; by rewrite list_lookup_insert_ne in Hi).
    rewrite value_S.
    rewrite (hasLine3_insert_empty (<[t := AI_O]> b) i PLAYER_X AI_O) by done.
    rewrite (HnoO' t Ht).
    rewrite (list_insert_insert_ne b i t) by done.
    rewrite (hasLine3_insert_empty (<[i := PLAYER_X]> b) t AI_O PLAYER_X);
      [|unfold emptyAt; by rewrite list_lookup_insert_ne|done|done].
    rewrite (Hone' i Hib Hit).
    destruct (isBoardFull (<[t := AI_O]> (<[i := PLAYER_X]> b))) eqn:Hfull'; [lia|].
    apply isBoardFull_false_iff in Hfull' as [k Hk].
    etrans; [|apply (foldCells_max_ge_child _ _ _ _ k);
              [apply (emptyAt_in_seq9 (<[t := AI_O]> (<[i := PLAYER_X]> b)));
               [by rewrite !length_insert|done]|done]].
    cbv beta.
    pose proof (emptyCount_insert b i PLAYER_X Hib eq_refl) as C1.
    pose proof (emptyCount_insert (<[i := PLAYER_X]> b) t AI_O
                  ltac:(unfold emptyAt; by rewrite list_lookup_insert_ne) eq_refl) as C2.
    pose proof (emptyCount_insert _ k AI_O Hk eq_refl) as C3.
    pose proof (value_range intOfInf (S fuel)
                  (<[k := AI_O]> (<[t := AI_O]> (<[i := PLAYER_X]> b))) (0 + 1 + 1) false
                  Hinf ltac:(by rewrite !length_insert) ltac:(lia) ltac:(lia) ltac:(lia)).
    lia. }
  destruct (findBestMoveMinimax_argmax intOfInf (S (S (S fuel))) b Hinf Hlen Hfuel)
    as (m & Hsel & Hm & Hmax & _).
  { apply isBoardFull_false_iff. by exists t. }
  destruct (decide (m = t)) as [->|Hmt]; [done|].
  specialize (Hmax t Ht). specialize (Hother m Hm Hmt). lia.
Qed.

Lemma selector_blocks_single_threat_witness :
  findBestMoveMinimax maxInt64 10 ["X"; "X"; ""; ""; "O"; ""; ""; ""; ""]
  = Ok (Z.of_nat 2, ["X"; "X"; ""; ""; "O"; ""; ""; ""; ""]).
Proof.
  apply selector_blocks_single_threat.
  - unfold saturates. vm_compute. split; [reflexivity|discriminate].
  - lia.
  - reflexivity.
  - reflexivity.
  - intros j Hj Hw. pose proof (emptyAt_lt _ _ Hj) as Hlt. simpl in Hlt.
    each_cell j ltac:(first [discriminate Hj | discriminate Hw]). lia.
  - reflexivity.
  - reflexivity.
  - intros j Hj Hjt Hw. pose proof (emptyAt_lt _ _ Hj) as Hlt. simpl in Hlt.
    each_cell j ltac:(first [discriminate Hj | discriminate Hw | done]). lia.
Defined.

(** ** The range of the scores *)

(** Where the conversion of infinity saturates, [minimax] called at depth
    [depth] on a board that leaves at most [9 - depth] cells free returns a
    score between [depth - 10] and [10 - depth], and the board it was given:
    the initial values of [best] never come out of a search. *)
Theorem minimax_score_bounds (intOfInf : Z) (fuel : nat) (b : Board) (depth : Z)
    (isMaximizing : bool) :
  saturates intOfInf -> length b = 9%nat -> 0 <= depth ->
  depth + Z.of_nat (emptyCount b) <= 9 -> (emptyCount b < fuel)%nat ->
  exists v, minimax intOfInf fuel b depth isMaximizing = Ok (v, b) /\
            depth - 10 <= v <= 10 - depth.
Proof.
  intros Hinf Hlen Hd Hdepth Hfuel.
  exists (value intOfInf fuel b depth isMaximizing).
  split; [by apply minimax_value|by apply value_range].
Qed.

Lemma minimax_score_bounds_witness :
  exists v, minimax maxInt64 10 ["X"; ""; ""; ""; "O"; ""; ""; ""; ""] 2 false
            = Ok (v, ["X"; ""; ""; ""; "O"; ""; ""; ""; ""]) /\
            2 - 10 <= v <= 10 - 2.
Proof.
  apply minimax_score_bounds.
  - unfold saturates. vm_compute. split; [reflexivity|discriminate].
  - reflexivity.
  - lia.
  - vm_compute. discriminate.
  - vm_compute. lia.
Defined.

(* ================================================================= *)
(** * The fixed-size server *)

(** ** The loops of [aiMove] *)

Lemma Fixed_checkWinner_hasLine3_ge (b : Board) (p : string) :
  (9 <= length b)%nat -> Fixed.checkWinner b p = Ok (hasLine3 b p).
Proof.
  intros Hlen. unfold Fixed.checkWinner, Fixed.winConditions, hasLine3.
  simpl Fixed.anyCondition. rewrite !cellIs_marked by lia.
  to_nat_lits. by_cells b p.
Qed.

Lemma winLoop_spec (b : Board) (k i : nat) :
  (9 <= length b)%nat -> (i + k <= 9)%nat ->
  FixedServer.winLoop k (Z.of_nat i) b =
  Ok (match findFrom k i (completes3 b "O") with
      | Some m => (true, <[m := "O"]> b)
      | None => (false, b)
      end).
Proof.
  intros Hlen. revert i. induction k as [|k IH]; intros i Hik; [done|].
  simpl FixedServer.winLoop. simpl findFrom. rewrite cellIs_nat.
  destruct (lookup_lt_is_Some_2 b i) as [s Hs]; [lia|]. rewrite Hs.
  unfold rbind at 1. unfold completes3 at 1. rewrite (marked_Some _ _ _ _ Hs).
  replace (Z.of_nat i + 1) with (Z.of_nat (S i)) by lia.
  destruct (String.eqb_spec s "") as [->|Hne]; simpl andb.
  - rewrite store_nat, Hs. unfold rbind at 1.
    rewrite Fixed_checkWinner_hasLine3_ge by (by rewrite length_insert).
    unfold rbind at 1.
    destruct (hasLine3 (<[i := "O"]> b) "O"); [done|].
    pose proof (store_empty_back b i "O" Hs) as Hback. unfold EMPTY in Hback.
    rewrite Hback. unfold rbind at 1.
    apply IH. lia.
  - apply IH. lia.
Qed.

Lemma blockLoop_spec (b : Board) (k i : nat) :
  (9 <= length b)%nat -> (i + k <= 9)%nat ->
  FixedServer.blockLoop k (Z.of_nat i) b =
  Ok (match findFrom k i (completes3 b "X") with
      | Some m => (true, <[m := "O"]> b)
      | None => (false, b)
      end).
Proof.
  intros Hlen. revert i. induction k as [|k IH]; intros i Hik; [done|].
  simpl FixedServer.blockLoop. simpl findFrom. rewrite cellIs_nat.
  destruct (lookup_lt_is_Some_2 b i) as [s Hs]; [lia|]. rewrite Hs.
  unfold rbind at 1. unfold completes3 at 1. rewrite (marked_Some _ _ _ _ Hs).
  replace (Z.of_nat i + 1) with (Z.of_nat (S i)) by lia.
  destruct (String.eqb_spec s "") as [->|Hne]; simpl andb.
  - rewrite store_nat, Hs. unfold rbind at 1.
    rewrite Fixed_checkWinner_hasLine3_ge by (by rewrite length_insert).
    unfold rbind at 1.
    destruct (hasLine3 (<[i := "X"]> b) "X").
    + rewrite store_nat.
      destruct (lookup_lt_is_Some_2 (<[i := "X"]> b) i) as [s' Hs'];
        [rewrite length_insert; lia|].
      rewrite Hs'. unfold rbind. by rewrite list_insert_insert_eq.
    + pose proof (store_empty_back b i "X" Hs) as Hback. unfold EMPTY in Hback.
      rewrite Hback. unfold rbind at 1.
      apply IH. lia.
  - apply IH. lia.
Qed.

Lemma firstFree_Some (b : Board) (cs : list Z) (m : nat) :
  firstFree b cs = Some m -> emptyAt b m /\ exists c, c ∈ cs /\ m = Z.to_nat c.
Proof.
  induction cs as [|c cs IH]; [done|]. simpl.
  destruct (marked b (Z.to_nat c) "") eqn:E.
  - intros [= <-]. split; [by apply marked_empty_iff|]. exists c. split; [by left|done].
  - intros H. destruct (IH H) as [H1 (c' & H2 & H3)]. split; [done|].
    exists c'. split; [by right|done].
Qed.

Lemma firstFree_None (b : Board) (cs : list Z) :
  firstFree b cs = None -> forall c, c ∈ cs -> ~ emptyAt b (Z.to_nat c).
Proof.
  induction cs as [|c cs IH]; [by intros _ c H; inversion H|]. simpl.
  destruct (marked b (Z.to_nat c) "") eqn:E; [done|].
  intros H c' Hc'. apply elem_of_cons in Hc' as [->|Hc'].
  - intros He. apply marked_empty_iff in He. unfold EMPTY in He. congruence.
  - by apply IH.
Qed.

Lemma cornerLoop_spec (b : Board) (cs : list Z) :
  (forall c, c ∈ cs -> 0 <= c < Z.of_nat (length b)) ->
  FixedServer.cornerLoop cs b =
  Ok (match firstFree b cs with
      | Some m => (true, <[m := "O"]> b)
      | None => (false, b)
      end).
Proof.
  induction cs as [|c cs IH]; intros Hcs; [done|].
  simpl. assert (Hc : 0 <= c < Z.of_nat (length b)) by (apply Hcs; by left).
  rewrite cellIs_marked by done. unfold rbind at 1.
  destruct (marked b (Z.to_nat c) "") eqn:E.
  - rewrite <- (Z2Nat.id c) at 1 by lia. rewrite store_nat.
    destruct (lookup_lt_is_Some_2 b (Z.to_nat c)) as [s Hs]; [lia|]. by rewrite Hs.
  - apply IH. intros c' Hc'. apply Hcs. by right.
Qed.

Lemma anyLoop_spec (b : Board) (k i : nat) :
  (9 <= length b)%nat -> (i + k <= 9)%nat ->
  FixedServer.anyLoop k (Z.of_nat i) b =
  Ok (match findFrom k i (fun j => marked b j "") with
      | Some m => <[m := "O"]> b
      | None => b
      end).
Proof.
  intros Hlen. revert i. induction k as [|k IH]; intros i Hik; [done|].
  simpl FixedServer.anyLoop. simpl findFrom. rewrite cellIs_nat.
  destruct (lookup_lt_is_Some_2 b i) as [s Hs]; [lia|]. rewrite Hs.
  unfold rbind at 1. rewrite (marked_Some _ _ _ _ Hs).
  replace (Z.of_nat i + 1) with (Z.of_nat (S i)) by lia.
  destruct (String.eqb s ""); [|apply IH; lia].
  by rewrite store_nat, Hs.
Qed.

Lemma shuffle_corners_range (rnd : Rand) (b : Board) :
  RandOk rnd -> (9 <= length b)%nat ->
  forall c, c ∈ shuffle rnd [0; 2; 6; 8] -> 0 <= c < Z.of_nat (length b).
Proof.
  intros [Hperm _] Hlen c Hc. rewrite (Hperm [0; 2; 6; 8]) in Hc.
  repeat (apply elem_of_cons in Hc as [->|Hc]; [lia|]). by inversion Hc.
Qed.

Lemma Fixed_aiMove_choice (rnd : Rand) (b : Board) :
  (9 <= length b)%nat -> RandOk rnd ->
  FixedServer.aiMove rnd b =
  Ok (match fixedChoice rnd b with Some m => <[m := "O"]> b | None => b end).
Proof.
  intros Hlen Hrnd. unfold FixedServer.aiMove, fixedChoice.
  change 0 with (Z.of_nat 0).
  rewrite winLoop_spec by (done || lia). unfold rbind at 1.
  destruct (findFrom 9 0 (completes3 b "O")) as [m|]; [done|].
  rewrite blockLoop_spec by (done || lia). unfold rbind at 1.
  destruct (findFrom 9 0 (completes3 b "X")) as [m|]; [done|].
  rewrite cellIs_marked by lia. unfold rbind at 1.
  to_nat_lits.
  destruct (marked b 4 "") eqn:E4.
  - change 4 with (Z.of_nat 4). rewrite store_nat.
    destruct (lookup_lt_is_Some_2 b 4) as [s Hs]; [lia|]. by rewrite Hs.
  - rewrite cornerLoop_spec by (by apply shuffle_corners_range). unfold rbind at 1.
    destruct (firstFree b _) as [m|]; [done|].
    by rewrite anyLoop_spec by (done || lia).
Qed.



Lemma completes3_true (b : Board) (mark : string) (j : nat) :
  (9 <= length b)%nat -> (j < 9)%nat ->
  completes3 b mark j = true <-> completesFixed b mark j.
Proof.
  intros Hlen Hj. unfold completes3, completesFixed.
  rewrite Fixed_checkWinner_hasLine3_ge by (by rewrite length_insert).
  rewrite andb_true_iff. pose proof (marked_empty_iff b j) as He. unfold EMPTY in He.
  rewrite He. split.
  - intros [H1 H2]. split; [done|]. split; [done|]. by rewrite H2.
  - intros (_ & H1 & [= H2]). done.
Qed.

Lemma findFrom_completes3 (b : Board) (mark : string) :
  (9 <= length b)%nat ->
  match findFrom 9 0 (completes3 b mark) with
  | Some m => completesFixed b mark m /\ forall j, (j < m)%nat -> ~ completesFixed b mark j
  | None => forall j, ~ completesFixed b mark j
  end.
Proof.
  intros Hlen. destruct (findFrom 9 0 (completes3 b mark)) as [m|] eqn:E.
  - apply findFrom_Some in E as (Hm & Hc & Hfirst). split.
    + apply completes3_true; [done|lia|done].
    + intros j Hj Hcj. apply completes3_true in Hcj; [|done|lia].
      rewrite Hfirst in Hcj by lia. done.
  - intros j Hcj. pose proof Hcj as (Hj & _).
    apply completes3_true in Hcj; [|done|lia].
    rewrite (findFrom_None _ _ _ E) in Hcj by lia. done.
Qed.

Lemma fixedChoice_Some (rnd : Rand) (b : Board) (m : nat) :
  (9 <= length b)%nat -> RandOk rnd ->
  fixedChoice rnd b = Some m -> (m < 9)%nat /\ emptyAt b m.
Proof.
  intros Hlen Hrnd. unfold fixedChoice.
  pose proof (marked_empty_iff b) as He. unfold EMPTY in He.
  destruct (findFrom 9 0 (completes3 b "O")) as [m1|] eqn:E1.
  { intros [= <-]. apply findFrom_Some in E1 as (H1 & H2 & _).
    split; [lia|]. unfold completes3 in H2. apply andb_true_iff in H2 as [H2 _]. by apply He. }
  destruct (findFrom 9 0 (completes3 b "X")) as [m2|] eqn:E2.
  { intros [= <-]. apply findFrom_Some in E2 as (H1 & H2 & _).
    split; [lia|]. unfold completes3 in H2. apply andb_true_iff in H2 as [H2 _]. by apply He. }
  destruct (marked b 4 "") eqn:E4.
  { intros [= <-]. split; [lia|]. by apply He. }
  destruct (firstFree b _) as [m3|] eqn:E3.
  { intros [= <-]. apply firstFree_Some in E3 as [H1 (c & Hc & ->)]. split; [|done].
    destruct Hrnd as [Hperm _]. rewrite (Hperm [0; 2; 6; 8]) in Hc.
    repeat (apply elem_of_cons in Hc as [->|Hc]; [lia|]). by inversion Hc. }
  intros E5. apply findFrom_Some in E5 as (H1 & H2 & _). split; [lia|]. by apply He.
Qed.

Lemma fixedChoice_None (rnd : Rand) (b : Board) :
  fixedChoice rnd b = None -> forall j, (j < 9)%nat -> ~ emptyAt b j.
Proof.
  unfold fixedChoice.
  destruct (findFrom 9 0 (completes3 b "O")); [done|].
  destruct (findFrom 9 0 (completes3 b "X")); [done|].
  destruct (marked b 4 ""); [done|].
  destruct (firstFree b _); [done|].
  intros E j Hj He. apply marked_empty_iff in He. unfold EMPTY in He.
  rewrite (findFrom_None _ _ _ E) in He by lia. done.
Qed.

(** The fixed-size [aiMove] returns on every board of at least nine cells,
    with "O" written into one free cell among the first nine and nothing
    else changed (the marks it tries are removed again); when none of the
    first nine cells is free it leaves the board as it is. *)
Theorem Fixed_aiMove_marks_one_free_cell (rnd : Rand) (b : Board) :
  (9 <= length b)%nat -> RandOk rnd ->
  (exists m, (m < 9)%nat /\ emptyAt b m /\
             FixedServer.aiMove rnd b = Ok (<[m := "O"]> b)) \/
  ((forall j, (j < 9)%nat -> ~ emptyAt b j) /\ FixedServer.aiMove rnd b = Ok b).
Proof.
  intros Hlen Hrnd. rewrite Fixed_aiMove_choice by done.
  destruct (fixedChoice rnd b) as [m|] eqn:E.
  - left. exists m. destruct (fixedChoice_Some rnd b m Hlen Hrnd E). done.
  - right. split; [|done]. by apply (fixedChoice_None rnd).
Qed.

Lemma Fixed_aiMove_marks_one_free_cell_witness :
  (exists m, (m < 9)%nat /\ emptyAt ["X"; ""; ""; ""; "O"; ""; ""; ""; "X"] m /\
     FixedServer.aiMove (mkRand (fun l => l) (fun _ => 0)) ["X"; ""; ""; ""; "O"; ""; ""; ""; "X"]
     = Ok (<[m := "O"]> ["X"; ""; ""; ""; "O"; ""; ""; ""; "X"])) \/
  ((forall j, (j < 9)%nat -> ~ emptyAt ["X"; ""; ""; ""; "O"; ""; ""; ""; "X"] j) /\
   FixedServer.aiMove (mkRand (fun l => l) (fun _ => 0)) ["X"; ""; ""; ""; "O"; ""; ""; ""; "X"]
   = Ok ["X"; ""; ""; ""; "O"; ""; ""; ""; "X"]).
Proof.
  apply Fixed_aiMove_marks_one_free_cell.
  - simpl. lia.
  - split; [done|]. intros k Hk. simpl. lia.
Defined.

Lemma firstFree_exists (b : Board) (cs : list Z) (c : Z) :
  c ∈ cs -> 0 <= c -> emptyAt b (Z.to_nat c) -> exists m, firstFree b cs = Some m.
Proof.
  intros Hc H0 He. destruct (firstFree b cs) as [m|] eqn:E; [by exists m|].
  by destruct (firstFree_None b cs E c Hc).
Qed.

(** The order of the stages of the fixed-size [aiMove]. *)
Theorem Fixed_aiMove_priorities (rnd : Rand) (b : Board) :
  (9 <= length b)%nat -> RandOk rnd ->
  ((exists j, completesFixed b "O" j) ->
   exists m, FixedServer.aiMove rnd b = Ok (<[m := "O"]> b) /\
             completesFixed b "O" m /\
             forall j, (j < m)%nat -> ~ completesFixed b "O" j)
  /\
  ((forall j, ~ completesFixed b "O" j) -> (exists j, completesFixed b "X" j) ->
   exists m, FixedServer.aiMove rnd b = Ok (<[m := "O"]> b) /\
             completesFixed b "X" m /\
             forall j, (j < m)%nat -> ~ completesFixed b "X" j)
  /\
  ((forall j, ~ completesFixed b "O" j) -> (forall j, ~ completesFixed b "X" j) ->
   (emptyAt b 4 -> FixedServer.aiMove rnd b = Ok (<[4%nat := "O"]> b)) /\
   (~ emptyAt b 4 ->
    (exists c, c ∈ [0; 2; 6; 8]%nat /\ emptyAt b c) ->
    exists m, m ∈ [0; 2; 6; 8]%nat /\ emptyAt b m /\
              FixedServer.aiMove rnd b = Ok (<[m := "O"]> b)) /\
   (~ emptyAt b 4 ->
    (forall c, c ∈ [0; 2; 6; 8]%nat -> ~ emptyAt b c) ->
    forall m, (m < 9)%nat -> emptyAt b m -> (forall j, (j < m)%nat -> ~ emptyAt b j) ->
              FixedServer.aiMove rnd b = Ok (<[m := "O"]> b))).
Proof.
  intros Hlen Hrnd. rewrite Fixed_aiMove_choice by done. unfold fixedChoice.
  pose proof (findFrom_completes3 b "O" Hlen) as HO.
  pose proof (findFrom_completes3 b "X" Hlen) as HX.
  pose proof (marked_empty_iff b) as He. unfold EMPTY in He.
  split; [|split].
  - intros [j Hj]. destruct (findFrom 9 0 (completes3 b "O")) as [m|].
    + exists m. by destruct HO.
    + by destruct (HO j).
  - intros HnoO [j Hj]. destruct (findFrom 9 0 (completes3 b "O")) as [m|].
    { destruct HO as [HO _]. by destruct (HnoO m). }
    destruct (findFrom 9 0 (completes3 b "X")) as [m|].
    + exists m. by destruct HX.
    + by destruct (HX j).
  - intros HnoO HnoX. destruct (findFrom 9 0 (completes3 b "O")) as [m|].
    { destruct HO as [HO _]. by destruct (HnoO m). }
    destruct (findFrom 9 0 (completes3 b "X")) as [m|].
    { destruct HX as [HX _]. by destruct (HnoX m). }
    split; [|split].
    + intros H4. apply He in H4. by rewrite H4.
    + intros H4 (c & Hc & Hfree).
      destruct (marked b 4 "") eqn:E4; [by apply He in E4|].
      destruct Hrnd as [Hperm _].
      destruct (firstFree_exists b (shuffle rnd [0; 2; 6; 8]) (Z.of_nat c)) as [m Hm].
      * rewrite (Hperm [0; 2; 6; 8]).
        repeat (apply elem_of_cons in Hc as [->|Hc]; [in_list|]). by inversion Hc.
      * lia.
      * by rewrite Nat2Z.id.
      * rewrite Hm. exists m. apply firstFree_Some in Hm as [Hm1 (c' & Hc' & ->)].
        split; [|done]. rewrite (Hperm [0; 2; 6; 8]) in Hc'.
        repeat (apply elem_of_cons in Hc' as [->|Hc']; [in_list|]). by inversion Hc'.
    + intros H4 Hnc m Hm Hfree Hfirst.
      destruct (marked b 4 "") eqn:E4; [by apply He in E4|].
      destruct (firstFree b _) as [m'|] eqn:E3.
      { apply firstFree_Some in E3 as [Hm1 (c' & Hc' & ->)].
        destruct Hrnd as [Hperm _]. rewrite (Hperm [0; 2; 6; 8]) in Hc'.
        exfalso. apply (Hnc (Z.to_nat c')); [|done].
        repeat (apply elem_of_cons in Hc' as [->|Hc']; [in_list|]). by inversion Hc'. }
      destruct (findFrom 9 0 (fun j => marked b j "")) as [m'|] eqn:E5.
      * apply findFrom_Some in E5 as (H1 & H2 & H3). apply He in H2.
        destruct (Nat.lt_trichotomy m m') as [Hlt|[->|Hgt]]; [|done|].
        -- apply He in Hfree. rewrite H3 in Hfree by lia. done.
        -- by destruct (Hfirst m' Hgt).
      * apply He in Hfree. rewrite (findFrom_None _ _ _ E5) in Hfree by lia. done.
Qed.

Lemma Fixed_aiMove_priorities_witness :
  ((exists j, completesFixed ["O"; "O"; ""; "X"; "X"; ""; ""; ""; ""] "O" j) ->
   exists m, FixedServer.aiMove (mkRand (fun l => l) (fun _ => 0))
               ["O"; "O"; ""; "X"; "X"; ""; ""; ""; ""]
             = Ok (<[m := "O"]> ["O"; "O"; ""; "X"; "X"; ""; ""; ""; ""]) /\
             completesFixed ["O"; "O"; ""; "X"; "X"; ""; ""; ""; ""] "O" m /\
             forall j, (j < m)%nat ->
                       ~ completesFixed ["O"; "O"; ""; "X"; "X"; ""; ""; ""; ""] "O" j)
  /\
  ((forall j, ~ completesFixed ["O"; "O"; ""; "X"; "X"; ""; ""; ""; ""] "O" j) ->
   (exists j, completesFixed ["O"; "O"; ""; "X"; "X"; ""; ""; ""; ""] "X" j) ->
   exists m, FixedServer.aiMove (mkRand (fun l => l) (fun _ => 0))
               ["O"; "O"; ""; "X"; "X"; ""; ""; ""; ""]
             = Ok (<[m := "O"]> ["O"; "O"; ""; "X"; "X"; ""; ""; ""; ""]) /\
             completesFixed ["O"; "O"; ""; "X"; "X"; ""; ""; ""; ""] "X" m /\
             forall j, (j < m)%nat ->
                       ~ completesFixed ["O"; "O"; ""; "X"; "X"; ""; ""; ""; ""] "X" j)
  /\
  ((forall j, ~ completesFixed ["O"; "O"; ""; "X"; "X"; ""; ""; ""; ""] "O" j) ->
   (forall j, ~ completesFixed ["O"; "O"; ""; "X"; "X"; ""; ""; ""; ""] "X" j) ->
   (emptyAt ["O"; "O"; ""; "X"; "X"; ""; ""; ""; ""] 4 ->
    FixedServer.aiMove (mkRand (fun l => l) (fun _ => 0))
      ["O"; "O"; ""; "X"; "X"; ""; ""; ""; ""]
    = Ok (<[4%nat := "O"]> ["O"; "O"; ""; "X"; "X"; ""; ""; ""; ""])) /\
   (~ emptyAt ["O"; "O"; ""; "X"; "X"; ""; ""; ""; ""] 4 ->
    (exists c, c ∈ [0; 2; 6; 8]%nat /\ emptyAt ["O"; "O"; ""; "X"; "X"; ""; ""; ""; ""] c) ->
    exists m, m ∈ [0; 2; 6; 8]%nat /\ emptyAt ["O"; "O"; ""; "X"; "X"; ""; ""; ""; ""] m /\
              FixedServer.aiMove (mkRand (fun l => l) (fun _ => 0))
                ["O"; "O"; ""; "X"; "X"; ""; ""; ""; ""]
              = Ok (<[m := "O"]> ["O"; "O"; ""; "X"; "X"; ""; ""; ""; ""])) /\
   (~ emptyAt ["O"; "O"; ""; "X"; "X"; ""; ""; ""; ""] 4 ->
    (forall c, c ∈ [0; 2; 6; 8]%nat -> ~ emptyAt ["O"; "O"; ""; "X"; "X"; ""; ""; ""; ""] c) ->
    forall m, (m < 9)%nat -> emptyAt ["O"; "O"; ""; "X"; "X"; ""; ""; ""; ""] m ->
              (forall j, (j < m)%nat -> ~ emptyAt ["O"; "O"; ""; "X"; "X"; ""; ""; ""; ""] j) ->
              FixedServer.aiMove (mkRand (fun l => l) (fun _ => 0))
                ["O"; "O"; ""; "X"; "X"; ""; ""; ""; ""]
              = Ok (<[m := "O"]> ["O"; "O"; ""; "X"; "X"; ""; ""; ""; ""]))).
Proof.
  apply Fixed_aiMove_priorities.
  - simpl. lia.
  - split; [done|]. intros k Hk. simpl. lia.
Defined.

(** ** The handler *)


Lemma Fixed_playHandler_outcome (rnd : Rand) (b : Board) (w : string) :
  (9 <= length b)%nat -> RandOk rnd ->
  FixedServer.playHandler rnd (FixedServer.mkGameState b w) = Ok (fixedOutcome rnd b w).
Proof.
  intros Hlen Hrnd. unfold FixedServer.playHandler, fixedOutcome.
  simpl FixedServer.gsBoard. simpl FixedServer.gsWinner. cbv zeta.
  rewrite Fixed_checkWinner_hasLine3_ge by done. unfold rbind at 1.
  destruct (hasLine3 b "X"); [done|].
  rewrite Fixed_isBoardFull_eq. destruct (isBoardFull b); [done|].
  rewrite Fixed_aiMove_choice by done. unfold rbind at 1.
  set (b' := match fixedChoice rnd b with Some m => <[m := "O"]> b | None => b end).
  assert (Hlen' : (9 <= length b')%nat).
  { unfold b'. destruct (fixedChoice rnd b); [by rewrite length_insert|done]. }
  rewrite Fixed_checkWinner_hasLine3_ge by done. unfold rbind.
  destruct (hasLine3 b' "O"); [done|].
  rewrite Fixed_isBoardFull_eq. by destruct (isBoardFull b').
Qed.

(** The fixed-size handler returns on every board of at least nine cells.
    The board it answers with is the request's board, or that board with "O"
    in one free cell among the first nine. The winner it answers with is
    "X" (the human had a line and the board is unchanged), "draw" (the
    answered board has no free cell and no line of the human), "O" (the
    answered board has a line of the AI), or the winner field of the
    request, whatever it was (the answered board has no line and a free
    cell). *)
Theorem Fixed_playHandler_outcomes (rnd : Rand) (b : Board) (w : string) :
  (9 <= length b)%nat -> RandOk rnd ->
  exists b' w',
    FixedServer.playHandler rnd (FixedServer.mkGameState b w)
      = Ok (FixedServer.mkGameState b' w') /\
    (b' = b \/ exists m, (m < 9)%nat /\ emptyAt b m /\ b' = <[m := "O"]> b) /\
    ((w' = "X" /\ b' = b /\ Fixed.checkWinner b "X" = Ok true) \/
     (w' = "draw" /\ Fixed.isBoardFull b' = true /\ Fixed.checkWinner b' "X" = Ok false) \/
     (w' = "O" /\ Fixed.checkWinner b' "O" = Ok true /\ Fixed.checkWinner b' "X" = Ok false) \/
     (w' = w /\ Fixed.isBoardFull b' = false /\
      Fixed.checkWinner b' "O" = Ok false /\ Fixed.checkWinner b' "X" = Ok false)).
Proof.
  intros Hlen Hrnd. rewrite Fixed_playHandler_outcome by done. unfold fixedOutcome.
  destruct (hasLine3 b "X") eqn:HX.
  { exists b, "X". split; [done|]. split; [by left|]. left.
    by rewrite Fixed_checkWinner_hasLine3_ge, HX. }
  destruct (isBoardFull b) eqn:Hfull.
  { exists b, "draw". split; [done|]. split; [by left|]. right; left.
    by rewrite Fixed_isBoardFull_eq, Fixed_checkWinner_hasLine3_ge, HX. }
  cbv zeta.
  set (b' := match fixedChoice rnd b with Some m => <[m := "O"]> b | None => b end).
  assert (Hb' : (b' = b \/ exists m, (m < 9)%nat /\ emptyAt b m /\ b' = <[m := "O"]> b)).
  { unfold b'. destruct (fixedChoice rnd b) as [m|] eqn:E; [|by left].
    right. exists m. destruct (fixedChoice_Some rnd b m Hlen Hrnd E). done. }
  assert (Hlen' : (9 <= length b')%nat).
  { destruct Hb' as [->|(m & _ & _ & ->)]; [done|by rewrite length_insert]. }
  assert (HX' : hasLine3 b' "X" = false).
  { destruct Hb' as [->|(m & _ & Hm & ->)]; [done|].
    by rewrite hasLine3_insert_empty. }
  destruct (hasLine3 b' "O") eqn:HO.
  { exists b', "O". split; [done|]. split; [done|]. right; right; left.
    by rewrite !Fixed_checkWinner_hasLine3_ge, HO, HX'. }
  destruct (isBoardFull b') eqn:Hfull'.
  { exists b', "draw". split; [done|]. split; [done|]. right; left.
    by rewrite Fixed_isBoardFull_eq, Fixed_checkWinner_hasLine3_ge, HX'. }
  exists b', w. split; [done|]. split; [done|]. right; right; right.
  by rewrite Fixed_isBoardFull_eq, !Fixed_checkWinner_hasLine3_ge, HO, HX'.
Qed.

Lemma Fixed_playHandler_outcomes_witness :
  exists b' w',
    FixedServer.playHandler (mkRand (fun l => l) (fun _ => 0))
      (FixedServer.mkGameState ["X"; ""; ""; ""; ""; ""; ""; ""; ""] "")
      = Ok (FixedServer.mkGameState b' w') /\
    (b' = ["X"; ""; ""; ""; ""; ""; ""; ""; ""] \/
     exists m, (m < 9)%nat /\ emptyAt ["X"; ""; ""; ""; ""; ""; ""; ""; ""] m /\
               b' = <[m := "O"]> ["X"; ""; ""; ""; ""; ""; ""; ""; ""]) /\
    ((w' = "X" /\ b' = ["X"; ""; ""; ""; ""; ""; ""; ""; ""] /\
      Fixed.checkWinner ["X"; ""; ""; ""; ""; ""; ""; ""; ""] "X" = Ok true) \/
     (w' = "draw" /\ Fixed.isBoardFull b' = true /\ Fixed.checkWinner b' "X" = Ok false) \/
     (w' = "O" /\ Fixed.checkWinner b' "O" = Ok true /\ Fixed.checkWinner b' "X" = Ok false) \/
     (w' = "" /\ Fixed.isBoardFull b' = false /\
      Fixed.checkWinner b' "O" = Ok false /\ Fixed.checkWinner b' "X" = Ok false)).
Proof.
  apply Fixed_playHandler_outcomes.
  - simpl. lia.
  - split; [done|]. intros k Hk. simpl. lia.
Defined.

(** A board of more than nine cells whose first nine are taken, with a free
    cell further on: the board is not full, no stage of [aiMove] finds a
    cell, and the handler answers with the board it received; the winner is
    "O" when the AI has a line and the request's winner otherwise. *)
Theorem Fixed_playHandler_long_board (rnd : Rand) (b : Board) (w : string) :
  (9 <= length b)%nat -> RandOk rnd ->
  (forall j, (j < 9)%nat -> ~ emptyAt b j) -> Fixed.isBoardFull b = false ->
  Fixed.checkWinner b "X" = Ok false ->
  FixedServer.aiMove rnd b = Ok b /\
  exists o, Fixed.checkWinner b "O" = Ok o /\
    FixedServer.playHandler rnd (FixedServer.mkGameState b w)
    = Ok (FixedServer.mkGameState b (if o then "O" else w)).
Proof.
  intros Hlen Hrnd Hnine Hfull HX.
  rewrite Fixed_isBoardFull_eq in Hfull.
  rewrite Fixed_checkWinner_hasLine3_ge in HX by done. injection HX as HX.
  assert (Hc : fixedChoice rnd b = None).
  { destruct (fixedChoice rnd b) as [m|] eqn:E; [|done].
    destruct (fixedChoice_Some rnd b m Hlen Hrnd E) as [H1 H2]. by destruct (Hnine m). }
  split; [by rewrite Fixed_aiMove_choice, Hc|].
  exists (hasLine3 b "O"). split; [by apply Fixed_checkWinner_hasLine3_ge|].
  rewrite Fixed_playHandler_outcome by done. unfold fixedOutcome.
  rewrite HX, Hfull, Hc. cbv zeta. rewrite Hfull. by destruct (hasLine3 b "O").
Qed.

Lemma Fixed_playHandler_long_board_witness :
  FixedServer.aiMove (mkRand (fun l => l) (fun _ => 0))
    ["X"; "O"; "X"; "X"; "O"; "O"; "O"; "X"; "X"; ""]
  = Ok ["X"; "O"; "X"; "X"; "O"; "O"; "O"; "X"; "X"; ""] /\
  exists o, Fixed.checkWinner ["X"; "O"; "X"; "X"; "O"; "O"; "O"; "X"; "X"; ""] "O" = Ok o /\
    FixedServer.playHandler (mkRand (fun l => l) (fun _ => 0))
      (FixedServer.mkGameState ["X"; "O"; "X"; "X"; "O"; "O"; "O"; "X"; "X"; ""] "")
    = Ok (FixedServer.mkGameState ["X"; "O"; "X"; "X"; "O"; "O"; "O"; "X"; "X"; ""]
            (if o then "O" else "")).
Proof.
  apply Fixed_playHandler_long_board.
  - simpl. lia.
  - split; [done|]. intros k Hk. simpl. lia.
  - intros j Hj He. each_cell j ltac:(discriminate He). lia.
  - reflexivity.
  - reflexivity.
Defined.

(** The fixed-size handler does not check the length of the board. On a
    board of fewer than seven cells the first read past the end panics,
    unless the short-circuit evaluation of [checkWinner] finds the cells
    0, 1, 2 or the cells 3, 4, 5 all "X" before: then the handler answers
    with the winner "X". *)
Theorem Fixed_playHandler_short_board (rnd : Rand) (b : Board) (w : string) :
  (length b < 7)%nat ->
  FixedServer.playHandler rnd (FixedServer.mkGameState b w) =
  if bool_decide (take 3 b = ["X"; "X"; "X"] \/ drop 3 b = ["X"; "X"; "X"])
  then Ok (FixedServer.mkGameState b "X") else Panic.
Proof.
  intros Hlen. unfold FixedServer.playHandler. simpl FixedServer.gsBoard. cbv zeta.
  destruct b as [|c0 [|c1 [|c2 [|c3 [|c4 [|c5 [|c6 b]]]]]]]; simpl in Hlen; try lia;
    unfold Fixed.checkWinner, Fixed.winConditions, Fixed.anyCondition, cellIs, index;
    simpl;
    repeat match goal with
    | |- context [String.eqb ?c "X"] =>
        is_var c; destruct (String.eqb_spec c "X") as [->|?]
    end; simpl; try done;
    case_bool_decide as Hd; try done;
    try (exfalso; apply Hd; by (left + right));
    try (destruct Hd as [Hd|Hd]; congruence).
Qed.

Lemma Fixed_playHandler_short_board_witness :
  FixedServer.playHandler (mkRand (fun l => l) (fun _ => 0))
    (FixedServer.mkGameState ["O"; ""; ""; "X"; "X"; "X"] "") =
  if bool_decide (take 3 ["O"; ""; ""; "X"; "X"; "X"] = ["X"; "X"; "X"] \/
                  drop 3 ["O"; ""; ""; "X"; "X"; "X"] = ["X"; "X"; "X"])
  then Ok (FixedServer.mkGameState ["O"; ""; ""; "X"; "X"; "X"] "X") else Panic.
Proof. apply Fixed_playHandler_short_board. simpl. lia. Defined.

(** ** The two heuristics *)

Lemma findFrom_ext (k i : nat) (f g : nat -> bool) :
  (forall j, (i <= j < i + k)%nat -> f j = g j) -> findFrom k i f = findFrom k i g.
Proof.
  revert i. induction k as [|k IH]; intros i H; [done|].
  simpl. rewrite (H i) by lia. destruct (g i); [done|]. apply IH. intros j Hj. apply H. lia.
Qed.

Lemma completesb_3 (b : Board) (mark : string) (j : nat) :
  completesb b mark 3 j = completes3 b mark j.
Proof. unfold completesb, completes3. by rewrite hasLine_3. Qed.

Lemma firstEmptyCorner_firstFree (b : Board) (cs : list Z) :
  (forall c, c ∈ cs -> 0 <= c < Z.of_nat (length b)) ->
  firstEmptyCorner b cs = Ok (Z.of_nat <$> firstFree b cs).
Proof.
  induction cs as [|c cs IH]; intros Hcs; [done|].
  simpl. assert (Hc : 0 <= c < Z.of_nat (length b)) by (apply Hcs; by left).
  rewrite cellIs_marked by done. unfold rbind at 1. unfold EMPTY.
  destruct (marked b (Z.to_nat c) ""); [simpl; by rewrite Z2Nat.id by lia|].
  apply IH. intros c' Hc'. apply Hcs. by right.
Qed.

Lemma heuristic3_choice (rnd : Rand) (b : Board) :
  length b = 9%nat -> RandOk rnd -> isBoardFull b = false ->
  findBestMoveHeuristic rnd b 3 =
  match findFrom 9 0 (completes3 b "O") with
  | Some m => Ok (Z.of_nat m)
  | None =>
    match findFrom 9 0 (completes3 b "X") with
    | Some m => Ok (Z.of_nat m)
    | None =>
      if marked b 4 "" then Ok 4
      else
        match firstFree b (shuffle rnd [0; 2; 6; 8]) with
        | Some m => Ok (Z.of_nat m)
        | None => spotAt (getEmptySpots b) (intn rnd (Z.of_nat (length (getEmptySpots b))))
        end
    end
  end.
Proof.
  intros Hlen Hrnd Hfull. unfold findBestMoveHeuristic. cbv zeta.
  case_bool_decide as Hz.
  { apply getEmptySpots_length_0 in Hz. congruence. }
  assert (H9 : Z.of_nat (length b) = 3 * 3) by (rewrite Hlen; reflexivity).
  assert (Hmax : 3 * 3 <= maxInt64) by (vm_compute; discriminate).
  rewrite !firstCompleting_getEmptySpots by done.
  rewrite Hlen. change (Z.to_nat 3) with 3%nat.
  rewrite (findFrom_ext 9 0 (completesb b AI_O 3) (completes3 b "O"))
    by (intros; apply completesb_3).
  rewrite (findFrom_ext 9 0 (completesb b PLAYER_X 3) (completes3 b "X"))
    by (intros; apply completesb_3).
  remember (findFrom 9 0 (completes3 b "O")) as fO eqn:EO.
  remember (findFrom 9 0 (completes3 b "X")) as fX eqn:EX.
  clear EO EX. unfold rbind at 1.
  destruct fO as [m|]; [done|]. simpl fmap. cbv iota.
  unfold rbind at 1.
  destruct fX as [m|]; [done|]. simpl fmap. cbv iota.
  unfold centerCornerRandom. cbv zeta.
  change (Z.quot (mul64 3 3) 2) with 4.
  change [0; sub64 3 1; mul64 3 (sub64 3 1); sub64 (mul64 3 3) 1] with [0; 2; 6; 8].
  rewrite cellIs_marked by lia. unfold rbind at 1. to_nat_lits. unfold EMPTY.
  destruct (marked b 4 ""); [done|].
  rewrite firstEmptyCorner_firstFree
    by (apply shuffle_corners_range; [done|lia]).
  unfold rbind at 1. by destruct (firstFree b _).
Qed.

(** On a board of nine cells the fixed-size [aiMove] and the heuristic of
    the variable-size server, run at size 3 with the same random source,
    choose the same cell, as long as some stage before the last one finds a
    cell: a winning cell, a blocking cell, the centre or a corner. In the
    last stage the fixed-size server takes the lowest free cell, where the
    heuristic draws one of the free cells at random. *)
Theorem Fixed_aiMove_agrees_with_heuristic (rnd : Rand) (b : Board) :
  length b = 9%nat -> RandOk rnd -> isBoardFull b = false ->
  ((exists j, completes b AI_O 3 j) \/ (exists j, completes b PLAYER_X 3 j) \/
   (exists c, c ∈ [0; 2; 4; 6; 8]%nat /\ emptyAt b c) ->
   exists m, emptyAt b m /\
     findBestMoveHeuristic rnd b 3 = Ok (Z.of_nat m) /\
     FixedServer.aiMove rnd b = Ok (<[m := "O"]> b))
  /\
  ((forall j, ~ completes b AI_O 3 j) -> (forall j, ~ completes b PLAYER_X 3 j) ->
   (forall c, c ∈ [0; 2; 4; 6; 8]%nat -> ~ emptyAt b c) ->
   findBestMoveHeuristic rnd b 3
     = spotAt (getEmptySpots b) (intn rnd (Z.of_nat (length (getEmptySpots b)))) /\
   exists m, emptyAt b m /\ (forall j, (j < m)%nat -> ~ emptyAt b j) /\
     FixedServer.aiMove rnd b = Ok (<[m := "O"]> b)).
Proof.
  intros Hlen Hrnd Hfull.
  assert (H9 : Z.of_nat (length b) = 3 * 3) by (rewrite Hlen; reflexivity).
  assert (Hmax : 3 * 3 <= maxInt64) by (vm_compute; discriminate).
  assert (Hcomp : forall mark j, completes b mark 3 j <-> completes3 b mark j = true).
  { intros mark j. rewrite <- completesb_3.
    change 3%nat with (Z.to_nat 3). by rewrite completesb_true. }
  pose proof (marked_empty_iff b) as He. unfold EMPTY in He.
  rewrite heuristic3_choice, Fixed_aiMove_choice by (done || lia).
  pose proof (fixedChoice_Some rnd b) as Hsome.
  unfold fixedChoice in *.
  split.
  - intros Hstage.
    destruct (findFrom 9 0 (completes3 b "O")) as [m|] eqn:E1.
    { exists m. destruct (Hsome m ltac:(lia) Hrnd eq_refl). done. }
    destruct (findFrom 9 0 (completes3 b "X")) as [m|] eqn:E2.
    { exists m. destruct (Hsome m ltac:(lia) Hrnd eq_refl). done. }
    destruct (marked b 4 "") eqn:E4.
    { exists 4%nat. split; [by apply He|done]. }
    destruct (firstFree b (shuffle rnd [0; 2; 6; 8])) as [m|] eqn:E3.
    { exists m. destruct (Hsome m ltac:(lia) Hrnd eq_refl). done. }
    exfalso. destruct Hstage as [[j Hj]|[[j Hj]|(c & Hc & Hfree)]].
    + pose proof Hj as [Hje _]. apply emptyAt_lt in Hje.
      apply Hcomp in Hj. rewrite (findFrom_None _ _ _ E1) in Hj by lia. done.
    + pose proof Hj as [Hje _]. apply emptyAt_lt in Hje.
      apply Hcomp in Hj. rewrite (findFrom_None _ _ _ E2) in Hj by lia. done.
    + destruct (decide (c = 4%nat)) as [->|Hc4].
      { apply He in Hfree. congruence. }
      destruct Hrnd as [Hperm _].
      apply (firstFree_None _ _ E3 (Z.of_nat c)); [|by rewrite Nat2Z.id].
      rewrite (Hperm [0; 2; 6; 8]).
      repeat (apply elem_of_cons in Hc as [->|Hc]; [first [in_list | done]|]).
      by inversion Hc.
  - intros HnoO HnoX Hnc.
    destruct (findFrom 9 0 (completes3 b "O")) as [m|] eqn:E1.
    { apply findFrom_Some in E1 as (_ & E1 & _). apply Hcomp in E1. by destruct (HnoO m). }
    destruct (findFrom 9 0 (completes3 b "X")) as [m|] eqn:E2.
    { apply findFrom_Some in E2 as (_ & E2 & _). apply Hcomp in E2. by destruct (HnoX m). }
    destruct (marked b 4 "") eqn:E4.
    { apply He in E4. destruct (Hnc 4%nat); [in_list|done]. }
    destruct (firstFree b (shuffle rnd [0; 2; 6; 8])) as [m|] eqn:E3.
    { apply firstFree_Some in E3 as [Hm (c & Hc & ->)].
      destruct Hrnd as [Hperm _]. rewrite (Hperm [0; 2; 6; 8]) in Hc.
      destruct (Hnc (Z.to_nat c)); [|done].
      repeat (apply elem_of_cons in Hc as [->|Hc]; [in_list|]). by inversion Hc. }
    split; [done|].
    destruct (findFrom 9 0 (fun j => marked b j "")) as [m|] eqn:E5.
    + apply findFrom_Some in E5 as (H1 & H2 & H3). exists m.
      split; [by apply He|]. split; [|done].
      intros j Hj Hje. apply He in Hje. rewrite H3 in Hje by lia. done.
    + apply isBoardFull_false_iff in Hfull as [j Hj]. pose proof (emptyAt_lt _ _ Hj).
      apply He in Hj. rewrite (findFrom_None _ _ _ E5) in Hj by lia. done.
Qed.

Lemma Fixed_aiMove_agrees_with_heuristic_witness :
  ((exists j, completes ["X"; ""; ""; ""; "O"; ""; ""; ""; "X"] AI_O 3 j) \/
   (exists j, completes ["X"; ""; ""; ""; "O"; ""; ""; ""; "X"] PLAYER_X 3 j) \/
   (exists c, c ∈ [0; 2; 4; 6; 8]%nat /\ emptyAt ["X"; ""; ""; ""; "O"; ""; ""; ""; "X"] c) ->
   exists m, emptyAt ["X"; ""; ""; ""; "O"; ""; ""; ""; "X"] m /\
     findBestMoveHeuristic (mkRand (fun l => l) (fun _ => 0))
       ["X"; ""; ""; ""; "O"; ""; ""; ""; "X"] 3 = Ok (Z.of_nat m) /\
     FixedServer.aiMove (mkRand (fun l => l) (fun _ => 0))
       ["X"; ""; ""; ""; "O"; ""; ""; ""; "X"]
     = Ok (<[m := "O"]> ["X"; ""; ""; ""; "O"; ""; ""; ""; "X"]))
  /\
  ((forall j, ~ completes ["X"; ""; ""; ""; "O"; ""; ""; ""; "X"] AI_O 3 j) ->
   (forall j, ~ completes ["X"; ""; ""; ""; "O"; ""; ""; ""; "X"] PLAYER_X 3 j) ->
   (forall c, c ∈ [0; 2; 4; 6; 8]%nat ->
              ~ emptyAt ["X"; ""; ""; ""; "O"; ""; ""; ""; "X"] c) ->
   findBestMoveHeuristic (mkRand (fun l => l) (fun _ => 0))
     ["X"; ""; ""; ""; "O"; ""; ""; ""; "X"] 3
     = spotAt (getEmptySpots ["X"; ""; ""; ""; "O"; ""; ""; ""; "X"])
         (intn (mkRand (fun l => l) (fun _ => 0))
            (Z.of_nat (length (getEmptySpots ["X"; ""; ""; ""; "O"; ""; ""; ""; "X"])))) /\
   exists m, emptyAt ["X"; ""; ""; ""; "O"; ""; ""; ""; "X"] m /\
     (forall j, (j < m)%nat -> ~ emptyAt ["X"; ""; ""; ""; "O"; ""; ""; ""; "X"] j) /\
     FixedServer.aiMove (mkRand (fun l => l) (fun _ => 0))
       ["X"; ""; ""; ""; "O"; ""; ""; ""; "X"]
     = Ok (<[m := "O"]> ["X"; ""; ""; ""; "O"; ""; ""; ""; "X"])).
Proof.
  apply Fixed_aiMove_agrees_with_heuristic.
  - reflexivity.
  - split; [done|]. intros k Hk. simpl. lia.
  - reflexivity.
Defined.

(** ** Play against the fixed-size server *)

Lemma HumanBeats_step (b : Board) (i : nat) :
  (9 <= length b)%nat -> emptyAt b i ->
  (forall rnd, RandOk rnd ->
     FixedServer.gsWinner (fixedOutcome rnd (<[i := PLAYER_X]> b) "") = "X" \/
     (FixedServer.gsWinner (fixedOutcome rnd (<[i := PLAYER_X]> b) "") = "" /\
      HumanBeats (FixedServer.gsBoard (fixedOutcome rnd (<[i := PLAYER_X]> b) "")))) ->
  HumanBeats b.
Proof.
  intros Hlen Hi Hall. apply (HumanBeats_intro b i Hi).
  - intros rnd Hrnd. exists (fixedOutcome rnd (<[i := PLAYER_X]> b) "").
    split; [apply Fixed_playHandler_outcome; [by rewrite length_insert|done]|].
    destruct (Hall rnd Hrnd) as [H|[H _]]; [by left|by right].
  - intros rnd st' Hrnd Hst Hw.
    rewrite Fixed_playHandler_outcome in Hst by (by rewrite ?length_insert).
    injection Hst as <-.
    destruct (Hall rnd Hrnd) as [H|[_ H]]; [|done].
    rewrite H in Hw. discriminate.
Qed.

Lemma corner_after_opposite_corners (rnd : Rand) :
  RandOk rnd ->
  firstFree ["X"; ""; ""; ""; "O"; ""; ""; ""; "X"] (shuffle rnd [0; 2; 6; 8]) = Some 2%nat \/
  firstFree ["X"; ""; ""; ""; "O"; ""; ""; ""; "X"] (shuffle rnd [0; 2; 6; 8]) = Some 6%nat.
Proof.
  intros [Hperm _].
  destruct (firstFree _ (shuffle rnd [0; 2; 6; 8])) as [m|] eqn:E.
  - apply firstFree_Some in E as [Hm (c & Hc & ->)].
    rewrite (Hperm [0; 2; 6; 8]) in Hc.
    repeat (apply elem_of_cons in Hc as [->|Hc];
            [first [discriminate Hm | by left | by right]|]).
    by inversion Hc.
  - exfalso. apply (firstFree_None _ _ E 2); [|reflexivity].
    rewrite (Hperm [0; 2; 6; 8]). in_list.
Qed.

(** The fixed-size server can be beaten from the empty board, whatever its
    random source does: the human opens in a corner, takes the opposite
    corner, and then the corner next to the one the server took, which
    leaves two lines open at once. *)
Theorem Fixed_server_is_beaten : HumanBeats [""; ""; ""; ""; ""; ""; ""; ""; ""].
Proof.
  apply (HumanBeats_step _ 0); [simpl; lia|reflexivity|].
  intros rnd1 _. right. split; [vm_compute; reflexivity|].
  change (FixedServer.gsBoard _) with ["X"; ""; ""; ""; "O"; ""; ""; ""; ""].
  apply (HumanBeats_step _ 8); [simpl; lia|reflexivity|].
  intros rnd2 Hrnd2. right.
  assert (Hout : fixedOutcome rnd2 (<[8%nat := PLAYER_X]> ["X"; ""; ""; ""; "O"; ""; ""; ""; ""]) ""
                 = FixedServer.mkGameState ["X"; ""; "O"; ""; "O"; ""; ""; ""; "X"] "" \/
                 fixedOutcome rnd2 (<[8%nat := PLAYER_X]> ["X"; ""; ""; ""; "O"; ""; ""; ""; ""]) ""
                 = FixedServer.mkGameState ["X"; ""; ""; ""; "O"; ""; "O"; ""; "X"] "").
  { unfold fixedOutcome, fixedChoice.
    change (<[8%nat := PLAYER_X]> ["X"; ""; ""; ""; "O"; ""; ""; ""; ""])
      with ["X"; ""; ""; ""; "O"; ""; ""; ""; "X"].
    change (hasLine3 ["X"; ""; ""; ""; "O"; ""; ""; ""; "X"] "X") with false.
    change (isBoardFull ["X"; ""; ""; ""; "O"; ""; ""; ""; "X"]) with false.
    change (findFrom 9 0 (completes3 ["X"; ""; ""; ""; "O"; ""; ""; ""; "X"] "O")) with (@None nat).
    change (findFrom 9 0 (completes3 ["X"; ""; ""; ""; "O"; ""; ""; ""; "X"] "X")) with (@None nat).
    change (marked ["X"; ""; ""; ""; "O"; ""; ""; ""; "X"] 4 "") with false.
    cbv iota zeta.
    destruct (corner_after_opposite_corners rnd2 Hrnd2) as [-> | ->]; [by left|by right]. }
  destruct Hout as [-> | ->]; (split; [reflexivity|]); simpl FixedServer.gsBoard.
  - apply (HumanBeats_step _ 6); [simpl; lia|reflexivity|].
    intros rnd3 _. right. split; [vm_compute; reflexivity|].
    change (FixedServer.gsBoard _) with ["X"; ""; "O"; "O"; "O"; ""; "X"; ""; "X"].
    apply (HumanBeats_step _ 7); [simpl; lia|reflexivity|].
    intros rnd4 _. left. vm_compute. reflexivity.
  - apply (HumanBeats_step _ 2); [simpl; lia|reflexivity|].
    intros rnd3 _. right. split; [vm_compute; reflexivity|].
    change (FixedServer.gsBoard _) with ["X"; "O"; "X"; ""; "O"; ""; "O"; ""; "X"].
    apply (HumanBeats_step _ 5); [simpl; lia|reflexivity|].
    intros rnd4 _. left. vm_compute. reflexivity.
Qed.
